(** * Concordance index for right-censored data (eval/cindex.py)

    A shallow embedding of [_check_inputs], [_get_comparable],
    [_estimate_concordance_index], [concordance_index_censored] and the
    adapter [concordance_index], followed by the properties stated about
    them.

    Modelling conventions.
    - A one-dimensional numpy array is a [list]; positions are [nat].
    - A float is modelled by the rational it denotes ([Q]); the only
      non-finite values the code can produce come from the final division
      and are kept explicit ([float64]: finite, infinities, NaN).  The
      final division rounds its quotient to binary64 (to nearest, ties to
      even).  The two sums that feed it are kept as the real numbers they
      stand for: with the unit weights [concordance_index_censored]
      passes they are counts and half-counts, which binary64 holds
      exactly below 2^53.
    - Integer counters are unbounded ([Z]).
    - A Python exception is a value of type [exception]; a function that
      may raise returns [result A = exception + A].
    - The [dict] built by [_get_comparable] is an association list in
      insertion order, which is the iteration order of a Python dict.
    - [numpy.argsort] is a parameter: any function returning a permutation
      of the positions that puts the times in ascending order.
    - Indexing returns a default outside the range, where Python raises;
      the properties are stated for inputs on which every index is in
      range (arrays of equal length, [order] a permutation of the
      positions). *)

From Stdlib Require Import String.
From Stdlib Require Import List Bool Arith ZArith QArith Qabs Lia Lqa.
From Stdlib Require Import Permutation Sorted.
Import ListNotations.

Local Open Scope nat_scope.

(** ** Exceptions and results *)

Inductive exception : Type :=
| ValueError (msg : string)
| NoComparablePairException (msg : string)
| AssertionError (msg : string) (arg : option nat)
| IndexError (msg : string)
| TypeError (msg : string).

Definition result (A : Type) : Type := (exception + A)%type.

Definition ret {A : Type} (a : A) : result A := inr a.
Definition raise {A : Type} (e : exception) : result A := inl e.

Definition bind {A B : Type} (m : result A) (k : A -> result B) : result B :=
  match m with
  | inl e => inl e
  | inr a => k a
  end.

Notation "x <- m ;; k" := (bind m (fun x => k))
  (at level 61, m at next level, right associativity).
Notation "' p <- m ;; k" := (bind m (fun x => let p := x in k))
  (at level 61, p pattern, m at next level, right associativity).

(** ** The numpy operations the module uses *)

Module np.

(** [a[i]] for an index known to be in range. *)
Definition item {A : Type} (d : A) (a : list A) (i : nat) : A := nth i a d.

(** [a[idx]] with an integer index array. *)
Definition take {A : Type} (d : A) (a : list A) (idx : list nat) : list A :=
  map (item d a) idx.

(** [a[lo:hi]]. *)
Definition slice {A : Type} (a : list A) (lo hi : nat) : list A :=
  firstn (hi - lo) (skipn lo a).

(** [a[mask]] with a boolean mask of the same length. *)
Fixpoint compress {A : Type} (mask : list bool) (a : list A) : list A :=
  match mask, a with
  | b :: mask', x :: a' =>
      if b then x :: compress mask' a' else compress mask' a'
  | _, _ => []
  end.

(** [numpy.zeros(n, dtype=bool)]. *)
Definition zeros (n : nat) : list bool := repeat false n.

(** [mask[lo:] = v]. *)
Definition set_from (mask : list bool) (lo : nat) (v : bool) : list bool :=
  firstn lo mask ++ repeat v (length mask - lo).

(** [mask[lo:hi] = vals], with [vals] of length [hi - lo]. *)
Definition set_slice (mask : list bool) (lo hi : nat) (vals : list bool)
  : list bool :=
  firstn lo mask ++ vals ++ skipn hi mask.

(** [~a] on a boolean array. *)
Definition invert (a : list bool) : list bool := map negb a.

(** [a.sum()] on a boolean array. *)
Definition sum (a : list bool) : Z :=
  Z.of_nat (length (filter (fun b => b) a)).

(** [a.any()]. *)
Definition any (a : list bool) : bool := existsb (fun b => b) a.

(** [range(lo, hi)]. *)
Definition range (lo hi : nat) : list nat := seq lo (hi - lo).

End np.

(** ** Python dict, in insertion order *)

Definition dict (V : Type) : Type := list (nat * V).

Fixpoint dict_set {V : Type} (k : nat) (v : V) (d : dict V) : dict V :=
  match d with
  | [] => [(k, v)]
  | (k', v') :: d' =>
      if Nat.eqb k k' then (k, v) :: d' else (k', v') :: dict_set k v d'
  end.

Fixpoint dict_get {V : Type} (k : nat) (d : dict V) : option V :=
  match d with
  | [] => None
  | (k', v') :: d' => if Nat.eqb k k' then Some v' else dict_get k d'
  end.

(** ** [_get_comparable] *)

Section GetComparable.

Variable event_indicator : list bool.
Variable event_time : list Q.
Variable order : list nat.

(** [event_time[order[k]]] and [event_indicator[order[k]]]. *)
Definition time_at (k : nat) : Q := np.item 0%Q event_time (np.item 0 order k).
Definition event_at (k : nat) : bool :=
  np.item false event_indicator (np.item 0 order k).

(** The inner [while end < n_samples and event_time[order[end]] == time_i]. *)
Fixpoint scan_end (fuel n_samples : nat) (time_i : Q) (end_ : nat) : nat :=
  match fuel with
  | O => end_
  | S fuel' =>
      if (end_ <? n_samples) && Qeq_bool (time_at end_) time_i
      then scan_end fuel' n_samples time_i (S end_)
      else end_
  end.

(** The body of [for j in range(i, end)]. *)
Definition group_step (n_samples i end_ : nat) (censored_at_same_time : list bool)
  (st : dict (list bool) * Z) (j : nat) : dict (list bool) * Z :=
  if event_at j then
    let mask := np.zeros n_samples in
    let mask := np.set_from mask end_ true in
    let mask := np.set_slice mask i end_ censored_at_same_time in
    (dict_set j mask (fst st), (snd st + np.sum censored_at_same_time)%Z)
  else st.

(** The outer [while i < n_samples - 1]; [None] when the fuel runs out. *)
Fixpoint get_comparable_loop (fuel n_samples i : nat)
  (st : dict (list bool) * Z) : option (dict (list bool) * Z) :=
  if i + 1 <? n_samples then
    match fuel with
    | O => None
    | S fuel' =>
        let time_i := time_at i in
        let start := i + 1 in
        let end_ := scan_end n_samples n_samples time_i start in
        let event_at_same_time :=
          np.take false event_indicator (np.slice order i end_) in
        let censored_at_same_time := np.invert event_at_same_time in
        let st' :=
          fold_left (group_step n_samples i end_ censored_at_same_time)
                    (np.range i end_) st in
        get_comparable_loop fuel' n_samples end_ st'
    end
  else Some st.

(** [n_samples] iterations are enough for the outer loop (lemmas
    [get_comparable_loop_total] and [get_comparable_runs]), so the second
    branch is never taken. *)
Definition _get_comparable : dict (list bool) * Z :=
  let n_samples := length event_time in
  match get_comparable_loop n_samples n_samples 0 ([], 0%Z) with
  | Some r => r
  | None => ([], 0%Z)
  end.

End GetComparable.


(** ** Floats produced by the final division *)

Inductive float64 : Type :=
| Finite (q : Q)
| PosInf
| NegInf
| NaN.

Definition Qltb (a b : Q) : bool := negb (Qle_bool b a).

(** *** Rounding to binary64 *)

(** The integer nearest to [n / d], for [0 <= n] and [0 < d]; of two
    equally near integers, the even one. *)
Definition round_half_even (n d : Z) : Z :=
  let q := (n / d)%Z in
  match (2 * (n mod d) ?= d)%Z with
  | Lt => q
  | Eq => if Z.even q then q else (q + 1)%Z
  | Gt => (q + 1)%Z
  end.

(** The fraction [n / d] divided by [2 ^ e]. *)
Definition scale2 (n d e : Z) : Z * Z :=
  if (0 <=? e)%Z then (n, (d * 2 ^ e)%Z) else ((n * 2 ^ (- e))%Z, d).

(** The exponent [e] with [2 ^ e <= n / d < 2 ^ (e + 1)], for positive
    [n] and [d]. *)
Definition binary_exponent (n d : Z) : Z :=
  let e0 := (Z.log2 n - Z.log2 d)%Z in
  let '(n', d') := scale2 n d e0 in
  if (d' <=? n')%Z then e0 else (e0 - 1)%Z.

(** [m * 2 ^ u], in lowest terms. *)
Definition dyadic (m u : Z) : Q :=
  if (0 <=? u)%Z then inject_Z (m * 2 ^ u)
  else Qred (m # Z.to_pos (2 ^ (- u))).

(** The binary64 value nearest to the positive fraction [n / d]: 53
    significant bits, the exponent not below -1022 (subnormal numbers
    share the spacing [2 ^ -1074]); [None] when the rounded value does
    not fit below [2 ^ 1024]. *)
Definition round_positive (n d : Z) : option Q :=
  let u := (Z.max (binary_exponent n d) (-1022) - 52)%Z in
  let '(n', d') := scale2 n d u in
  let v := dyadic (round_half_even n' d') u in
  if Qle_bool (inject_Z (2 ^ 1024)) v then None else Some v.

(** Rounding of a real number to binary64, to nearest, ties to even. *)
Definition binary64 (q : Q) : float64 :=
  let r := Qred q in
  match Qnum r with
  | Z0 => Finite 0
  | Zpos n =>
      match round_positive (Zpos n) (Zpos (Qden r)) with
      | Some v => Finite v
      | None => PosInf
      end
  | Zneg n =>
      match round_positive (Zpos n) (Zpos (Qden r)) with
      | Some v => Finite (- v)
      | None => NegInf
      end
  end.

(** numpy true division of two float64 scalars: a zero divisor gives NaN
    or an infinity (with a warning), never an exception; otherwise the
    quotient is rounded. *)
Definition np_divide (a b : Q) : float64 :=
  if Qeq_bool b 0 then
    if Qeq_bool a 0 then NaN
    else if Qltb 0 a then PosInf else NegInf
  else binary64 (a / b).

(** [0 <= x <= 1] on float64; every comparison with NaN is false. *)
Definition in_unit_interval (x : float64) : bool :=
  match x with
  | Finite q => Qle_bool 0 q && Qle_bool q 1
  | _ => false
  end.


(** ** [_estimate_concordance_index] *)

Record counters : Type := mkCounters {
  numerator : Q;
  denominator : Q;
  concordant : Z;
  discordant : Z;
  tied_risk : Z
}.

Definition counters0 : counters := mkCounters 0 0 0 0 0.

Definition msg_no_comparable : string :=
  "Data has no comparable pairs, cannot estimate concordance index.".
Definition msg_censored : string :=
  "got censored sample at index %d, but expected uncensored".

Section Estimate.

Variable argsort : list Q -> list nat.

Variable event_indicator : list bool.
Variable event_time : list Q.
Variable estimate : list Q.
Variable weights : list Q.
Variable tied_tol : Q.

(** [numpy.absolute(est - est_i) <= tied_tol] and [est < est_i]. *)
Definition is_tie (est_i e : Q) : bool := Qle_bool (Qabs (e - est_i)) tied_tol.
Definition is_con (est_i e : Q) : bool := Qltb e est_i.

(** One iteration of [for ind, mask in comparable.items()]. *)
Definition accumulate_step (order : list nat) (acc : counters)
  (entry : nat * list bool) : result counters :=
  let '(ind, mask) := entry in
  let est_i := np.item 0%Q estimate (np.item 0 order ind) in
  let event_i := np.item false event_indicator (np.item 0 order ind) in
  let w_i := np.item 0%Q weights (np.item 0 order ind) in
  let est := np.take 0%Q estimate (np.compress mask order) in
  if negb event_i
  then raise (AssertionError msg_censored (Some (np.item 0 order ind)))
  else
    let ties := map (is_tie est_i) est in
    let n_ties := np.sum ties in
    let con := map (is_con est_i) est in
    let n_con := np.sum (np.compress (np.invert ties) con) in
    ret {| numerator :=
             numerator acc
             + (w_i * inject_Z n_con + (1 # 2) * w_i * inject_Z n_ties);
           denominator := denominator acc + w_i * inject_Z (np.sum mask);
           concordant := concordant acc + n_con;
           discordant :=
             discordant acc + (Z.of_nat (length est) - n_con - n_ties);
           tied_risk := tied_risk acc + n_ties |}.

Fixpoint accumulate (order : list nat) (items : dict (list bool))
  (acc : counters) : result counters :=
  match items with
  | [] => ret acc
  | entry :: items' =>
      acc' <- accumulate_step order acc entry ;;
      accumulate order items' acc'
  end.

(** The function up to the end of its [for] loop: the local counters
    and [tied_time]. *)
Definition _estimate_counters : result (counters * Z) :=
  let order := argsort event_time in
  let '(comparable, tied_time) :=
    _get_comparable event_indicator event_time order in
  if length comparable =? 0
  then raise (NoComparablePairException msg_no_comparable)
  else
    acc <- accumulate order comparable counters0 ;;
    ret (acc, tied_time).

Definition _estimate_concordance_index
  : result (float64 * Z * Z * Z * Z) :=
  '(acc, tied_time) <- _estimate_counters ;;
  let cindex := np_divide (numerator acc) (denominator acc) in
  ret (cindex, concordant acc, discordant acc, tied_risk acc, tied_time).

End Estimate.

(** ** [_check_inputs] and [concordance_index_censored] *)

Definition msg_inconsistent : string :=
  "Found input variables with inconsistent numbers of samples".
Definition msg_empty : string :=
  "Found array with 0 sample(s) while a minimum of 1 is required.".
Definition msg_two_samples : string := "Need a minimum of two samples".
Definition msg_all_censored : string := "All samples are censored".

(** sklearn's [check_consistent_length]: all lengths equal. *)
Definition check_consistent_length (lengths : list nat) : result unit :=
  match lengths with
  | [] => ret tt
  | n :: rest =>
      if forallb (Nat.eqb n) rest then ret tt
      else raise (ValueError msg_inconsistent)
  end.

(** sklearn's [check_array(a, ensure_2d=False)] on a one-dimensional array
    of finite numbers or booleans: it only rejects the empty array.  Its
    other rejections (NaN, infinities, non-numeric entries) concern values
    that the element types here do not contain. *)
Definition check_array {A : Type} (a : list A) : result (list A) :=
  if length a <? 1 then raise (ValueError msg_empty) else ret a.

(** The dimension test of the source is vacuous on a [list]. *)
Definition _check_estimate_1d (estimate test_time : list Q) : result (list Q) :=
  estimate <- check_array estimate ;;
  _ <- check_consistent_length [length test_time; length estimate] ;;
  ret estimate.

(** The dtype test of the source is vacuous on a [list bool]. *)
Definition _check_inputs (event_indicator : list bool)
  (event_time estimate : list Q) : result (list bool * list Q * list Q) :=
  _ <- check_consistent_length
         [length event_indicator; length event_time; length estimate] ;;
  event_indicator <- check_array event_indicator ;;
  event_time <- check_array event_time ;;
  estimate <- _check_estimate_1d estimate event_time ;;
  if length event_time <? 2 then raise (ValueError msg_two_samples)
  else if negb (np.any event_indicator)
       then raise (ValueError msg_all_censored)
       else ret (event_indicator, event_time, estimate).

(** [numpy.ones_like]. *)
Definition ones_like (a : list Q) : list Q := repeat 1%Q (length a).

Definition concordance_index_censored (argsort : list Q -> list nat)
  (event_indicator : list bool) (event_time estimate : list Q) (tied_tol : Q)
  : result (float64 * Z * Z * Z * Z) :=
  '(event_indicator, event_time, estimate) <-
     _check_inputs event_indicator event_time estimate ;;
  let w := ones_like estimate in
  _estimate_concordance_index argsort event_indicator event_time estimate w
                              tied_tol.

(** A stable insertion sort of the positions by time: one admissible
    [numpy.argsort], used to run the model on concrete inputs. *)
Fixpoint insert_by (event_time : list Q) (p : nat) (l : list nat) : list nat :=
  match l with
  | [] => [p]
  | q :: l' =>
      if Qle_bool (np.item 0%Q event_time p) (np.item 0%Q event_time q)
      then p :: q :: l'
      else q :: insert_by event_time p l'
  end.

Definition stable_argsort (event_time : list Q) : list nat :=
  fold_right (insert_by event_time) [] (seq 0 (length event_time)).

(** ** The adapter [concordance_index] *)

(** Arrays of dimension 0, 1 and 2; an [Array2 c rows] has shape
    [(length rows, c)] and every row has [c] entries. *)
Inductive ndarray : Type :=
| Array0 (x : Q)
| Array1 (xs : list Q)
| Array2 (ncols : nat) (rows : list (list Q)).

Definition msg_tuple_index : string := "tuple index out of range".
Definition msg_too_many_indices : string := "too many indices for array".
Definition msg_out_of_bounds : string := "index is out of bounds for axis 1".
Definition msg_singleton : string :=
  "Singleton array cannot be considered a valid collection.".
Definition msg_expected_1d : string := "Expected 1D array, got 2D array instead".
(** A bare [assert] carries no message. *)
Definition msg_none : string := EmptyString.

(** [a.shape[1]]. *)
Definition shape1 (a : ndarray) : result nat :=
  match a with
  | Array2 c _ => ret c
  | _ => raise (IndexError msg_tuple_index)
  end.

(** [numpy.squeeze]: every axis of length one is removed. *)
Definition squeeze (a : ndarray) : ndarray :=
  match a with
  | Array0 x => Array0 x
  | Array1 [x] => Array0 x
  | Array1 xs => Array1 xs
  | Array2 c [r] =>
      if c =? 1 then Array0 (hd 0%Q r) else Array1 r
  | Array2 c rows =>
      if c =? 1 then Array1 (map (hd 0%Q) rows) else Array2 c rows
  end.

(** [a[:, k]]. *)
Definition column (a : ndarray) (k : nat) : result (list Q) :=
  match a with
  | Array2 c rows =>
      if k <? c then ret (map (fun r => nth k r 0%Q) rows)
      else raise (IndexError msg_out_of_bounds)
  | _ => raise (IndexError msg_too_many_indices)
  end.

(** [a.astype(numpy.bool_)]. *)
Definition astype_bool (a : list Q) : list bool :=
  map (fun x => negb (Qeq_bool x 0)) a.

(** [numpy.cumsum] and [numpy.cumprod] along a row: running accumulation
    from the left. *)
Fixpoint cumulate (op : Q -> Q -> Q) (acc : Q) (l : list Q) : list Q :=
  match l with
  | [] => []
  | x :: l' => op acc x :: cumulate op (op acc x) l'
  end.

Definition cumsum (l : list Q) : list Q :=
  match l with
  | [] => []
  | x :: l' => x :: cumulate Qplus x l'
  end.

Definition cumprod (l : list Q) : list Q :=
  match l with
  | [] => []
  | x :: l' => x :: cumulate Qmult x l'
  end.

(** [numpy.sum] along a row. *)
Definition row_sum (l : list Q) : Q := fold_left Qplus l 0%Q.

Definition kws_get (key : string) (kws : list (string * string))
  : option string :=
  match find (fun kv => String.eqb (fst kv) key) kws with
  | Some kv => Some (snd kv)
  | None => None
  end.

Definition tol_1e_08 : Q := 1 # 100000000.

(** The estimate handed to the core, as [_check_inputs] sees it: a 0-d
    array has no length, a 2-d array is not one-dimensional. *)
Definition censored_on_array (argsort : list Q -> list nat)
  (e : list bool) (t : list Q) (estimate : ndarray)
  : result (float64 * Z * Z * Z * Z) :=
  match estimate with
  | Array0 _ => raise (TypeError msg_singleton)
  | Array1 xs => concordance_index_censored argsort e t xs tol_1e_08
  | Array2 _ _ => raise (ValueError msg_expected_1d)
  end.

(** Unary minus on an array. *)
Definition negative (a : ndarray) : ndarray :=
  match a with
  | Array0 x => Array0 (- x)
  | Array1 xs => Array1 (map Qopp xs)
  | Array2 c rows => Array2 c (map (map Qopp) rows)
  end.

Definition first {A B C D E : Type} (r : A * B * C * D * E) : A :=
  let '(a, _, _, _, _) := r in a.

(** The rows of the array on which [shape[1]] succeeded. *)
Definition rows_of (a : ndarray) : list (list Q) :=
  match a with
  | Array2 _ rows => rows
  | _ => []
  end.

Definition survival_rows (incidence : bool) (rows : list (list Q))
  : list (list Q) :=
  if incidence
  then map (fun r => map (fun c => (1 - c)%Q) (cumsum r)) rows
  else map (fun r => cumprod (map (fun p => (1 - p)%Q) r)) rows.

Definition concordance_index (argsort : list Q -> list nat)
  (y_true y_pred : ndarray) (kws : list (string * string)) : result float64 :=
  c <- shape1 y_pred ;;
  if c =? 1 then
    _ <- match kws_get "type_pred" kws with
         | Some v =>
             if String.eqb v "hazard_ratio" then ret tt
             else raise (AssertionError msg_none None)
         | None => ret tt
         end ;;
    let y_true := squeeze y_true in
    let y_pred := squeeze y_pred in
    t <- column y_true 0 ;;
    e <- column y_true 1 ;;
    r <- censored_on_array argsort (astype_bool e) t (negative y_pred) ;;
    ret (first r)
  else
    y_t <- column y_true 0 ;;
    y_e <- column y_true 1 ;;
    let incidence :=
      match kws_get "type_pred" kws with
      | Some v => String.eqb v "incidence"
      | None => false
      end in
    let survival := survival_rows incidence (rows_of y_pred) in
    let risk := map row_sum survival in
    r <- censored_on_array argsort (astype_bool y_e) y_t
           (negative (Array1 risk)) ;;
    ret (first r).

(** ** Specification-level notions *)

(** [order] is an admissible result of [numpy.argsort(event_time)]. *)
Definition sorts (event_time : list Q) (order : list nat) : Prop :=
  Permutation order (seq 0 (length event_time)) /\
  forall a b, a <= b -> b < length event_time ->
    (time_at event_time order a <= time_at event_time order b)%Q.

(** What [_check_inputs] accepts. *)
Definition validated (event_indicator : list bool)
  (event_time estimate : list Q) : Prop :=
  length event_indicator = length event_time /\
  length estimate = length event_time /\
  2 <= length event_time /\
  np.any event_indicator = true.

Section Spec.

Variable event_indicator : list bool.
Variable event_time : list Q.
Variable order : list nat.

(** The sample at sort position [k] is censored and was observed at the
    same time as the one at position [j]. *)
Definition tied_censored (j k : nat) : bool :=
  Qeq_bool (time_at event_time order k) (time_at event_time order j)
  && negb (event_at event_indicator order k).

(** The sample at sort position [k] was observed strictly after the one
    at position [j], or at the same time and is censored. *)
Definition comparable_to (j k : nat) : bool :=
  Qltb (time_at event_time order j) (time_at event_time order k)
  || tied_censored j k.

Definition spec_mask (j : nat) : list bool :=
  map (comparable_to j) (seq 0 (length event_time)).

Definition spec_entry (j : nat) : dict (list bool) :=
  if event_at event_indicator order j then [(j, spec_mask j)] else [].

Definition spec_entries (lo len : nat) : dict (list bool) :=
  flat_map spec_entry (seq lo len).

Definition spec_tied_of (j : nat) : Z :=
  if event_at event_indicator order j
  then Z.of_nat (length (filter (tied_censored j)
                                (seq 0 (length event_time))))
  else 0%Z.

Definition spec_tied (lo len : nat) : Z :=
  fold_right Z.add 0%Z (map spec_tied_of (seq lo len)).

(** Position [j] is the last one and no other sample shares its time. *)
Definition alone_at_end (j : nat) : Prop :=
  j + 1 = length event_time /\
  ~ (time_at event_time order (j - 1) == time_at event_time order j)%Q.

(** No time group straddles position [i]. *)
Definition group_boundary (i : nat) : Prop :=
  forall a b, a < i -> i <= b -> b < length event_time ->
    (time_at event_time order a < time_at event_time order b)%Q.

(** The exit condition of a finished run: the loop stops at the end
    after a group of at least two samples, or one position short of it. *)
Definition stopped_at (i : nat) : Prop :=
  i <= length event_time /\ length event_time <= i + 1 /\
  group_boundary i /\
  (i = length event_time -> 2 <= length event_time ->
   (time_at event_time order (length event_time - 2)
    == time_at event_time order (length event_time - 1))%Q).

End Spec.

Section SpecCounts.

Variable event_indicator : list bool.
Variable event_time : list Q.
Variable estimate : list Q.
Variable weights : list Q.
Variable tied_tol : Q.
Variable order : list nat.

Definition est_at (k : nat) : Q := np.item 0%Q estimate (np.item 0 order k).
Definition weight_at (k : nat) : Q := np.item 0%Q weights (np.item 0 order k).

(** The sort positions comparable to position [j], and their estimates. *)
Definition comparable_positions (j : nat) : list nat :=
  filter (comparable_to event_indicator event_time order j)
         (seq 0 (length event_time)).

Definition comparable_estimates (j : nat) : list Q :=
  map est_at (comparable_positions j).

Definition size_of (j : nat) : Z :=
  Z.of_nat (length (comparable_positions j)).

Definition ties_of (j : nat) : Z :=
  Z.of_nat (length (filter (is_tie tied_tol (est_at j))
                           (comparable_estimates j))).

Definition con_of (j : nat) : Z :=
  Z.of_nat
    (length (filter (is_con (est_at j))
               (filter (fun e => negb (is_tie tied_tol (est_at j) e))
                       (comparable_estimates j)))).

(** The effect of the loop body for position [j] on the counters. *)
Definition spec_step (acc : counters) (j : nat) : counters :=
  if event_at event_indicator order j then
    {| numerator :=
         numerator acc
         + (weight_at j * inject_Z (con_of j)
            + (1 # 2) * weight_at j * inject_Z (ties_of j));
       denominator := denominator acc + weight_at j * inject_Z (size_of j);
       concordant := concordant acc + con_of j;
       discordant := discordant acc + (size_of j - con_of j - ties_of j);
       tied_risk := tied_risk acc + ties_of j |}
  else acc.

(** With unit weights the two sums are determined by the counts. *)
Definition balanced (acc : counters) : Prop :=
  (denominator acc
   == inject_Z (concordant acc + discordant acc + tied_risk acc))%Q /\
  (numerator acc
   == inject_Z (concordant acc) + (1 # 2) * inject_Z (tied_risk acc))%Q /\
  (0 <= concordant acc)%Z /\ (0 <= discordant acc)%Z /\
  (0 <= tied_risk acc)%Z.

(** The total number of classified pairs. *)
Definition classified (acc : counters) : Z :=
  (concordant acc + discordant acc + tied_risk acc)%Z.

End SpecCounts.

(** The mask stored under sort position [j] marks exactly the positions
    observed strictly later, and the censored ones observed at the same
    time. *)
Definition mask_marks_comparable (event_indicator : list bool)
  (event_time : list Q) (order : list nat) (j : nat) (mask : list bool)
  : Prop :=
  length mask = length event_time /\
  forall k, k < length event_time ->
    (nth k mask false = true <->
     (time_at event_time order j < time_at event_time order k)%Q \/
     ((time_at event_time order k == time_at event_time order j)%Q /\
      event_at event_indicator order k = false)).

(** Every uncensored sample has an entry, with the mask above. *)
Definition every_event_has_entry (event_indicator : list bool)
  (event_time : list Q) (order : list nat) : Prop :=
  forall j, j < length event_time ->
    event_at event_indicator order j = true ->
    exists mask,
      dict_get j (fst (_get_comparable event_indicator event_time order))
      = Some mask /\
      mask_marks_comparable event_indicator event_time order j mask.


(** Pairs of samples, counted over [0 .. n-1] x [0 .. n-1]. *)
Definition count_pairs (P : nat -> nat -> bool) (n : nat) : Z :=
  Z.of_nat (length (filter (fun ab => P (fst ab) (snd ab))
                           (list_prod (seq 0 n) (seq 0 n)))).

(** Sample [a] is uncensored and sample [b] was observed strictly later, or
    at the same time and is censored. *)
Definition comparable_pair (event_indicator : list bool) (event_time : list Q)
  (a b : nat) : bool :=
  np.item false event_indicator a
  && (Qltb (np.item 0%Q event_time a) (np.item 0%Q event_time b)
      || (Qeq_bool (np.item 0%Q event_time b) (np.item 0%Q event_time a)
          && negb (np.item false event_indicator b))).

(** Sample [a] is uncensored and sample [b] is censored at the same time. *)
Definition tied_time_pair (event_indicator : list bool) (event_time : list Q)
  (a b : nat) : bool :=
  np.item false event_indicator a
  && negb (np.item false event_indicator b)
  && Qeq_bool (np.item 0%Q event_time b) (np.item 0%Q event_time a).

(** Sample [a] is uncensored and sample [b] was observed strictly later. *)
Definition later_pair (event_indicator : list bool) (event_time : list Q)
  (a b : nat) : bool :=
  np.item false event_indicator a
  && Qltb (np.item 0%Q event_time a) (np.item 0%Q event_time b).

(** Pair conservation with the denominator read as the number of
    comparable pairs whose times differ. *)
Definition conservation_over_later_pairs (argsort : list Q -> list nat)
  (event_indicator : list bool) (event_time estimate : list Q) (tied_tol : Q)
  : Prop :=
  forall acc tied_time,
    _estimate_counters argsort event_indicator event_time estimate
                       (ones_like estimate) tied_tol = inr (acc, tied_time) ->
    (inject_Z (concordant acc + discordant acc + tied_risk acc)
     == denominator acc)%Q /\
    (denominator acc
     == inject_Z (count_pairs (later_pair event_indicator event_time)
                              (length event_time)))%Q.

(** [op]-fold of [f 0 .. f (n-1)] from the unit [e]. *)
Fixpoint big (op : Q -> Q -> Q) (e : Q) (f : nat -> Q) (n : nat) : Q :=
  match n with
  | O => e
  | S m => op (big op e f m) (f m)
  end.

(** The sum over the time bins of one minus the cumulative incidence, and
    the sum over the time bins of the cumulative survival product. *)
Definition incidence_risk (row : list Q) : Q :=
  big Qplus 0 (fun k => 1 - big Qplus 0 (fun j => nth j row 0) (S k))%Q
      (length row).

Definition survival_product_risk (row : list Q) : Q :=
  big Qplus 0 (fun k => big Qmult 1 (fun j => 1 - nth j row 0) (S k))%Q
      (length row).

Definition wants_incidence (kws : list (string * string)) : bool :=
  match kws_get "type_pred" kws with
  | Some v => String.eqb v "incidence"
  | None => false
  end.

(** What the core is called with, and what comes back, for per-sample
    scores [scores] and outcomes [y_true]. *)
Definition core_on_scores (argsort : list Q -> list nat) (y_true : ndarray)
  (scores : list Q) : result float64 :=
  t <- column y_true 0 ;;
  e <- column y_true 1 ;;
  r <- concordance_index_censored argsort (astype_bool e) t
         (map Qopp scores) tol_1e_08 ;;
  ret (first r).

(** An [n x 1] prediction array is passed on negated, whatever [kws]. *)
Definition column_scores_passed (argsort : list Q -> list nat)
  (y_true : ndarray) (rows : list (list Q)) (kws : list (string * string))
  : Prop :=
  concordance_index argsort y_true (Array2 1 rows) kws
  = core_on_scores argsort y_true (map (hd 0%Q) rows).

(** A flat array of [n] scores is accepted like an [n x 1] array. *)
Definition flat_scores_accepted (argsort : list Q -> list nat)
  (y_true : ndarray) (scores : list Q) (kws : list (string * string))
  : Prop :=
  concordance_index argsort y_true (Array1 scores) kws
  = core_on_scores argsort y_true scores.




(** ** The index as a count over all pairs of samples *)

Section Pairwise.

Variable event_indicator : list bool.
Variable event_time : list Q.
Variable estimate : list Q.
Variable tied_tol : Q.

(** The comparable pair [(a, b)] is tied in risk, concordant (the later
    sample [b] has the lower estimate), or discordant. *)
Definition tied_risk_pair (a b : nat) : bool :=
  comparable_pair event_indicator event_time a b
  && is_tie tied_tol (np.item 0%Q estimate a) (np.item 0%Q estimate b).

Definition concordant_pair (a b : nat) : bool :=
  comparable_pair event_indicator event_time a b
  && (negb (is_tie tied_tol (np.item 0%Q estimate a) (np.item 0%Q estimate b))
      && is_con (np.item 0%Q estimate a) (np.item 0%Q estimate b)).

Definition discordant_pair (a b : nat) : bool :=
  comparable_pair event_indicator event_time a b
  && (negb (is_tie tied_tol (np.item 0%Q estimate a) (np.item 0%Q estimate b))
      && negb (is_con (np.item 0%Q estimate a) (np.item 0%Q estimate b))).

(** Some uncensored sample is not observed strictly after all the others. *)
Definition has_comparable_event : bool :=
  existsb
    (fun a =>
       np.item false event_indicator a
       && existsb
            (fun b =>
               negb (Nat.eqb a b)
               && negb (Qltb (np.item 0%Q event_time b)
                             (np.item 0%Q event_time a)))
            (seq 0 (length event_time)))
    (seq 0 (length event_time)).

(** The result computed pair by pair, without sorting. *)
Definition pairwise_index : result (float64 * Z * Z * Z * Z) :=
  _ <- _check_inputs event_indicator event_time estimate ;;
  if has_comparable_event then
    let n := length event_time in
    let con := count_pairs concordant_pair n in
    let dis := count_pairs discordant_pair n in
    let tr := count_pairs tied_risk_pair n in
    ret (np_divide (inject_Z con + (1 # 2) * inject_Z tr)
                   (inject_Z (con + dis + tr)),
         con, dis, tr,
         count_pairs (tied_time_pair event_indicator event_time) n)
  else raise (NoComparablePairException msg_no_comparable).

End Pairwise.

(** [f] keeps the order of the rationals. *)
Definition order_preserving (f : Q -> Q) : Prop :=
  forall x y, (f x < f y)%Q <-> (x < y)%Q.

(** * Properties *)

(** ** Lists and rationals *)

Lemma Qltb_lt (a b : Q) : Qltb a b = true <-> (a < b)%Q.
Proof.
  unfold Qltb. rewrite negb_true_iff.
  split; intros H.
  - apply Qnot_le_lt. intros Hle. apply Qle_bool_iff in Hle. congruence.
  - destruct (Qle_bool b a) eqn:E; [|reflexivity].
    apply Qle_bool_iff in E. exfalso. apply (Qlt_not_le _ _ H E).
Qed.

Lemma Qltb_ge (a b : Q) : Qltb a b = false <-> (b <= a)%Q.
Proof.
  unfold Qltb. rewrite negb_false_iff. apply Qle_bool_iff.
Qed.

Lemma slice_seq {A : Type} (d : A) (a : list A) (lo hi : nat) :
  hi <= length a ->
  np.slice a lo hi = map (fun k => nth k a d) (seq lo (hi - lo)).
Proof.
  intros Hhi. unfold np.slice.
  apply nth_ext with (d := d) (d' := d).
  - rewrite length_firstn, length_skipn, length_map, length_seq. lia.
  - intros k Hk.
    rewrite length_firstn, length_skipn in Hk.
    rewrite nth_firstn.
    assert (Hk' : k < hi - lo) by lia.
    apply Nat.ltb_lt in Hk' as Hb. rewrite Hb.
    rewrite nth_skipn.
    rewrite (nth_indep (map (fun k => nth k a d) (seq lo (hi - lo))) d
                       (nth 0 a d))
      by (rewrite length_map, length_seq; lia).
    rewrite (map_nth (fun k => nth k a d)).
    rewrite seq_nth by lia. reflexivity.
Qed.

Lemma map_const_repeat {A B : Type} (f : A -> B) (b : B) (l : list A) :
  (forall x, In x l -> f x = b) -> map f l = repeat b (length l).
Proof.
  induction l as [|x l IH]; intros H; simpl; [reflexivity|].
  rewrite H by (left; reflexivity).
  rewrite IH; [reflexivity|]. intros y Hy. apply H. right. exact Hy.
Qed.

Lemma filter_none {A : Type} (f : A -> bool) (l : list A) :
  (forall x, In x l -> f x = false) -> filter f l = [].
Proof.
  induction l as [|x l IH]; intros H; simpl; [reflexivity|].
  rewrite H by (left; reflexivity).
  apply IH. intros y Hy. apply H. right. exact Hy.
Qed.

Lemma seq_split3 (lo hi n : nat) :
  lo <= hi -> hi <= n ->
  seq 0 n = seq 0 lo ++ seq lo (hi - lo) ++ seq hi (n - hi).
Proof.
  intros H1 H2.
  replace n with (lo + ((hi - lo) + (n - hi))) at 1 by lia.
  rewrite !seq_app. simpl.
  replace (lo + (hi - lo)) with hi by lia. reflexivity.
Qed.

Lemma firstn_repeat {A : Type} (a : A) (k n : nat) :
  k <= n -> firstn k (repeat a n) = repeat a k.
Proof.
  revert n. induction k as [|k IH]; intros n H; [reflexivity|].
  destruct n as [|n]; [lia|]. simpl. rewrite IH by lia. reflexivity.
Qed.

Lemma skipn_all_app {A : Type} (l1 l2 : list A) (k : nat) :
  k = length l1 -> skipn k (l1 ++ l2) = l2.
Proof.
  intros ->. rewrite skipn_app, skipn_all, Nat.sub_diag. reflexivity.
Qed.

Lemma length_filter_map {A : Type} (g : A -> bool) (l : list A) :
  length (filter (fun b => b) (map g l)) = length (filter g l).
Proof.
  induction l as [|x l IH]; simpl; [reflexivity|].
  destruct (g x); simpl; rewrite IH; reflexivity.
Qed.

Lemma dict_set_fresh {V : Type} (k : nat) (v : V) (d : dict V) :
  Forall (fun kv => fst kv < k) d -> dict_set k v d = d ++ [(k, v)].
Proof.
  induction 1 as [|[k' v'] d Hk _ IH]; simpl; [reflexivity|].
  simpl in Hk. destruct (Nat.eqb_spec k k'); [lia|].
  rewrite IH. reflexivity.
Qed.

(** ** The two loops of [_get_comparable] *)

Section GetComparableFacts.

Variable event_indicator : list bool.
Variable event_time : list Q.
Variable order : list nat.

Let n := length event_time.
Let T := time_at event_time order.
Let E := event_at event_indicator order.

Lemma scan_end_spec (fuel : nat) (t : Q) (e : nat) :
  e <= n -> n - e <= fuel ->
  let r := scan_end event_time order fuel n t e in
  e <= r <= n /\
  (forall k, e <= k < r -> Qeq_bool (T k) t = true) /\
  (r < n -> Qeq_bool (T r) t = false).
Proof.
  revert e. induction fuel as [|fuel IH]; intros e He Hfuel; simpl.
  - repeat split; try lia.
  - destruct (e <? n) eqn:Hlt; simpl.
    + apply Nat.ltb_lt in Hlt.
      destruct (Qeq_bool (time_at event_time order e) t) eqn:Heq.
      * destruct (IH (S e)) as (Hr & Hin & Hout); try lia.
        repeat split; try lia; [|exact Hout].
        intros k Hk. destruct (Nat.eq_dec k e) as [->|Hne].
        -- exact Heq.
        -- apply Hin. lia.
      * repeat split; try lia. intros _. exact Heq.
    + apply Nat.ltb_ge in Hlt. repeat split; try lia.
Qed.

Hypothesis Hlen : length order = n.
Hypothesis Hsorted : forall a b, a <= b -> b < n -> (T a <= T b)%Q.

(** What one pass of the inner loop finds, starting from a boundary. *)
Lemma group_extent (i : nat) :
  i + 1 < n -> group_boundary event_time order i ->
  let e := scan_end event_time order n n (T i) (i + 1) in
  i < e <= n /\
  (forall k, i <= k < e -> (T k == T i)%Q) /\
  (forall k, e <= k -> k < n -> (T i < T k)%Q) /\
  (forall k, k < i -> (T k < T i)%Q) /\
  group_boundary event_time order e.
Proof.
  clear Hlen. intros Hi Hb e.
  destruct (scan_end_spec n (T i) (i + 1)) as (Hr & Hin & Hout); try lia.
  fold e in Hr, Hin, Hout.
  assert (Hgrp : forall k, i <= k < e -> (T k == T i)%Q).
  { intros k Hk. destruct (Nat.eq_dec k i) as [->|Hne]; [reflexivity|].
    apply Qeq_bool_eq, Hin. lia. }
  assert (Hafter : forall k, e <= k -> k < n -> (T i < T k)%Q).
  { intros k Hk Hkn.
    assert (He : e < n) by lia.
    specialize (Hout He). apply Qeq_bool_neq in Hout.
    pose proof (Hsorted i e ltac:(lia) He) as H1.
    pose proof (Hsorted e k Hk Hkn) as H2.
    apply Qle_lt_trans with (y := T i); [apply Qle_refl|].
    apply Qlt_le_trans with (y := T e); [|exact H2].
    apply Qle_lteq in H1. destruct H1 as [H1|H1]; [exact H1|].
    exfalso. apply Hout. symmetry. exact H1. }
  repeat split; try lia; try assumption.
  - intros k Hk. apply Hb; lia.
  - intros a b Ha Hab Hbn. fold n in Hbn. change (T a < T b)%Q.
    destruct (Nat.lt_ge_cases a i) as [Hlt|Hge].
    + apply Hb; lia.
    + rewrite (Hgrp a) by lia. apply Hafter; lia.
Qed.

(** The mask stored for an event of the group [[i, e)] is [spec_mask]. *)
Lemma group_mask (i e j : nat) :
  i <= j < e -> e <= n ->
  (forall k, i <= k < e -> (T k == T i)%Q) ->
  (forall k, e <= k -> k < n -> (T i < T k)%Q) ->
  (forall k, k < i -> (T k < T i)%Q) ->
  np.set_slice (np.set_from (np.zeros n) e true) i e
    (np.invert (np.take false event_indicator (np.slice order i e)))
  = spec_mask event_indicator event_time order j.
Proof.
  intros Hj He Hgrp Hafter Hbefore.
  assert (HTj : (T j == T i)%Q) by (apply Hgrp; lia).
  unfold np.set_slice, np.set_from, np.zeros, np.invert, np.take, spec_mask.
  fold n. rewrite repeat_length.
  rewrite (firstn_repeat false e n He).
  rewrite firstn_app, (firstn_repeat false i e) by lia.
  rewrite repeat_length. replace (i - e) with 0 by lia.
  rewrite firstn_O, app_nil_r.
  rewrite skipn_all_app by (rewrite repeat_length; reflexivity).
  rewrite (slice_seq 0 order i e) by lia.
  rewrite !map_map.
  rewrite (seq_split3 i e n) by lia. rewrite !map_app.
  f_equal; [|f_equal].
  - symmetry. rewrite map_const_repeat with (b := false).
    + rewrite length_seq. reflexivity.
    + intros k Hk. apply in_seq in Hk.
      unfold comparable_to, tied_censored. fold T.
      assert (Hlt : (T k < T j)%Q) by (rewrite HTj; apply Hbefore; lia).
      replace (Qltb (T j) (T k)) with false
        by (symmetry; apply Qltb_ge, Qlt_le_weak, Hlt).
      replace (Qeq_bool (T k) (T j)) with false; [reflexivity|].
      symmetry. destruct (Qeq_bool (T k) (T j)) eqn:Heq; [|reflexivity].
      apply Qeq_bool_eq in Heq. rewrite Heq in Hlt.
      exfalso. apply (Qlt_irrefl _ Hlt).
  - apply map_ext_in. intros k Hk. apply in_seq in Hk.
    unfold comparable_to, tied_censored. fold T. fold E.
    assert (Heq : (T k == T j)%Q) by (rewrite HTj; apply Hgrp; lia).
    replace (Qltb (T j) (T k)) with false
      by (symmetry; apply Qltb_ge; rewrite Heq; apply Qle_refl).
    rewrite (Qeq_eq_bool _ _ Heq). reflexivity.
  - symmetry. rewrite map_const_repeat with (b := true).
    + rewrite length_seq. reflexivity.
    + intros k Hk. apply in_seq in Hk.
      unfold comparable_to. fold T.
      replace (Qltb (T j) (T k)) with true; [reflexivity|].
      symmetry. apply Qltb_lt. rewrite HTj. apply Hafter; lia.
Qed.

(** The increment of [tied_time] for an event of the group [[i, e)]. *)
Lemma group_tied (i e j : nat) :
  i <= j < e -> e <= n -> E j = true ->
  (forall k, i <= k < e -> (T k == T i)%Q) ->
  (forall k, e <= k -> k < n -> (T i < T k)%Q) ->
  (forall k, k < i -> (T k < T i)%Q) ->
  np.sum (np.invert (np.take false event_indicator (np.slice order i e)))
  = spec_tied_of event_indicator event_time order j.
Proof.
  intros Hj He HEj Hgrp Hafter Hbefore.
  assert (HTj : (T j == T i)%Q) by (apply Hgrp; lia).
  unfold np.sum, np.invert, np.take, spec_tied_of. fold E. rewrite HEj.
  f_equal. fold n.
  rewrite (slice_seq 0 order i e) by lia.
  rewrite !map_map, length_filter_map.
  rewrite (seq_split3 i e n) by lia. rewrite !filter_app, !length_app.
  rewrite (filter_none (tied_censored _ _ _ j) (seq 0 i)).
  2:{ intros k Hk. apply in_seq in Hk. unfold tied_censored. fold T.
      assert (Hlt : (T k < T j)%Q) by (rewrite HTj; apply Hbefore; lia).
      destruct (Qeq_bool (T k) (T j)) eqn:Heq; [|reflexivity].
      apply Qeq_bool_eq in Heq. rewrite Heq in Hlt.
      exfalso. apply (Qlt_irrefl _ Hlt). }
  rewrite (filter_none (tied_censored _ _ _ j) (seq e (n - e))).
  2:{ intros k Hk. apply in_seq in Hk. unfold tied_censored. fold T.
      assert (Hlt : (T j < T k)%Q) by (rewrite HTj; apply Hafter; lia).
      destruct (Qeq_bool (T k) (T j)) eqn:Heq; [|reflexivity].
      apply Qeq_bool_eq in Heq. rewrite Heq in Hlt.
      exfalso. apply (Qlt_irrefl _ Hlt). }
  simpl. rewrite Nat.add_0_r. f_equal.
  apply filter_ext_in. intros k Hk. apply in_seq in Hk.
  unfold tied_censored. fold T. fold E.
  assert (Heq : (T k == T j)%Q) by (rewrite HTj; apply Hgrp; lia).
  rewrite (Qeq_eq_bool _ _ Heq). reflexivity.
Qed.

Lemma spec_entries_keys (lo len : nat) :
  Forall (fun kv => fst kv < lo + len)
         (spec_entries event_indicator event_time order lo len).
Proof.
  unfold spec_entries. apply Forall_forall. intros [k v] Hin.
  apply in_flat_map in Hin. destruct Hin as (j & Hj & Hin).
  apply in_seq in Hj. unfold spec_entry in Hin.
  destruct (event_at event_indicator order j); [|contradiction].
  destruct Hin as [Heq|[]]. inversion Heq; subst. simpl. lia.
Qed.

(** One iteration of the inner [for], for a position of the group. *)
Lemma group_step_spec (i e a : nat) (st : dict (list bool) * Z) :
  e <= n ->
  (forall k, i <= k < e -> (T k == T i)%Q) ->
  (forall k, e <= k -> k < n -> (T i < T k)%Q) ->
  (forall k, k < i -> (T k < T i)%Q) ->
  i <= a < e ->
  Forall (fun kv => fst kv < a) (fst st) ->
  group_step event_indicator order n i e
    (np.invert (np.take false event_indicator (np.slice order i e))) st a
  = (fst st ++ spec_entry event_indicator event_time order a,
     (snd st + spec_tied_of event_indicator event_time order a)%Z).
Proof.
  intros He Hgrp Hafter Hbefore Ha Hkeys.
  unfold group_step, spec_entry, spec_tied_of. fold E.
  destruct (E a) eqn:HEa.
  - rewrite (group_mask i e a) by (try assumption; lia).
    rewrite (group_tied i e a) by (try assumption; lia).
    rewrite dict_set_fresh by exact Hkeys.
    unfold spec_tied_of. fold E. rewrite HEa. reflexivity.
  - rewrite app_nil_r, Z.add_0_r. destruct st; reflexivity.
Qed.

(** The inner [for] over a whole group, started from the state that the
    earlier groups leave behind. *)
Lemma group_fold (i e : nat) (len a : nat) (st : dict (list bool) * Z) :
  e <= n ->
  (forall k, i <= k < e -> (T k == T i)%Q) ->
  (forall k, e <= k -> k < n -> (T i < T k)%Q) ->
  (forall k, k < i -> (T k < T i)%Q) ->
  i <= a -> a + len <= e ->
  Forall (fun kv => fst kv < a) (fst st) ->
  fold_left
    (group_step event_indicator order n i e
       (np.invert (np.take false event_indicator (np.slice order i e))))
    (seq a len) st
  = (fst st ++ spec_entries event_indicator event_time order a len,
     (snd st + spec_tied event_indicator event_time order a len)%Z).
Proof.
  intros He Hgrp Hafter Hbefore. revert a st.
  induction len as [|len IH]; intros a st Ha Hlen' Hkeys.
  - simpl. rewrite app_nil_r, Z.add_0_r. destruct st; reflexivity.
  - cbn [seq fold_left].
    rewrite (group_step_spec i e a st) by (try assumption; lia).
    rewrite IH; try lia.
    + cbn [fst snd]. unfold spec_entries, spec_tied. cbn [seq flat_map map fold_right].
      rewrite <- app_assoc. f_equal. lia.
    + cbn [fst]. apply Forall_app. split.
      * eapply Forall_impl; [|exact Hkeys]. simpl. intros; lia.
      * unfold spec_entry. destruct (event_at event_indicator order a);
          [constructor; [simpl; lia | constructor] | constructor].
Qed.

Lemma spec_entries_app (lo len len' : nat) :
  spec_entries event_indicator event_time order lo (len + len')
  = spec_entries event_indicator event_time order lo len
    ++ spec_entries event_indicator event_time order (lo + len) len'.
Proof. unfold spec_entries. rewrite seq_app, flat_map_app. reflexivity. Qed.

Lemma spec_tied_app (lo len len' : nat) :
  spec_tied event_indicator event_time order lo (len + len')
  = (spec_tied event_indicator event_time order lo len
     + spec_tied event_indicator event_time order (lo + len) len')%Z.
Proof.
  unfold spec_tied. rewrite seq_app, map_app, fold_right_app.
  generalize (map (spec_tied_of event_indicator event_time order)
                  (seq (lo + len) len')).
  generalize (map (spec_tied_of event_indicator event_time order)
                  (seq lo len)).
  intros l1 l2. induction l1 as [|x l1 IH]; simpl; [reflexivity|].
  rewrite IH. lia.
Qed.

Lemma get_comparable_loop_spec (fuel i : nat) :
  i <= n -> n - i <= fuel ->
  group_boundary event_time order i ->
  (i = n -> 2 <= n -> (T (n - 2) == T (n - 1))%Q) ->
  exists i',
    get_comparable_loop event_indicator event_time order fuel n i
      (spec_entries event_indicator event_time order 0 i,
       spec_tied event_indicator event_time order 0 i)
    = Some (spec_entries event_indicator event_time order 0 i',
            spec_tied event_indicator event_time order 0 i')
    /\ stopped_at event_time order i'.
Proof.
  revert i. induction fuel as [|fuel IH]; intros i Hi Hfuel Hb HJ.
  - exists i. simpl.
    destruct (i + 1 <? n) eqn:Hlt; [apply Nat.ltb_lt in Hlt; lia|].
    apply Nat.ltb_ge in Hlt. split; [reflexivity|].
    repeat split; try lia; assumption.
  - simpl. destruct (i + 1 <? n) eqn:Hlt.
    + apply Nat.ltb_lt in Hlt.
      destruct (group_extent i Hlt Hb) as (He & Hgrp & Hafter & Hbefore & Hb').
      fold T. set (e := scan_end event_time order n n (T i) (i + 1)) in *.
      rewrite (group_fold i e (e - i) i); try assumption; try lia.
      2:{ simpl. apply (spec_entries_keys 0 i). }
      simpl fst. simpl snd. unfold np.range.
      replace (spec_entries event_indicator event_time order i (e - i))
        with (spec_entries event_indicator event_time order (0 + i) (e - i))
        by reflexivity.
      replace (spec_tied event_indicator event_time order i (e - i))
        with (spec_tied event_indicator event_time order (0 + i) (e - i))
        by reflexivity.
      rewrite <- spec_entries_app, <- spec_tied_app.
      replace (i + (e - i)) with e by lia.
      apply IH; try lia; try assumption.
      intros Hen Hn.
      rewrite (Hgrp (n - 2)) by lia. rewrite (Hgrp (n - 1)) by lia.
      reflexivity.
    + apply Nat.ltb_ge in Hlt. exists i. split; [reflexivity|].
      repeat split; try lia; assumption.
Qed.

Lemma get_comparable_spec :
  exists i',
    _get_comparable event_indicator event_time order
    = (spec_entries event_indicator event_time order 0 i',
       spec_tied event_indicator event_time order 0 i')
    /\ stopped_at event_time order i'.
Proof.
  unfold _get_comparable. fold n.
  destruct (get_comparable_loop_spec n 0) as (i' & Hrun & Hstop).
  - lia.
  - lia.
  - intros a b Ha. lia.
  - intros H0 H2. lia.
  - exists i'.
    change (@nil (nat * list bool), 0%Z)
      with (spec_entries event_indicator event_time order 0 0,
            spec_tied event_indicator event_time order 0 0).
    rewrite Hrun. split; [reflexivity|exact Hstop].
Qed.

Lemma stopped_before_alone (i' j : nat) :
  2 <= n -> stopped_at event_time order i' -> j < n ->
  (j < i' <-> ~ alone_at_end event_time order j).
Proof.
  clear Hlen Hsorted.
  intros Hn (Hi1 & Hi2 & Hb & HJ) Hj. fold n in Hi1, Hi2, HJ.
  unfold alone_at_end. fold n. fold T. split.
  - intros Hlt [Hlast Hne]. apply Hne.
    assert (i' = n) by lia. subst i'.
    replace j with (n - 1) by lia.
    replace (n - 1 - 1) with (n - 2) by lia. apply HJ; [reflexivity|lia].
  - intros Hnot. destruct (Nat.lt_ge_cases j i') as [Hlt|Hge]; [exact Hlt|].
    exfalso. apply Hnot. split; [lia|].
    intros Heq. assert (Hi' : i' = j) by lia. subst i'.
    pose proof (Hb (j - 1) j ltac:(lia) ltac:(lia) Hj) as Hlt.
    fold T in Hlt. rewrite Heq in Hlt. apply (Qlt_irrefl _ Hlt).
Qed.

End GetComparableFacts.

Section GetComparableTotal.

Variable event_indicator : list bool.
Variable event_time : list Q.
Variable order : list nat.

Let n := length event_time.

(** The outer loop ends within [n - i] iterations, whatever the input. *)
Lemma get_comparable_loop_total (fuel i : nat) (st : dict (list bool) * Z) :
  n - i <= fuel ->
  exists r,
    get_comparable_loop event_indicator event_time order fuel n i st = Some r.
Proof.
  revert i st. induction fuel as [|fuel IH]; intros i st Hfuel; simpl.
  - destruct (i + 1 <? n) eqn:Hlt; [apply Nat.ltb_lt in Hlt; lia|].
    exists st. reflexivity.
  - destruct (i + 1 <? n) eqn:Hlt; [|exists st; reflexivity].
    apply Nat.ltb_lt in Hlt. apply IH.
    destruct (scan_end_spec event_time order n
                (time_at event_time order i) (i + 1)) as (Hr & _);
      fold n; try lia.
    fold n in Hr. lia.
Qed.

Lemma dict_set_Forall {V : Type} (P : nat * V -> Prop) (k : nat) (v : V)
  (d : dict V) :
  Forall P d -> P (k, v) -> Forall P (dict_set k v d).
Proof.
  intros Hd Hkv. induction Hd as [|[k' v'] d Hx Hd IH]; simpl.
  - constructor; [exact Hkv|constructor].
  - destruct (Nat.eqb k k'); constructor; assumption.
Qed.

(** Every key is the sort position of an uncensored sample. *)
Lemma get_comparable_loop_keys (fuel i : nat) (st r : dict (list bool) * Z) :
  Forall (fun kv => event_at event_indicator order (fst kv) = true) (fst st) ->
  get_comparable_loop event_indicator event_time order fuel n i st = Some r ->
  Forall (fun kv => event_at event_indicator order (fst kv) = true) (fst r).
Proof.
  revert i st. induction fuel as [|fuel IH]; intros i st Hst; simpl.
  - destruct (i + 1 <? n); [discriminate|]. intros [= <-]. exact Hst.
  - destruct (i + 1 <? n); [|intros [= <-]; exact Hst].
    apply IH.
    generalize (np.range i
      (scan_end event_time order n n (time_at event_time order i) (i + 1))).
    intros l. revert st Hst. induction l as [|j l IHl]; intros st Hst; simpl.
    + exact Hst.
    + apply IHl. unfold group_step.
      destruct (event_at event_indicator order j) eqn:HE; [|exact Hst].
      simpl. apply dict_set_Forall; [exact Hst|exact HE].
Qed.

Lemma get_comparable_keys :
  Forall (fun kv => event_at event_indicator order (fst kv) = true)
         (fst (_get_comparable event_indicator event_time order)).
Proof.
  unfold _get_comparable. fold n.
  destruct (get_comparable_loop event_indicator event_time order n n 0
              ([], 0%Z)) as [r|] eqn:Hrun; [|constructor].
  apply (get_comparable_loop_keys n 0 ([], 0%Z) r); [constructor|exact Hrun].
Qed.

(** [_get_comparable] is the result of a run of the loop that ended. *)
Lemma get_comparable_runs :
  get_comparable_loop event_indicator event_time order n n 0 ([], 0%Z)
  = Some (_get_comparable event_indicator event_time order).
Proof.
  unfold _get_comparable. fold n.
  destruct (get_comparable_loop_total n 0 ([], 0%Z)) as [r Hr]; [lia|].
  rewrite Hr. reflexivity.
Qed.

End GetComparableTotal.

(** ** Consequences of [sorts] *)

Lemma sorts_length (event_time : list Q) (order : list nat) :
  sorts event_time order -> length order = length event_time.
Proof.
  intros [Hperm _]. apply Permutation_length in Hperm.
  rewrite length_seq in Hperm. exact Hperm.
Qed.

Lemma sorts_in_range (event_time : list Q) (order : list nat) (k : nat) :
  sorts event_time order -> k < length event_time ->
  np.item 0 order k < length event_time.
Proof.
  intros Hs Hk. pose proof (sorts_length _ _ Hs) as Hlen.
  destruct Hs as [Hperm _].
  assert (Hin : In (nth k order 0) order) by (apply nth_In; lia).
  apply (Permutation_in _ Hperm) in Hin. apply in_seq in Hin.
  unfold np.item. lia.
Qed.

Lemma sorts_NoDup (event_time : list Q) (order : list nat) :
  sorts event_time order -> NoDup order.
Proof.
  intros [Hperm _]. apply Permutation_sym in Hperm.
  apply (Permutation_NoDup Hperm). apply seq_NoDup.
Qed.

Lemma sorts_injective (event_time : list Q) (order : list nat) (j k : nat) :
  sorts event_time order ->
  j < length event_time -> k < length event_time ->
  np.item 0 order j = np.item 0 order k -> j = k.
Proof.
  intros Hs Hj Hk Heq. pose proof (sorts_length _ _ Hs) as Hlen.
  apply (proj1 (NoDup_nth order 0) (sorts_NoDup _ _ Hs)); try lia.
  exact Heq.
Qed.

(** ** One iteration of the accumulation loop *)

Lemma compress_map_seq {A : Type} (d : A) (f : nat -> bool) (a : list A)
  (lo : nat) :
  np.compress (map f (seq lo (length a))) a
  = map (fun k => nth (k - lo) a d) (filter f (seq lo (length a))).
Proof.
  revert lo. induction a as [|x a IH]; intros lo; [reflexivity|].
  simpl. rewrite IH.
  assert (Hext : map (fun k => nth (k - S lo) a d) (filter f (seq (S lo) (length a)))
                 = map (fun k => nth (k - lo) (x :: a) d)
                       (filter f (seq (S lo) (length a)))).
  { apply map_ext_in. intros k Hk. apply filter_In in Hk. destruct Hk as [Hk _].
    apply in_seq in Hk. replace (k - lo) with (S (k - S lo)) by lia.
    reflexivity. }
  destruct (f lo); simpl; rewrite Hext; [|reflexivity].
  rewrite Nat.sub_diag. reflexivity.
Qed.

Lemma compress_invert_map {A : Type} (t c : A -> bool) (l : list A) :
  np.compress (np.invert (map t l)) (map c l)
  = map c (filter (fun x => negb (t x)) l).
Proof.
  induction l as [|x l IH]; [reflexivity|].
  simpl. rewrite IH. destruct (t x); reflexivity.
Qed.

Lemma np_sum_map {A : Type} (f : A -> bool) (l : list A) :
  np.sum (map f l) = Z.of_nat (length (filter f l)).
Proof. unfold np.sum. rewrite length_filter_map. reflexivity. Qed.

(** Ties and non-tied concordant entries are disjoint parts of [est]. *)
Lemma ties_con_bound {A : Type} (t c : A -> bool) (l : list A) :
  length (filter c (filter (fun x => negb (t x)) l)) + length (filter t l)
  <= length l.
Proof.
  induction l as [|x l IH]; simpl; [lia|].
  destruct (t x); simpl; [lia|]. destruct (c x); simpl; lia.
Qed.

Section AccumulateFacts.

Variable event_indicator : list bool.
Variable event_time : list Q.
Variable estimate : list Q.
Variable weights : list Q.
Variable tied_tol : Q.
Variable order : list nat.

Hypothesis Hlen : length order = length event_time.

Lemma compress_spec_mask (j : nat) :
  np.take 0%Q estimate
    (np.compress (spec_mask event_indicator event_time order j) order)
  = comparable_estimates event_indicator event_time estimate order j.
Proof.
  unfold spec_mask, comparable_estimates, comparable_positions, np.take.
  rewrite <- Hlen. rewrite (compress_map_seq 0). rewrite map_map.
  apply map_ext. intros k. rewrite Nat.sub_0_r. reflexivity.
Qed.

Lemma accumulate_step_spec (acc : counters) (j : nat) :
  event_at event_indicator order j = true ->
  accumulate_step event_indicator estimate weights tied_tol order acc
    (j, spec_mask event_indicator event_time order j)
  = ret (spec_step event_indicator event_time estimate weights tied_tol
           order acc j).
Proof.
  intros HE. unfold spec_step. rewrite HE. unfold accumulate_step.
  unfold event_at in HE. rewrite HE. simpl negb. cbv iota.
  rewrite compress_spec_mask.
  rewrite compress_invert_map, !np_sum_map.
  unfold ret. f_equal.
  unfold con_of, ties_of, size_of, weight_at, est_at.
  unfold comparable_estimates at 4. rewrite length_map.
  unfold spec_mask. rewrite np_sum_map. reflexivity.
Qed.

Lemma accumulate_spec_entries (lo len : nat) (acc : counters) :
  accumulate event_indicator estimate weights tied_tol order
    (spec_entries event_indicator event_time order lo len) acc
  = ret (fold_left
           (spec_step event_indicator event_time estimate weights tied_tol
                      order)
           (seq lo len) acc).
Proof.
  revert lo acc. induction len as [|len IH]; intros lo acc; [reflexivity|].
  cbn [seq fold_left]. rewrite <- IH.
  unfold spec_entries. cbn [seq flat_map].
  unfold spec_entry at 1.
  destruct (event_at event_indicator order lo) eqn:HE.
  - cbn [app accumulate]. rewrite accumulate_step_spec by exact HE.
    reflexivity.
  - cbn [app]. unfold spec_step. rewrite HE. reflexivity.
Qed.

End AccumulateFacts.

(** ** Counting pairs of samples *)

Lemma map_nth_seq_all {A : Type} (d : A) (l : list A) :
  map (fun k => nth k l d) (seq 0 (length l)) = l.
Proof.
  pose proof (slice_seq d l 0 (length l) (le_n _)) as H.
  rewrite Nat.sub_0_r in H. rewrite <- H.
  unfold np.slice. simpl. rewrite Nat.sub_0_r. apply firstn_all.
Qed.

Lemma Permutation_filter_length {A : Type} (f : A -> bool) (l l' : list A) :
  Permutation l l' -> length (filter f l) = length (filter f l').
Proof.
  induction 1 as [|x l l' _ IH|x y l|l l' l'' _ IH1 _ IH2]; simpl.
  - reflexivity.
  - destruct (f x); simpl; rewrite IH; reflexivity.
  - destruct (f x), (f y); reflexivity.
  - rewrite IH1. exact IH2.
Qed.

Lemma list_prod_count (P : nat -> nat -> bool) (l1 l2 : list nat) :
  length (filter (fun ab => P (fst ab) (snd ab)) (list_prod l1 l2))
  = list_sum (map (fun a => length (filter (P a) l2)) l1).
Proof.
  induction l1 as [|a l1 IH]; simpl; [reflexivity|].
  rewrite filter_app, length_app, IH. f_equal.
  rewrite filter_map_swap, length_map. reflexivity.
Qed.

Lemma Zsum_of_nat (g : nat -> nat) (l : list nat) :
  fold_right Z.add 0%Z (map (fun j => Z.of_nat (g j)) l)
  = Z.of_nat (list_sum (map g l)).
Proof.
  induction l as [|x l IH]; simpl; [reflexivity|]. rewrite IH. lia.
Qed.

(** A double count over sort positions is a double count over samples. *)
Lemma positions_to_pairs (P : nat -> nat -> bool) (event_time : list Q)
  (order : list nat) :
  sorts event_time order ->
  fold_right Z.add 0%Z
    (map (fun j =>
            Z.of_nat
              (length (filter (fun k => P (np.item 0 order j) (np.item 0 order k))
                              (seq 0 (length event_time)))))
         (seq 0 (length event_time)))
  = count_pairs P (length event_time).
Proof.
  intros Hs. pose proof (sorts_length _ _ Hs) as Hlen.
  destruct Hs as [Hperm _].
  rewrite Zsum_of_nat. unfold count_pairs. f_equal.
  rewrite list_prod_count.
  assert (Hinner : forall a,
    length (filter (fun k => P a (np.item 0 order k))
                   (seq 0 (length event_time)))
    = length (filter (P a) (seq 0 (length event_time)))).
  { intros a.
    rewrite <- (Permutation_filter_length (P a) _ _ Hperm).
    replace (filter (P a) order)
      with (filter (P a) (map (fun k => nth k order 0) (seq 0 (length order))))
      by (rewrite map_nth_seq_all; reflexivity).
    rewrite filter_map_swap, length_map, Hlen. reflexivity. }
  rewrite (map_ext _ (fun j => length (filter (P (np.item 0 order j))
                                         (seq 0 (length event_time)))))
    by (intros j; apply Hinner).
  rewrite <- (map_map (np.item 0 order)
                (fun a => length (filter (P a) (seq 0 (length event_time))))).
  unfold np.item at 1. rewrite <- Hlen at 1. rewrite map_nth_seq_all.
  apply Permutation_list_sum. apply Permutation_map. exact Hperm.
Qed.

(** ** The run of [_estimate_counters] on sorted input *)

Section RunFacts.

Variable argsort : list Q -> list nat.
Hypothesis argsort_sorts : forall event_time, sorts event_time (argsort event_time).

Variable event_indicator : list bool.
Variable event_time : list Q.

Let order := argsort event_time.
Let n := length event_time.

Lemma get_comparable_sorted :
  exists i',
    _get_comparable event_indicator event_time order
    = (spec_entries event_indicator event_time order 0 i',
       spec_tied event_indicator event_time order 0 i')
    /\ stopped_at event_time order i'.
Proof.
  pose proof (argsort_sorts event_time) as Hs. fold order in Hs.
  apply get_comparable_spec.
  - apply (sorts_length _ _ Hs).
  - destruct Hs as [_ Hsorted]. exact Hsorted.
Qed.

Lemma estimate_counters_spec (estimate weights : list Q) (tied_tol : Q) :
  exists i',
    stopped_at event_time order i' /\
    _get_comparable event_indicator event_time order
    = (spec_entries event_indicator event_time order 0 i',
       spec_tied event_indicator event_time order 0 i') /\
    _estimate_counters argsort event_indicator event_time estimate weights
                       tied_tol
    = if length (spec_entries event_indicator event_time order 0 i') =? 0
      then raise (NoComparablePairException msg_no_comparable)
      else ret (fold_left
                  (spec_step event_indicator event_time estimate weights
                             tied_tol order)
                  (seq 0 i') counters0,
                spec_tied event_indicator event_time order 0 i').
Proof.
  destruct get_comparable_sorted as (i' & Hget & Hstop).
  exists i'. split; [exact Hstop|]. split; [exact Hget|].
  unfold _estimate_counters. fold order. rewrite Hget.
  destruct (length (spec_entries event_indicator event_time order 0 i') =? 0);
    [reflexivity|].
  rewrite accumulate_spec_entries.
  - reflexivity.
  - apply sorts_length, argsort_sorts.
Qed.

(** When the loop stops one position short, the sample left out has
    nothing to be compared with. *)
Lemma left_out_position (i' j : nat) :
  stopped_at event_time order i' -> i' <= j -> j < n ->
  event_at event_indicator order j = true ->
  forall k, k < n -> comparable_to event_indicator event_time order j k = false.
Proof.
  intros (Hi1 & Hi2 & Hb & _) Hij Hj HE k Hk. fold n in Hi1, Hi2.
  assert (Hj' : j = i') by lia. subst j.
  unfold comparable_to, tied_censored.
  destruct (Nat.eq_dec k i') as [->|Hne].
  - rewrite HE. simpl. rewrite andb_false_r, orb_false_r.
    apply Qltb_ge, Qle_refl.
  - pose proof (Hb k i' ltac:(lia) ltac:(lia) Hj) as Hlt.
    replace (Qltb (time_at event_time order i') (time_at event_time order k))
      with false by (symmetry; apply Qltb_ge, Qlt_le_weak, Hlt).
    destruct (Qeq_bool (time_at event_time order k)
                       (time_at event_time order i')) eqn:Heq; [|reflexivity].
    apply Qeq_bool_eq in Heq. rewrite Heq in Hlt.
    exfalso. apply (Qlt_irrefl _ Hlt).
Qed.

Lemma tied_censored_comparable (j k : nat) :
  tied_censored event_indicator event_time order j k = true ->
  comparable_to event_indicator event_time order j k = true.
Proof. unfold comparable_to. intros ->. apply orb_true_r. Qed.

(** Sums over the positions reached by the loop extend to all positions. *)
Lemma sum_to_end (g : nat -> Z) (i' : nat) :
  stopped_at event_time order i' ->
  (forall j, i' <= j -> j < n -> g j = 0%Z) ->
  fold_right Z.add 0%Z (map g (seq 0 i'))
  = fold_right Z.add 0%Z (map g (seq 0 n)).
Proof.
  intros (Hi1 & Hi2 & _) Hzero. fold n in Hi1, Hi2.
  destruct (Nat.eq_dec i' n) as [->|Hne]; [reflexivity|].
  replace n with (i' + 1) by lia.
  rewrite seq_app, map_app, fold_right_app. simpl.
  rewrite (Hzero i') by lia. reflexivity.
Qed.

Lemma spec_tied_pairs (i' : nat) :
  stopped_at event_time order i' ->
  spec_tied event_indicator event_time order 0 i'
  = count_pairs (tied_time_pair event_indicator event_time) n.
Proof.
  intros Hstop. unfold spec_tied.
  rewrite (sum_to_end _ i' Hstop).
  - unfold n. rewrite <- (positions_to_pairs _ _ order (argsort_sorts _)).
    f_equal. apply map_ext. intros j.
    unfold spec_tied_of.
    destruct (event_at event_indicator order j) eqn:HE.
    + f_equal. f_equal. apply filter_ext. intros k.
      unfold tied_censored, tied_time_pair.
      unfold event_at in HE. rewrite HE. simpl.
      apply andb_comm.
    + rewrite filter_none; [reflexivity|].
      intros k _. unfold tied_time_pair.
      unfold event_at in HE. rewrite HE. reflexivity.
  - intros j Hij Hj. unfold spec_tied_of.
    destruct (event_at event_indicator order j) eqn:HE; [|reflexivity].
    rewrite filter_none; [reflexivity|].
    intros k Hk. apply in_seq in Hk.
    destruct (tied_censored event_indicator event_time order j k) eqn:Ht;
      [|reflexivity].
    apply tied_censored_comparable in Ht.
    rewrite (left_out_position i' j Hstop Hij Hj HE k) in Ht by (fold n; lia).
    discriminate.
Qed.

Lemma size_pairs (i' : nat) :
  stopped_at event_time order i' ->
  fold_right Z.add 0%Z
    (map (fun j => if event_at event_indicator order j
                   then size_of event_indicator event_time order j
                   else 0%Z)
         (seq 0 i'))
  = count_pairs (comparable_pair event_indicator event_time) n.
Proof.
  intros Hstop.
  rewrite (sum_to_end _ i' Hstop).
  - unfold n. rewrite <- (positions_to_pairs _ _ order (argsort_sorts _)).
    f_equal. apply map_ext. intros j. unfold size_of, comparable_positions.
    destruct (event_at event_indicator order j) eqn:HE.
    + f_equal. f_equal. apply filter_ext. intros k.
      unfold comparable_to, tied_censored, comparable_pair.
      unfold event_at in HE. rewrite HE. reflexivity.
    + rewrite filter_none; [reflexivity|].
      intros k _. unfold comparable_pair.
      unfold event_at in HE. rewrite HE. reflexivity.
  - intros j Hij Hj.
    destruct (event_at event_indicator order j) eqn:HE; [|reflexivity].
    unfold size_of, comparable_positions.
    rewrite filter_none; [reflexivity|].
    intros k Hk. apply in_seq in Hk.
    apply (left_out_position i' j Hstop Hij Hj HE). fold n. lia.
Qed.

End RunFacts.

(** ** The counters after the loop *)

Section FoldFacts.

Variable event_indicator : list bool.
Variable event_time : list Q.
Variable estimate : list Q.
Variable weights : list Q.
Variable tied_tol : Q.
Variable order : list nat.

Let step := spec_step event_indicator event_time estimate weights tied_tol order.
Let E := event_at event_indicator order.
Let size := size_of event_indicator event_time order.
Let con := con_of event_indicator event_time estimate tied_tol order.
Let ties := ties_of event_indicator event_time estimate tied_tol order.

Lemma step_bounds (j : nat) :
  (0 <= con j)%Z /\ (0 <= ties j)%Z /\ (con j + ties j <= size j)%Z.
Proof.
  unfold con, ties, size, con_of, ties_of, size_of.
  pose proof (ties_con_bound
                (is_tie tied_tol (est_at estimate order j))
                (is_con (est_at estimate order j))
                (comparable_estimates event_indicator event_time estimate
                                      order j)) as H.
  unfold comparable_estimates in H at 3. rewrite length_map in H.
  lia.
Qed.

Lemma fold_classified (l : list nat) (acc : counters) :
  classified (fold_left step l acc)
  = (classified acc
     + fold_right Z.add 0%Z
         (map (fun j => if E j then size j else 0%Z) l))%Z.
Proof.
  revert acc. induction l as [|j l IH]; intros acc; simpl; [lia|].
  rewrite IH. unfold step, spec_step. fold E.
  destruct (E j); [|lia].
  unfold classified. simpl. fold con ties size. lia.
Qed.

Lemma fold_balanced (l : list nat) (acc : counters) :
  (forall j, In j l -> E j = true ->
             weight_at weights order j = 1%Q) ->
  balanced acc -> balanced (fold_left step l acc).
Proof.
  revert acc. induction l as [|j l IH]; intros acc Hw Hacc; simpl;
    [exact Hacc|].
  apply IH; [intros k Hk; apply Hw; right; exact Hk|].
  unfold step, spec_step. fold E.
  destruct (E j) eqn:HE; [|exact Hacc].
  rewrite (Hw j (or_introl eq_refl) HE).
  fold con ties size.
  destruct (step_bounds j) as (Hc & Ht & Hs).
  destruct Hacc as (Hden & Hnum & H1 & H2 & H3).
  unfold balanced. simpl.
  repeat split; try lia.
  - rewrite Hden. unfold Z.sub.
    rewrite !inject_Z_plus, !inject_Z_opp. lra.
  - rewrite Hnum. rewrite !inject_Z_plus. lra.
Qed.

Lemma balanced_range (acc : counters) :
  balanced acc -> (0 <= numerator acc <= denominator acc)%Q.
Proof.
  intros (Hden & Hnum & H1 & H2 & H3).
  rewrite Zle_Qle in H1, H2, H3.
  rewrite Hden, Hnum, !inject_Z_plus.
  change (inject_Z 0) with 0%Q in *. lra.
Qed.

Lemma balanced_zero (acc : counters) :
  balanced acc -> (denominator acc == 0)%Q -> classified acc = 0%Z.
Proof.
  intros (Hden & _) H0. rewrite Hden in H0.
  exact (proj1 (inject_Z_injective _ 0%Z) H0).
Qed.

End FoldFacts.

(** ** Rounding to binary64 *)

Lemma round_half_even_spec (n d : Z) :
  (0 < d)%Z -> (0 <= n)%Z ->
  (0 <= round_half_even n d)%Z /\
  (- d <= 2 * (round_half_even n d * d - n) <= d)%Z.
Proof.
  intros Hd Hn. unfold round_half_even.
  pose proof (Z.div_mod n d ltac:(lia)) as Hdm.
  pose proof (Z.mod_pos_bound n d Hd) as Hr.
  assert (Hq : (0 <= n / d)%Z) by (apply Z.div_pos; lia).
  destruct (Z.compare_spec (2 * (n mod d)) d) as [He|Hl|Hg].
  - destruct (Z.even (n / d)); split; nia.
  - split; nia.
  - split; nia.
Qed.

Lemma binary64_proper (x y : Q) : (x == y)%Q -> binary64 x = binary64 y.
Proof.
  intros H. unfold binary64. rewrite (Qred_complete _ _ H). reflexivity.
Qed.

Lemma binary_exponent_below_one (n d : Z) :
  (0 < n < d)%Z -> (binary_exponent n d <= -1)%Z.
Proof.
  intros [Hn Hd]. unfold binary_exponent.
  assert (Hlog : (Z.log2 n <= Z.log2 d)%Z) by (apply Z.log2_le_mono; lia).
  destruct (Z.eq_dec (Z.log2 n - Z.log2 d) 0) as [H0|H0].
  - rewrite H0. unfold scale2. simpl.
    destruct (Z.leb_spec (d * 1) n); lia.
  - destruct (scale2 n d (Z.log2 n - Z.log2 d)) as [n' d'].
    destruct (d' <=? n')%Z; lia.
Qed.

(** [binary_exponent] is the exponent of the leading bit: scaled by it,
    the fraction lies between 1 and 2. *)
Lemma binary_exponent_spec (n d : Z) :
  (0 < n)%Z -> (0 < d)%Z ->
  (snd (scale2 n d (binary_exponent n d))
   <= fst (scale2 n d (binary_exponent n d))
   < 2 * snd (scale2 n d (binary_exponent n d)))%Z.
Proof.
  intros Hn Hd.
  destruct (Z.log2_spec n Hn) as [Ha1 Ha2].
  destruct (Z.log2_spec d Hd) as [Hb1 Hb2].
  pose proof (Z.log2_nonneg n) as Ha0. pose proof (Z.log2_nonneg d) as Hb0.
  rewrite Z.pow_succ_r in Ha2, Hb2 by assumption.
  unfold binary_exponent.
  set (a := Z.log2 n) in *. set (b := Z.log2 d) in *.
  destruct (scale2 n d (a - b)) as [n1 d1] eqn:Hsc. unfold scale2 in Hsc.
  destruct (Z.leb_spec 0 (a - b)) as [He0|He0]; inversion Hsc; subst n1 d1;
    clear Hsc.
  - assert (Hab : (2 ^ a = 2 ^ b * 2 ^ (a - b))%Z)
      by (rewrite <- Z.pow_add_r by lia; f_equal; lia).
    assert (Hp : (0 < 2 ^ (a - b))%Z) by (apply Z.pow_pos_nonneg; lia).
    destruct (Z.leb_spec (d * 2 ^ (a - b)) n) as [Ht|Ht]; unfold scale2.
    + destruct (Z.leb_spec 0 (a - b)); [|lia]. cbn [fst snd].
      assert (Hm : (2 ^ b * 2 ^ (a - b) <= d * 2 ^ (a - b))%Z)
        by (apply Z.mul_le_mono_nonneg_r; lia).
      lia.
    + destruct (Z.leb_spec 0 (a - b - 1)) as [He1|He1]; cbn [fst snd].
      * assert (Hs : (2 ^ (a - b) = 2 * 2 ^ (a - b - 1))%Z).
        { rewrite <- Z.pow_succ_r by lia. f_equal. lia. }
        assert (Hp' : (0 < 2 ^ (a - b - 1))%Z)
          by (apply Z.pow_pos_nonneg; lia).
        assert (Hm : (d * 2 ^ (a - b - 1)
                      < 2 * 2 ^ b * 2 ^ (a - b - 1))%Z)
          by (apply Z.mul_lt_mono_pos_r; lia).
        lia.
      * assert (Heq : (a - b = 0)%Z) by lia.
        rewrite Heq in *. replace (- (0 - 1))%Z with 1%Z by lia.
        change (2 ^ 1)%Z with 2%Z. change (2 ^ 0)%Z with 1%Z in *.
        lia.
  - assert (Hab : (2 ^ b = 2 ^ a * 2 ^ (- (a - b)))%Z)
      by (rewrite <- Z.pow_add_r by lia; f_equal; lia).
    assert (Hp : (0 < 2 ^ (- (a - b)))%Z) by (apply Z.pow_pos_nonneg; lia).
    destruct (Z.leb_spec d (n * 2 ^ (- (a - b)))) as [Ht|Ht]; unfold scale2.
    + destruct (Z.leb_spec 0 (a - b)); [lia|]. cbn [fst snd].
      assert (Hm : (n * 2 ^ (- (a - b))
                    < 2 * 2 ^ a * 2 ^ (- (a - b)))%Z)
        by (apply Z.mul_lt_mono_pos_r; lia).
      lia.
    + destruct (Z.leb_spec 0 (a - b - 1)); [lia|]. cbn [fst snd].
      assert (Hs : (2 ^ (- (a - b - 1)) = 2 * 2 ^ (- (a - b)))%Z).
      { rewrite <- Z.pow_succ_r by lia. f_equal. lia. }
      assert (Hm : (2 ^ a * 2 ^ (- (a - b)) <= n * 2 ^ (- (a - b)))%Z)
        by (apply Z.mul_le_mono_nonneg_r; lia).
      lia.
Qed.

(** The rounding on some familiar values: thirds, a half, a negative
    tenth, the largest number and the overflow just above it, and two
    ties among the subnormal numbers, both resolved to the even
    neighbour. *)
Lemma binary64_values :
  binary64 (1 # 3) = Finite (6004799503160661 # 18014398509481984) /\
  binary64 (2 # 3) = Finite (6004799503160661 # 9007199254740992) /\
  binary64 (1 # 2) = Finite (1 # 2) /\
  binary64 (- (1 # 10))
  = Finite (- (3602879701896397 # 36028797018963968)) /\
  binary64 (inject_Z ((2 ^ 53 - 1) * 2 ^ 971 + 2 ^ 970 - 1))
  = Finite (inject_Z ((2 ^ 53 - 1) * 2 ^ 971)) /\
  binary64 (inject_Z ((2 ^ 53 - 1) * 2 ^ 971 + 2 ^ 970)) = PosInf /\
  binary64 (3 # 2 ^ 1075) = Finite (1 # 2 ^ 1073) /\
  binary64 (1 # 2 ^ 1075) = Finite 0.
Proof. repeat split; vm_compute; reflexivity. Qed.

Lemma dyadic_fraction (m k : Z) :
  (0 < k)%Z -> (dyadic m (- k) == m # Z.to_pos (2 ^ k))%Q.
Proof.
  intros Hk. unfold dyadic.
  destruct (Z.leb_spec 0 (- k)); [lia|].
  rewrite Z.opp_involutive. apply Qred_correct.
Qed.

(** On the unit interval rounding stays in the interval and moves a value
    by at most half a unit in the last place of 1/2. *)
Lemma binary64_unit (x : Q) :
  (0 <= x <= 1)%Q ->
  exists r, binary64 x = Finite r /\ (0 <= r <= 1)%Q /\
            (Qabs (r - x) <= 1 # 2 ^ 54)%Q.
Proof.
  intros [H0 H1].
  destruct (Qeq_dec x 1) as [Hone|Hne].
  { exists 1%Q. rewrite (binary64_proper _ _ Hone).
    split; [vm_compute; reflexivity|]. split; [lra|].
    rewrite Hone. vm_compute. discriminate. }
  assert (Hlt : (x < 1)%Q).
  { destruct (Qle_lt_or_eq _ _ H1) as [H|H]; [exact H|contradiction]. }
  pose proof (Qred_correct x) as Hred.
  unfold binary64. destruct (Qred x) as [a b]. cbn [Qnum Qden].
  destruct a as [|n|n].
  - exists 0%Q. split; [reflexivity|]. split; [lra|].
    assert (Hx : (x == 0)%Q) by (rewrite <- Hred; reflexivity).
    rewrite Hx. vm_compute. discriminate.
  - assert (Hnb : (Zpos n < Zpos b)%Z).
    { rewrite <- Hred in Hlt. unfold Qlt in Hlt. simpl in Hlt. lia. }
    pose proof (binary_exponent_below_one (Zpos n) (Zpos b) ltac:(lia)) as He.
    unfold round_positive.
    set (u := (Z.max (binary_exponent (Zpos n) (Zpos b)) (-1022) - 52)%Z).
    assert (Hu : (-1074 <= u <= -53)%Z) by (unfold u; lia).
    set (k := (- u)%Z).
    assert (Hk : (53 <= k)%Z) by (unfold k; lia).
    replace u with (- k)%Z by (unfold k; lia).
    unfold scale2. destruct (Z.leb_spec 0 (- k)); [lia|].
    rewrite Z.opp_involutive.
    set (m := round_half_even (Zpos n * 2 ^ k) (Zpos b)).
    assert (Hpow : (2 ^ 53 <= 2 ^ k)%Z)
      by (apply Z.pow_le_mono_r; lia).
    assert (Hpos : (0 < 2 ^ k)%Z) by lia.
    destruct (round_half_even_spec (Zpos n * 2 ^ k) (Zpos b)
                ltac:(lia) ltac:(nia)) as [Hm0 Hm].
    fold m in Hm0, Hm.
    assert (Hv : (dyadic m (- k) == m # Z.to_pos (2 ^ k))%Q)
      by (apply dyadic_fraction; lia).
    assert (Hmk : (m <= 2 ^ k)%Z) by nia.
    assert (Hv1 : (0 <= dyadic m (- k) <= 1)%Q).
    { rewrite Hv. unfold Qle. simpl. rewrite Z2Pos.id by exact Hpos. lia. }
    assert (Hbig : Qle_bool (inject_Z (2 ^ 1024)) (dyadic m (- k)) = false).
    { destruct (Qle_bool (inject_Z (2 ^ 1024)) (dyadic m (- k))) eqn:E;
        [|reflexivity].
      apply Qle_bool_iff in E. exfalso.
      assert (Hc : (1 < inject_Z (2 ^ 1024))%Q) by (vm_compute; reflexivity).
      lra. }
    rewrite Hbig.
    exists (dyadic m (- k)). split; [reflexivity|]. split; [exact Hv1|].
    rewrite Hv, <- Hred. apply Qabs_Qle_condition.
    set (P := Z.to_pos (2 ^ k)).
    assert (HP : Zpos P = (2 ^ k)%Z) by (apply Z2Pos.id; exact Hpos).
    change (2 ^ 54)%positive with (2 * 2 ^ 53)%positive.
    unfold Qle, Qminus, Qplus, Qopp. cbn [Qnum Qden].
    rewrite !Pos2Z.inj_mul, HP, Pos2Z.inj_pow.
    change (Z.pos 2) with 2%Z. change (Z.pos 53) with 53%Z.
    clearbody m. clear Hv Hv1 Hbig HP. clearbody P.
    assert (HC : (0 < 2 ^ 53)%Z) by reflexivity.
    revert HC Hpow Hpos Hm Hmk.
    generalize (2 ^ k)%Z (2 ^ 53)%Z. intros K C HC Hpow Hpos Hm Hmk.
    set (D := (m * Z.pos b + - Z.pos n * K)%Z).
    assert (HD : (- Z.pos b <= 2 * D <= Z.pos b)%Z) by (unfold D; lia).
    assert (Hup : (2 * D * C <= Z.pos b * C)%Z)
      by (apply Z.mul_le_mono_nonneg_r; lia).
    assert (Hlo : (- Z.pos b * C <= 2 * D * C)%Z)
      by (apply Z.mul_le_mono_nonneg_r; lia).
    assert (HbK : (Z.pos b * C <= Z.pos b * K)%Z)
      by (apply Z.mul_le_mono_nonneg_l; lia).
    split; lia.
  - exfalso. rewrite <- Hred in H0. unfold Qle in H0. simpl in H0. lia.
Qed.

Lemma np_divide_range (num den : Q) :
  (0 <= num <= den)%Q ->
  (den == 0 /\ np_divide num den = NaN)%Q \/
  (0 < den /\ in_unit_interval (np_divide num den) = true)%Q.
Proof.
  intros [Hnum Hden]. unfold np_divide.
  destruct (Qeq_bool den 0) eqn:Hd.
  - left. apply Qeq_bool_eq in Hd. split; [exact Hd|].
    assert (Hn : (num == 0)%Q) by lra.
    rewrite (Qeq_eq_bool _ _ Hn). reflexivity.
  - right. apply Qeq_bool_neq in Hd.
    assert (Hpos : (0 < den)%Q) by lra.
    split; [exact Hpos|].
    assert (Hunit : (0 <= num / den <= 1)%Q).
    { split.
      - apply Qle_shift_div_l; [exact Hpos|]. lra.
      - apply Qle_shift_div_r; [exact Hpos|]. lra. }
    destruct (binary64_unit _ Hunit) as (r & -> & [Hr0 Hr1] & _).
    unfold in_unit_interval. apply andb_true_intro.
    split; apply Qle_bool_iff; assumption.
Qed.

Lemma np_divide_proper (a a' b b' : Q) :
  (a == a')%Q -> (b == b')%Q -> np_divide a b = np_divide a' b'.
Proof.
  intros Ha Hb. unfold np_divide, Qltb.
  rewrite (Qeqb_comp b b' Hb 0%Q 0%Q (Qeq_refl 0%Q)).
  rewrite (Qeqb_comp a a' Ha 0%Q 0%Q (Qeq_refl 0%Q)).
  assert (Hle : Qle_bool a 0%Q = Qle_bool a' 0%Q).
  { apply eq_true_iff_eq. rewrite !Qle_bool_iff, Ha. reflexivity. }
  rewrite Hle.
  destruct (Qeq_bool b' 0); [reflexivity|].
  apply binary64_proper. rewrite Ha, Hb. reflexivity.
Qed.

(** ** [stable_argsort] is an admissible [numpy.argsort] *)

Section StableArgsort.

Variable event_time : list Q.

Let key (p : nat) : Q := np.item 0%Q event_time p.
Let le (p q : nat) : Prop := (key p <= key q)%Q.

Lemma insert_by_perm (p : nat) (l : list nat) :
  Permutation (insert_by event_time p l) (p :: l).
Proof.
  induction l as [|q l IH]; simpl; [reflexivity|].
  destruct (Qle_bool _ _); [reflexivity|].
  rewrite IH. apply perm_swap.
Qed.

Lemma insert_by_sorted (p : nat) (l : list nat) :
  StronglySorted le l -> StronglySorted le (insert_by event_time p l).
Proof.
  induction 1 as [|q l Hs IH Hq]; simpl.
  - constructor; constructor.
  - destruct (Qle_bool (np.item 0%Q event_time p) (np.item 0%Q event_time q))
      eqn:Hle.
    + apply Qle_bool_iff in Hle.
      constructor; [constructor; assumption|].
      constructor; [exact Hle|].
      eapply Forall_impl; [|exact Hq].
      intros r Hr. unfold le in *. eapply Qle_trans; [exact Hle|exact Hr].
    + assert (Hqp : le q p).
      { unfold le, key. destruct (Qlt_le_dec (np.item 0%Q event_time q)
                                             (np.item 0%Q event_time p))
          as [Hlt|Hge].
        - apply Qlt_le_weak, Hlt.
        - apply Qle_bool_iff in Hge. congruence. }
      constructor; [exact IH|].
      apply (Permutation_Forall (Permutation_sym (insert_by_perm p l))).
      constructor; assumption.
Qed.

Lemma isort_perm (l : list nat) :
  Permutation (fold_right (insert_by event_time) [] l) l.
Proof.
  induction l as [|p l IH]; simpl; [reflexivity|].
  rewrite insert_by_perm. constructor. exact IH.
Qed.

Lemma isort_sorted (l : list nat) :
  StronglySorted le (fold_right (insert_by event_time) [] l).
Proof.
  induction l as [|p l IH]; simpl; [constructor|].
  apply insert_by_sorted, IH.
Qed.

Lemma strongly_sorted_nth (l : list nat) :
  StronglySorted le l ->
  forall a b, a <= b -> b < length l -> le (nth a l 0) (nth b l 0).
Proof.
  induction 1 as [|q l Hs IH Hq]; intros a b Hab Hb; simpl in Hb; [lia|].
  destruct a as [|a], b as [|b]; simpl; try lia.
  - apply Qle_refl.
  - rewrite Forall_forall in Hq. apply Hq, nth_In. lia.
  - apply IH; lia.
Qed.

Lemma stable_argsort_sorts : sorts event_time (stable_argsort event_time).
Proof.
  unfold sorts, stable_argsort. split.
  - apply isort_perm.
  - intros a b Hab Hb. unfold time_at.
    apply (strongly_sorted_nth _ (isort_sorted _) a b Hab).
    rewrite (Permutation_length (isort_perm _)), length_seq. exact Hb.
Qed.

End StableArgsort.

(** ** Entries of the comparable mapping *)

Section Entries.

Variable event_indicator : list bool.
Variable event_time : list Q.
Variable order : list nat.

Lemma spec_entries_In (lo len j : nat) (mask : list bool) :
  In (j, mask) (spec_entries event_indicator event_time order lo len) <->
  lo <= j < lo + len /\
  event_at event_indicator order j = true /\
  mask = spec_mask event_indicator event_time order j.
Proof.
  unfold spec_entries. rewrite in_flat_map. split.
  - intros (k & Hk & Hin). apply in_seq in Hk. unfold spec_entry in Hin.
    destruct (event_at event_indicator order k) eqn:HE; [|contradiction].
    destruct Hin as [Heq|[]]. inversion Heq; subst. auto.
  - intros (Hj & HE & ->). exists j. split; [apply in_seq; exact Hj|].
    unfold spec_entry. rewrite HE. left. reflexivity.
Qed.

Lemma spec_entries_get (lo len j : nat) :
  dict_get j (spec_entries event_indicator event_time order lo len)
  = if (lo <=? j) && (j <? lo + len) && event_at event_indicator order j
    then Some (spec_mask event_indicator event_time order j)
    else None.
Proof.
  revert lo. induction len as [|len IH]; intros lo.
  - unfold spec_entries. cbn [seq flat_map dict_get].
    destruct ((lo <=? j) && (j <? lo + 0)) eqn:Hb; [|reflexivity].
    apply andb_true_iff in Hb. destruct Hb as [H1 H2].
    apply Nat.leb_le in H1. apply Nat.ltb_lt in H2. lia.
  - unfold spec_entries. cbn [seq flat_map].
    fold (spec_entries event_indicator event_time order (S lo) len).
    unfold spec_entry at 1.
    destruct (Nat.eq_dec j lo) as [->|Hne].
    + replace (lo <=? lo) with true by (symmetry; apply Nat.leb_le; lia).
      replace (lo <? lo + S len) with true by (symmetry; apply Nat.ltb_lt; lia).
      destruct (event_at event_indicator order lo) eqn:HE; simpl.
      * rewrite Nat.eqb_refl. reflexivity.
      * rewrite IH.
        replace (S lo <=? lo) with false by (symmetry; apply Nat.leb_gt; lia).
        reflexivity.
    + assert (Hrest :
        dict_get j (spec_entries event_indicator event_time order (S lo) len)
        = if (lo <=? j) && (j <? lo + S len) && event_at event_indicator order j
          then Some (spec_mask event_indicator event_time order j) else None).
      { rewrite IH.
        replace ((S lo <=? j) && (j <? S lo + len))
          with ((lo <=? j) && (j <? lo + S len)); [reflexivity|].
        apply eq_true_iff_eq.
        rewrite !andb_true_iff, !Nat.leb_le, !Nat.ltb_lt. lia. }
      destruct (event_at event_indicator order lo); simpl.
      * destruct (Nat.eqb_spec j lo); [contradiction|]. exact Hrest.
      * exact Hrest.
Qed.

Lemma spec_mask_marks (j : nat) :
  mask_marks_comparable event_indicator event_time order j
    (spec_mask event_indicator event_time order j).
Proof.
  unfold mask_marks_comparable, spec_mask. split.
  - rewrite length_map, length_seq. reflexivity.
  - intros k Hk.
    rewrite (nth_indep _ false
               (comparable_to event_indicator event_time order j 0))
      by (rewrite length_map, length_seq; exact Hk).
    rewrite map_nth, seq_nth by exact Hk. simpl.
    unfold comparable_to, tied_censored.
    rewrite orb_true_iff, andb_true_iff, negb_true_iff, Qltb_lt, Qeq_bool_iff.
    reflexivity.
Qed.

End Entries.

(** ** Validation *)

Lemma check_inputs_validated (event_indicator : list bool)
  (event_time estimate : list Q) :
  validated event_indicator event_time estimate ->
  _check_inputs event_indicator event_time estimate
  = ret (event_indicator, event_time, estimate).
Proof.
  intros (H1 & H2 & H3 & H4).
  unfold _check_inputs, _check_estimate_1d, check_consistent_length, check_array.
  simpl forallb. rewrite H1, H2, !Nat.eqb_refl.
  replace (length event_time <? 1) with false
    by (symmetry; apply Nat.ltb_ge; lia).
  simpl. rewrite H2, Nat.eqb_refl. simpl.
  replace (length event_time <? 2) with false
    by (symmetry; apply Nat.ltb_ge; lia).
  rewrite H4. reflexivity.
Qed.

Lemma check_inputs_inv (event_indicator : list bool)
  (event_time estimate : list Q) (r : list bool * list Q * list Q) :
  _check_inputs event_indicator event_time estimate = inr r ->
  r = (event_indicator, event_time, estimate) /\
  validated event_indicator event_time estimate.
Proof.
  unfold _check_inputs, _check_estimate_1d, check_consistent_length, check_array.
  simpl forallb.
  destruct (length event_indicator =? length event_time) eqn:H1;
    [|discriminate].
  destruct (length event_indicator =? length estimate) eqn:H2;
    [|discriminate].
  apply Nat.eqb_eq in H1, H2. simpl.
  destruct (length event_indicator <? 1) eqn:H3; [discriminate|]. simpl.
  destruct (length event_time <? 1) eqn:H4; [discriminate|]. simpl.
  destruct (length estimate <? 1) eqn:H5; [discriminate|]. simpl.
  destruct (length event_time =? length estimate) eqn:H6; [|discriminate].
  simpl.
  destruct (length event_time <? 2) eqn:H7; [discriminate|].
  destruct (np.any event_indicator) eqn:H8; [|discriminate]. simpl.
  intros [= <-]. apply Nat.ltb_ge in H7.
  split; [reflexivity|]. unfold validated.
  repeat split; try lia; assumption.
Qed.

Section CensoredFacts.

Variable argsort : list Q -> list nat.
Variable event_indicator : list bool.
Variable event_time : list Q.
Variable estimate : list Q.
Variable tied_tol : Q.

Lemma censored_validated :
  validated event_indicator event_time estimate ->
  concordance_index_censored argsort event_indicator event_time estimate
                             tied_tol
  = _estimate_concordance_index argsort event_indicator event_time estimate
      (ones_like estimate) tied_tol.
Proof.
  intros Hv. unfold concordance_index_censored.
  rewrite (check_inputs_validated _ _ _ Hv). reflexivity.
Qed.

Lemma censored_inv (r : float64 * Z * Z * Z * Z) :
  concordance_index_censored argsort event_indicator event_time estimate
                             tied_tol = inr r ->
  validated event_indicator event_time estimate /\
  exists acc tied_time,
    _estimate_counters argsort event_indicator event_time estimate
                       (ones_like estimate) tied_tol = inr (acc, tied_time)
    /\ r = (np_divide (numerator acc) (denominator acc),
            concordant acc, discordant acc, tied_risk acc, tied_time).
Proof.
  unfold concordance_index_censored.
  destruct (_check_inputs event_indicator event_time estimate)
    as [e|checked] eqn:Hc; [discriminate|].
  apply check_inputs_inv in Hc. destruct Hc as [-> Hv].
  split; [exact Hv|].
  unfold bind, _estimate_concordance_index in H.
  destruct (_estimate_counters argsort event_indicator event_time estimate
              (ones_like estimate) tied_tol) as [e|[acc tt]];
    [discriminate|].
  exists acc, tt. split; [reflexivity|].
  simpl in H. inversion H. reflexivity.
Qed.

Hypothesis argsort_sorts : forall et, sorts et (argsort et).

Lemma counters_inv (weights : list Q) (acc : counters) (tied_time : Z) :
  _estimate_counters argsort event_indicator event_time estimate weights
                     tied_tol = inr (acc, tied_time) ->
  exists i',
    stopped_at event_time (argsort event_time) i' /\
    _get_comparable event_indicator event_time (argsort event_time)
    = (spec_entries event_indicator event_time (argsort event_time) 0 i',
       spec_tied event_indicator event_time (argsort event_time) 0 i') /\
    acc = fold_left
            (spec_step event_indicator event_time estimate weights tied_tol
                       (argsort event_time))
            (seq 0 i') counters0 /\
    tied_time = spec_tied event_indicator event_time (argsort event_time) 0 i'.
Proof.
  intros Hrun.
  destruct (estimate_counters_spec argsort argsort_sorts event_indicator
              event_time estimate weights tied_tol)
    as (i' & Hstop & Hget & Hspec).
  rewrite Hspec in Hrun.
  destruct (length (spec_entries event_indicator event_time
                      (argsort event_time) 0 i') =? 0); [discriminate|].
  inversion Hrun; subst.
  exists i'. split; [exact Hstop|]. split; [exact Hget|].
  split; reflexivity.
Qed.

End CensoredFacts.

(** * Comparable-pair finder *)

(** C3 (as amended).  For sorted input of at least two samples,
    [_get_comparable] stores an entry under the sort position of every
    uncensored sample except one that sits alone at the last sort position
    (no other sample shares its time), which gets no entry, as does every
    censored sample.  The mask of an entry is true exactly at the positions
    observed strictly later and at the censored positions observed at the
    same time; hence false at the other events of that time, at the sample
    itself and at every earlier position. *)
Theorem get_comparable_entries (event_indicator : list bool)
  (event_time : list Q) (order : list nat) (j : nat) :
  sorts event_time order ->
  length event_indicator = length event_time ->
  2 <= length event_time -> j < length event_time ->
  (event_at event_indicator order j = true ->
   ~ alone_at_end event_time order j ->
   exists mask,
     dict_get j (fst (_get_comparable event_indicator event_time order))
     = Some mask /\
     mask_marks_comparable event_indicator event_time order j mask) /\
  (event_at event_indicator order j = false \/
   alone_at_end event_time order j ->
   dict_get j (fst (_get_comparable event_indicator event_time order)) = None).
Proof.
  intros Hs _ Hn Hj.
  destruct (get_comparable_spec event_indicator event_time order
              (sorts_length _ _ Hs) (proj2 Hs)) as (i' & Hget & Hstop).
  rewrite Hget. cbn [fst]. rewrite spec_entries_get. cbn [Nat.leb andb Nat.add].
  pose proof (stopped_before_alone event_time order i' j Hn Hstop Hj) as Hiff.
  split.
  - intros HE Hnot. apply Hiff in Hnot. apply Nat.ltb_lt in Hnot.
    rewrite Hnot, HE. eexists. split; [reflexivity|].
    apply spec_mask_marks.
  - intros [HE|Halone].
    + rewrite HE, andb_false_r. reflexivity.
    + destruct (j <? i') eqn:Hlt; [|reflexivity].
      apply Nat.ltb_lt in Hlt. apply Hiff in Hlt. contradiction.
Qed.

Lemma get_comparable_entries_witness :
  sorts [1; 2; 2; 3]%Q (stable_argsort [1; 2; 2; 3]%Q) /\
  exists mask,
    dict_get 1 (fst (_get_comparable [true; true; false; true]
                       [1; 2; 2; 3]%Q (stable_argsort [1; 2; 2; 3]%Q)))
    = Some mask /\
    mask_marks_comparable [true; true; false; true] [1; 2; 2; 3]%Q
      (stable_argsort [1; 2; 2; 3]%Q) 1 mask.
Proof.
  split; [apply stable_argsort_sorts|].
  apply (get_comparable_entries [true; true; false; true] [1; 2; 2; 3]%Q
           (stable_argsort [1; 2; 2; 3]%Q) 1).
  - apply stable_argsort_sorts.
  - reflexivity.
  - simpl. lia.
  - simpl. lia.
  - reflexivity.
  - intros [Hlast _]. simpl in Hlast. discriminate.
Defined.

(** C3 as stated fails: with two events at times 1 and 2, the event at the
    last sort position has no entry. *)
Lemma every_event_has_entry_counterexample :
  ~ every_event_has_entry [true; true] [1; 2]%Q (stable_argsort [1; 2]%Q).
Proof.
  intros H. destruct (H 1) as (mask & Hget & _).
  - simpl. lia.
  - reflexivity.
  - vm_compute in Hget. discriminate.
Qed.

(** ** The assertion inside the accumulation loop *)

Section Assertion.

Variable event_indicator : list bool.
Variable estimate weights : list Q.
Variable tied_tol : Q.
Variable order : list nat.

Lemma accumulate_returns (comparable : dict (list bool)) (acc : counters) :
  Forall (fun kv => event_at event_indicator order (fst kv) = true)
         comparable ->
  exists acc',
    accumulate event_indicator estimate weights tied_tol order comparable acc
    = inr acc'.
Proof.
  intros Hd. revert acc.
  induction Hd as [|[k mask] d Hk _ IH]; intros acc.
  - exists acc. reflexivity.
  - cbn [accumulate]. unfold accumulate_step.
    simpl in Hk. unfold event_at in Hk. rewrite Hk. simpl negb. cbv iota.
    cbn [bind ret]. apply IH.
Qed.

Lemma accumulate_raises (comparable : dict (list bool)) (acc : counters) :
  (exists k mask, In (k, mask) comparable /\
                  event_at event_indicator order k = false) ->
  exists k,
    In k (map fst comparable) /\
    event_at event_indicator order k = false /\
    accumulate event_indicator estimate weights tied_tol order comparable acc
    = inl (AssertionError msg_censored (Some (np.item 0 order k))).
Proof.
  revert acc. induction comparable as [|[k mask] d IH];
    intros acc (k0 & mask0 & Hin & HE).
  - destruct Hin.
  - cbn [accumulate]. unfold accumulate_step.
    destruct (np.item false event_indicator (np.item 0 order k)) eqn:Hk.
    + simpl negb. cbv iota. cbn [bind ret].
      destruct Hin as [Heq|Hin].
      * inversion Heq; subst. unfold event_at in HE. congruence.
      * match goal with
        | |- exists _, _ /\ _ /\ accumulate _ _ _ _ _ _ ?a = _ =>
            destruct (IH a (ex_intro _ k0 (ex_intro _ mask0 (conj Hin HE))))
              as (k' & Hk' & HE' & Hrun)
        end.
        exists k'. split; [right; exact Hk'|]. split; [exact HE'|exact Hrun].
    + exists k. split; [left; reflexivity|]. split; [exact Hk|reflexivity].
Qed.

End Assertion.

(** C7.  On validated, sorted input every key that [_get_comparable]
    stores is the sort position of an uncensored sample, so the assertion
    in the accumulation loop holds at every entry and the loop returns; on
    any mapping over the same samples that has a key of a censored sample
    the loop raises the assertion error instead of returning counters. *)
Theorem comparable_keys_uncensored (event_indicator : list bool)
  (event_time estimate weights : list Q) (tied_tol : Q) (order : list nat) :
  sorts event_time order ->
  length event_indicator = length event_time ->
  length estimate = length event_time ->
  length weights = length event_time ->
  (forall k mask,
     In (k, mask) (fst (_get_comparable event_indicator event_time order)) ->
     event_at event_indicator order k = true) /\
  (forall acc,
     exists acc',
       accumulate event_indicator estimate weights tied_tol order
         (fst (_get_comparable event_indicator event_time order)) acc
       = inr acc') /\
  (forall comparable acc,
     Forall (fun kv => fst kv < length event_time /\
                       length (snd kv) = length event_time) comparable ->
     (exists k mask, In (k, mask) comparable /\
                     event_at event_indicator order k = false) ->
     exists k,
       In k (map fst comparable) /\
       event_at event_indicator order k = false /\
       accumulate event_indicator estimate weights tied_tol order comparable acc
       = inl (AssertionError msg_censored (Some (np.item 0 order k)))).
Proof.
  intros _ _ _ _.
  pose proof (get_comparable_keys event_indicator event_time order) as Hkeys.
  split; [|split].
  - intros k mask Hin. rewrite Forall_forall in Hkeys.
    apply (Hkeys (k, mask) Hin).
  - intros acc. apply accumulate_returns. exact Hkeys.
  - intros comparable acc _. apply accumulate_raises.
Qed.

Lemma comparable_keys_uncensored_witness :
  (sorts [1; 2; 2; 3]%Q (stable_argsort [1; 2; 2; 3]%Q) /\
   length [true; true; false; true] = length [1; 2; 2; 3]%Q /\
   length [0.9; 0.5; 0.5; 0.1]%Q = length [1; 2; 2; 3]%Q /\
   length [1; 1; 1; 1]%Q = length [1; 2; 2; 3]%Q) /\
  exists acc',
    accumulate [true; true; false; true] [0.9; 0.5; 0.5; 0.1]%Q
      [1; 1; 1; 1]%Q tol_1e_08 (stable_argsort [1; 2; 2; 3]%Q)
      (fst (_get_comparable [true; true; false; true] [1; 2; 2; 3]%Q
              (stable_argsort [1; 2; 2; 3]%Q))) counters0
    = inr acc'.
Proof.
  split;
    [split; [apply stable_argsort_sorts|repeat split; reflexivity]|].
  apply (comparable_keys_uncensored [true; true; false; true]
           [1; 2; 2; 3]%Q [0.9; 0.5; 0.5; 0.1]%Q [1; 1; 1; 1]%Q tol_1e_08
           (stable_argsort [1; 2; 2; 3]%Q)
           (stable_argsort_sorts _) eq_refl eq_refl eq_refl).
Defined.

(** * Tied times *)

Lemma filter_length_split {A : Type} (p q r : A -> bool) (l : list A) :
  (forall x, p x = q x || r x) -> (forall x, q x && r x = false) ->
  length (filter p l) = length (filter q l) + length (filter r l).
Proof.
  intros Hp Hd. induction l as [|x l IH]; simpl; [reflexivity|].
  rewrite Hp. specialize (Hd x).
  destruct (q x), (r x); simpl in *; try discriminate; lia.
Qed.

Lemma comparable_pairs_split (event_indicator : list bool)
  (event_time : list Q) (n : nat) :
  count_pairs (comparable_pair event_indicator event_time) n
  = (count_pairs (later_pair event_indicator event_time) n
     + count_pairs (tied_time_pair event_indicator event_time) n)%Z.
Proof.
  unfold count_pairs. rewrite <- Nat2Z.inj_add. f_equal.
  apply filter_length_split.
  - intros [a b]. unfold comparable_pair, later_pair, tied_time_pair. simpl.
    destruct (np.item false event_indicator a); simpl; [|reflexivity].
    rewrite andb_comm. reflexivity.
  - intros [a b]. unfold later_pair, tied_time_pair. simpl.
    destruct (np.item false event_indicator a); simpl; [|reflexivity].
    destruct (Qltb (np.item 0%Q event_time a) (np.item 0%Q event_time b))
      eqn:Hlt; simpl; [|reflexivity].
    apply Qltb_lt in Hlt.
    destruct (Qeq_bool (np.item 0%Q event_time b) (np.item 0%Q event_time a))
      eqn:Heq; [|apply andb_false_r].
    apply Qeq_bool_eq in Heq. rewrite Heq in Hlt.
    exfalso. apply (Qlt_irrefl _ Hlt).
Qed.

(** C5.  [tied_time], as returned by [_get_comparable] and handed on by
    [concordance_index_censored], is the number of pairs made of an
    uncensored sample and a censored sample observed at the same time.
    Two events at the same time are in no mask, and the pairs classified as
    concordant, discordant or tied in risk are the comparable ones: an
    event with a sample observed strictly later or censored at the same
    time. *)
Theorem tied_time_counts_event_censored_pairs (argsort : list Q -> list nat)
  (event_indicator : list bool) (event_time estimate : list Q) (tied_tol : Q) :
  (forall et, sorts et (argsort et)) ->
  length event_indicator = length event_time ->
  snd (_get_comparable event_indicator event_time (argsort event_time))
  = count_pairs (tied_time_pair event_indicator event_time)
                (length event_time) /\
  (forall j mask k,
     In (j, mask)
        (fst (_get_comparable event_indicator event_time (argsort event_time))) ->
     k < length event_time ->
     event_at event_indicator (argsort event_time) k = true ->
     (time_at event_time (argsort event_time) k
      == time_at event_time (argsort event_time) j)%Q ->
     nth k mask false = false) /\
  (forall cindex con dis tr tied_time,
     concordance_index_censored argsort event_indicator event_time estimate
                                tied_tol
     = inr (cindex, con, dis, tr, tied_time) ->
     tied_time = count_pairs (tied_time_pair event_indicator event_time)
                             (length event_time) /\
     (con + dis + tr)%Z
     = count_pairs (comparable_pair event_indicator event_time)
                   (length event_time)).
Proof.
  intros Hs _.
  destruct (get_comparable_sorted argsort Hs event_indicator event_time)
    as (i' & Hget & Hstop).
  split; [|split].
  - rewrite Hget. apply (spec_tied_pairs argsort Hs). exact Hstop.
  - intros j mask k Hin Hk HE Heq. rewrite Hget in Hin. cbn [fst] in Hin.
    apply spec_entries_In in Hin. destruct Hin as (_ & _ & ->).
    destruct (spec_mask_marks event_indicator event_time (argsort event_time) j)
      as [_ Hmarks].
    destruct (nth k (spec_mask event_indicator event_time (argsort event_time) j)
                  false) eqn:Hnth; [|reflexivity].
    apply (Hmarks k Hk) in Hnth. destruct Hnth as [Hlt|[_ Hcens]].
    + rewrite Heq in Hlt. exfalso. apply (Qlt_irrefl _ Hlt).
    + congruence.
  - intros cindex con dis tr tied_time Hrun.
    apply censored_inv in Hrun.
    destruct Hrun as (_ & acc & tt & Hcount & Hr).
    apply (counters_inv argsort _ _ _ _ Hs) in Hcount.
    destruct Hcount as (i2 & Hstop2 & _ & Hacc & Htt).
    inversion Hr; subst. split.
    + apply (spec_tied_pairs argsort Hs). exact Hstop2.
    + pose proof (fold_classified event_indicator event_time estimate
                    (ones_like estimate) tied_tol (argsort event_time)
                    (seq 0 i2) counters0) as Hc.
      unfold classified in Hc at 1. rewrite Hc.
      rewrite (size_pairs argsort Hs event_indicator event_time i2 Hstop2).
      reflexivity.
Qed.

Lemma tied_time_counts_event_censored_pairs_witness :
  (forall et, sorts et (stable_argsort et)) /\
  snd (_get_comparable [true; true; false; true] [1; 2; 2; 3]%Q
         (stable_argsort [1; 2; 2; 3]%Q))
  = count_pairs (tied_time_pair [true; true; false; true] [1; 2; 2; 3]%Q) 4.
Proof.
  split; [exact stable_argsort_sorts|].
  apply (tied_time_counts_event_censored_pairs stable_argsort
           [true; true; false; true] [1; 2; 2; 3]%Q
           [0.9; 0.5; 0.5; 0.1]%Q tol_1e_08 stable_argsort_sorts eq_refl).
Defined.

(** * Pair conservation and the range of the index *)

Section UnitWeights.

Variable argsort : list Q -> list nat.
Hypothesis argsort_sorts : forall et, sorts et (argsort et).

Variable event_indicator : list bool.
Variable event_time : list Q.
Variable estimate : list Q.
Variable tied_tol : Q.

Lemma unit_weight_at (j : nat) :
  length estimate = length event_time -> j < length event_time ->
  weight_at (ones_like estimate) (argsort event_time) j = 1%Q.
Proof.
  intros Hlen Hj. unfold weight_at, ones_like, np.item at 1.
  apply nth_repeat_lt. rewrite Hlen.
  apply sorts_in_range; [apply argsort_sorts|exact Hj].
Qed.

(** After a run with unit weights the counters are balanced and count
    the comparable pairs of samples. *)
Lemma counters_balanced (acc : counters) (tied_time : Z) :
  validated event_indicator event_time estimate ->
  _estimate_counters argsort event_indicator event_time estimate
                     (ones_like estimate) tied_tol = inr (acc, tied_time) ->
  balanced acc /\
  classified acc
  = count_pairs (comparable_pair event_indicator event_time)
                (length event_time) /\
  tied_time
  = count_pairs (tied_time_pair event_indicator event_time)
                (length event_time).
Proof.
  intros (_ & Hlen & _ & _) Hrun.
  apply (counters_inv argsort _ _ _ _ argsort_sorts) in Hrun.
  destruct Hrun as (i' & Hstop & _ & -> & ->).
  split; [|split].
  - apply fold_balanced.
    + intros j Hj _. apply in_seq in Hj. apply unit_weight_at; [exact Hlen|].
      destruct Hstop as (Hi & _). lia.
    + unfold balanced, counters0. simpl. repeat split; try lia; reflexivity.
  - rewrite fold_classified.
    rewrite (size_pairs argsort argsort_sorts event_indicator event_time i'
                        Hstop).
    reflexivity.
  - apply (spec_tied_pairs argsort argsort_sorts). exact Hstop.
Qed.

(** A returned index is NaN, with no comparable pair in the data, or it
    lies in the unit interval. *)
Lemma censored_range (cindex : float64) (con dis tr tied_time : Z) :
  concordance_index_censored argsort event_indicator event_time estimate
                             tied_tol
  = inr (cindex, con, dis, tr, tied_time) ->
  (cindex = NaN /\
   count_pairs (comparable_pair event_indicator event_time)
               (length event_time) = 0%Z) \/
  in_unit_interval cindex = true.
Proof.
  intros Hrun. apply censored_inv in Hrun.
  destruct Hrun as (Hv & acc & tt & Hcount & Hr).
  destruct (counters_balanced acc tt Hv Hcount) as (Hbal & Hcls & _).
  inversion Hr; subst.
  destruct (np_divide_range _ _ (balanced_range acc Hbal))
    as [[Hzero Hnan]|[_ Hin]].
  - left. split; [exact Hnan|].
    rewrite <- Hcls. apply balanced_zero; assumption.
  - right. exact Hin.
Qed.

End UnitWeights.

(** C6 (as amended).  With unit weights, whenever the accumulation
    returns, [concordant + discordant + tied_risk] equals the denominator,
    and the denominator is the number of comparable pairs: an event with a
    sample observed strictly later, or with a censored sample observed at
    the same time.  The pairs of the second kind are the ones that
    [tied_time] counts as well, so the denominator is the number of pairs
    with different times plus [tied_time]. *)
Theorem pair_conservation (argsort : list Q -> list nat)
  (event_indicator : list bool) (event_time estimate : list Q) (tied_tol : Q)
  (acc : counters) (tied_time : Z) :
  (forall et, sorts et (argsort et)) ->
  validated event_indicator event_time estimate ->
  _estimate_counters argsort event_indicator event_time estimate
                     (ones_like estimate) tied_tol = inr (acc, tied_time) ->
  (inject_Z (concordant acc + discordant acc + tied_risk acc)
   == denominator acc)%Q /\
  (denominator acc
   == inject_Z (count_pairs (comparable_pair event_indicator event_time)
                            (length event_time)))%Q /\
  count_pairs (comparable_pair event_indicator event_time) (length event_time)
  = (count_pairs (later_pair event_indicator event_time) (length event_time)
     + tied_time)%Z.
Proof.
  intros Hs Hv Hrun.
  destruct (counters_balanced argsort Hs _ _ _ _ acc tied_time Hv Hrun)
    as (Hbal & Hcls & Htt).
  destruct Hbal as (Hden & _).
  split; [|split].
  - symmetry. exact Hden.
  - rewrite Hden. unfold classified in Hcls. rewrite Hcls. reflexivity.
  - rewrite Htt. apply comparable_pairs_split.
Qed.

Lemma pair_conservation_witness :
  exists acc tied_time,
    _estimate_counters stable_argsort [true; true; false; true]
      [1; 2; 2; 3]%Q [0.9; 0.5; 0.5; 0.1]%Q
      (ones_like [0.9; 0.5; 0.5; 0.1]%Q) tol_1e_08 = inr (acc, tied_time) /\
    (denominator acc
     == inject_Z (count_pairs
                    (comparable_pair [true; true; false; true] [1; 2; 2; 3]%Q)
                    4))%Q.
Proof.
  eexists. eexists. split; [vm_compute; reflexivity|].
  eapply (pair_conservation stable_argsort [true; true; false; true]
            [1; 2; 2; 3]%Q [0.9; 0.5; 0.5; 0.1]%Q tol_1e_08).
  - exact stable_argsort_sorts.
  - unfold validated. simpl. repeat split; lia.
  - vm_compute. reflexivity.
Defined.

(** C6 as stated fails: an event and a censored sample at the same time
    form a pair that the denominator counts although their times do not
    differ. *)
Lemma conservation_over_later_pairs_counterexample :
  ~ conservation_over_later_pairs stable_argsort [true; false] [1; 1]%Q
      [0.5; 0.3]%Q tol_1e_08.
Proof.
  intros H.
  edestruct H as [_ Hden].
  - vm_compute. reflexivity.
  - vm_compute in Hden. discriminate.
Qed.

(** * Inadequate data *)

Lemma sorts_two (a b : Q) (order : list nat) :
  sorts [a; b] order -> order = [0; 1] \/ order = [1; 0].
Proof.
  intros [Hperm _]. simpl in Hperm.
  apply Permutation_sym, Permutation_length_2_inv in Hperm. exact Hperm.
Qed.

(** C1 (the code departs from it).  Two events observed at the same time,
    with nothing after them: the comparable mapping has two entries, both
    with an empty mask, so the guard on an empty mapping does not fire, the
    accumulated denominator is zero and the returned index is NaN. *)
Theorem simultaneous_events_zero_denominator (argsort : list Q -> list nat) :
  (forall et, sorts et (argsort et)) ->
  validated [true; true] [1; 1]%Q [0.9; 0.5]%Q /\
  length (fst (_get_comparable [true; true] [1; 1]%Q (argsort [1; 1]%Q))) = 2 /\
  (exists acc tied_time,
     _estimate_counters argsort [true; true] [1; 1]%Q [0.9; 0.5]%Q
       (ones_like [0.9; 0.5]%Q) tol_1e_08 = inr (acc, tied_time) /\
     (denominator acc == 0)%Q) /\
  _estimate_concordance_index argsort [true; true] [1; 1]%Q [0.9; 0.5]%Q
    (ones_like [0.9; 0.5]%Q) tol_1e_08
  = inr (NaN, 0%Z, 0%Z, 0%Z, 0%Z).
Proof.
  intros Hs. split; [unfold validated; simpl; repeat split; lia|].
  unfold _estimate_concordance_index, _estimate_counters.
  destruct (sorts_two _ _ _ (Hs [1; 1]%Q)) as [-> | ->].
  - split; [reflexivity|]. split; [|reflexivity].
    eexists. eexists. split; [vm_compute; reflexivity|]. reflexivity.
  - split; [reflexivity|]. split; [|reflexivity].
    eexists. eexists. split; [vm_compute; reflexivity|]. reflexivity.
Qed.

Lemma simultaneous_events_zero_denominator_witness :
  (forall et, sorts et (stable_argsort et)) /\
  _estimate_concordance_index stable_argsort [true; true] [1; 1]%Q
    [0.9; 0.5]%Q (ones_like [0.9; 0.5]%Q) tol_1e_08
  = inr (NaN, 0%Z, 0%Z, 0%Z, 0%Z).
Proof.
  split; [exact stable_argsort_sorts|].
  apply (simultaneous_events_zero_denominator stable_argsort
           stable_argsort_sorts).
Defined.

Lemma sorts_three (a b c : Q) (order : list nat) :
  sorts [a; b; c] order ->
  In order [[0; 1; 2]; [0; 2; 1]; [1; 0; 2]; [1; 2; 0]; [2; 0; 1]; [2; 1; 0]].
Proof.
  intros [Hp _]. simpl in Hp.
  pose proof (Permutation_length Hp) as Hl.
  destruct order as [|x [|y [|z [|w r]]]]; simpl in Hl; try discriminate.
  assert (Hx : In x [0; 1; 2]) by (apply (Permutation_in _ Hp); simpl; auto).
  assert (Hy : In y [0; 1; 2]) by (apply (Permutation_in _ Hp); simpl; auto).
  assert (Hz : In z [0; 1; 2]) by (apply (Permutation_in _ Hp); simpl; auto).
  assert (Hnd : NoDup [x; y; z]).
  { apply (Permutation_NoDup (Permutation_sym Hp)). apply (seq_NoDup 3 0). }
  inversion Hnd as [|? ? Hx' Hnd']; subst.
  inversion Hnd' as [|? ? Hy' _]; subst.
  simpl in *.
  intuition subst; simpl; intuition.
Qed.

(** C2 (the code departs from it).  A censored sample followed by two
    events at the same later time passes validation, and the index that
    [concordance_index_censored] returns for it is NaN, which is not in
    the unit interval. *)
Theorem censored_returns_nan (argsort : list Q -> list nat) :
  (forall et, sorts et (argsort et)) ->
  validated [false; true; true] [1; 2; 2]%Q [0.1; 0.9; 0.5]%Q /\
  concordance_index_censored argsort [false; true; true] [1; 2; 2]%Q
    [0.1; 0.9; 0.5]%Q tol_1e_08
  = inr (NaN, 0%Z, 0%Z, 0%Z, 0%Z) /\
  in_unit_interval NaN = false.
Proof.
  intros Hs. split; [unfold validated; simpl; repeat split; lia|].
  split; [|reflexivity].
  rewrite censored_validated by (unfold validated; simpl; repeat split; lia).
  unfold _estimate_concordance_index, _estimate_counters.
  pose proof (Hs [1; 2; 2]%Q) as Hsorts.
  pose proof (proj2 Hsorts 0 1 ltac:(lia) ltac:(simpl; lia)) as H01.
  pose proof (proj2 Hsorts 1 2 ltac:(lia) ltac:(simpl; lia)) as H12.
  apply sorts_three in Hsorts. simpl in Hsorts.
  destruct Hsorts as [H|[H|[H|[H|[H|[H|[]]]]]]];
    rewrite <- H in *;
    first [ reflexivity
          | exfalso; vm_compute in H01; apply H01; reflexivity
          | exfalso; vm_compute in H12; apply H12; reflexivity ].
Qed.

Lemma censored_returns_nan_witness :
  (forall et, sorts et (stable_argsort et)) /\
  concordance_index_censored stable_argsort [false; true; true] [1; 2; 2]%Q
    [0.1; 0.9; 0.5]%Q tol_1e_08
  = inr (NaN, 0%Z, 0%Z, 0%Z, 0%Z).
Proof.
  split; [exact stable_argsort_sorts|].
  apply (censored_returns_nan stable_argsort stable_argsort_sorts).
Defined.

(** C4.  On input of consistent, non-empty shape, fewer than two samples
    raise the minimum-two-samples error, an all-false event indicator
    raises the all-censored error, and an empty comparable mapping raises
    [NoComparablePairException]; the three errors differ, no other error
    can come out, and a value is returned only when none of the three
    conditions holds. *)
Theorem inadequate_data_errors (argsort : list Q -> list nat)
  (event_indicator : list bool) (event_time estimate : list Q) (tied_tol : Q) :
  (forall et, sorts et (argsort et)) ->
  length event_indicator = length event_time ->
  length estimate = length event_time ->
  1 <= length event_time ->
  let run := concordance_index_censored argsort event_indicator event_time
               estimate tied_tol in
  let comparable :=
    fst (_get_comparable event_indicator event_time (argsort event_time)) in
  (length event_time < 2 -> run = inl (ValueError msg_two_samples)) /\
  (2 <= length event_time -> np.any event_indicator = false ->
   run = inl (ValueError msg_all_censored)) /\
  (2 <= length event_time -> np.any event_indicator = true ->
   comparable = [] ->
   run = inl (NoComparablePairException msg_no_comparable)) /\
  (ValueError msg_two_samples <> ValueError msg_all_censored /\
   ValueError msg_two_samples <> NoComparablePairException msg_no_comparable /\
   ValueError msg_all_censored <> NoComparablePairException msg_no_comparable) /\
  (forall e, run = inl e ->
     e = ValueError msg_two_samples \/
     e = ValueError msg_all_censored \/
     e = NoComparablePairException msg_no_comparable) /\
  (forall r, run = inr r ->
     2 <= length event_time /\ np.any event_indicator = true /\
     comparable <> []).
Proof.
  intros _ H1 H2 H3 run comparable.
  assert (Hcheck :
    _check_inputs event_indicator event_time estimate
    = if length event_time <? 2 then raise (ValueError msg_two_samples)
      else if negb (np.any event_indicator)
           then raise (ValueError msg_all_censored)
           else ret (event_indicator, event_time, estimate)).
  { unfold _check_inputs, _check_estimate_1d, check_consistent_length,
      check_array.
    simpl forallb. rewrite H1, H2, !Nat.eqb_refl.
    replace (length event_time <? 1) with false
      by (symmetry; apply Nat.ltb_ge; lia).
    simpl. rewrite H2, Nat.eqb_refl. reflexivity. }
  assert (Hrun : 2 <= length event_time -> np.any event_indicator = true ->
    run = if length comparable =? 0
          then raise (NoComparablePairException msg_no_comparable)
          else match accumulate event_indicator estimate (ones_like estimate)
                       tied_tol (argsort event_time) comparable counters0 with
               | inl e => inl e
               | inr acc =>
                   inr (np_divide (numerator acc) (denominator acc),
                        concordant acc, discordant acc, tied_risk acc,
                        snd (_get_comparable event_indicator event_time
                               (argsort event_time)))
               end).
  { intros Hn Hany. unfold run, concordance_index_censored. rewrite Hcheck.
    replace (length event_time <? 2) with false
      by (symmetry; apply Nat.ltb_ge; lia).
    rewrite Hany. cbn [negb bind ret].
    unfold _estimate_concordance_index, _estimate_counters, comparable.
    destruct (_get_comparable event_indicator event_time (argsort event_time))
      as [d t]. cbn [fst snd].
    destruct (length d =? 0); [reflexivity|].
    destruct (accumulate _ _ _ _ _ d counters0); reflexivity. }
  split; [|split; [|split; [|split; [|split]]]].
  - intros Hn. unfold run, concordance_index_censored. rewrite Hcheck.
    apply Nat.ltb_lt in Hn. rewrite Hn. reflexivity.
  - intros Hn Hany. unfold run, concordance_index_censored. rewrite Hcheck.
    replace (length event_time <? 2) with false
      by (symmetry; apply Nat.ltb_ge; lia).
    rewrite Hany. reflexivity.
  - intros Hn Hany Hempty. rewrite (Hrun Hn Hany), Hempty. reflexivity.
  - repeat split; discriminate.
  - intros e He.
    destruct (Nat.lt_ge_cases (length event_time) 2) as [Hn|Hn].
    + left. unfold run, concordance_index_censored in He. rewrite Hcheck in He.
      apply Nat.ltb_lt in Hn. rewrite Hn in He. inversion He. reflexivity.
    + destruct (np.any event_indicator) eqn:Hany.
      * right. right. rewrite (Hrun Hn eq_refl) in He.
        destruct (length comparable =? 0); [inversion He; reflexivity|].
        destruct (accumulate_returns event_indicator estimate
                    (ones_like estimate) tied_tol (argsort event_time)
                    comparable counters0
                    (get_comparable_keys event_indicator event_time
                       (argsort event_time))) as [acc Hacc].
        rewrite Hacc in He. discriminate.
      * right. left. unfold run, concordance_index_censored in He.
        rewrite Hcheck in He.
        replace (length event_time <? 2) with false in He
          by (symmetry; apply Nat.ltb_ge; lia).
        inversion He. reflexivity.
  - intros r Hr.
    destruct (Nat.lt_ge_cases (length event_time) 2) as [Hn|Hn].
    + unfold run, concordance_index_censored in Hr. rewrite Hcheck in Hr.
      apply Nat.ltb_lt in Hn. rewrite Hn in Hr. discriminate.
    + destruct (np.any event_indicator) eqn:Hany.
      * split; [exact Hn|]. split; [reflexivity|].
        intros Hempty. rewrite (Hrun Hn eq_refl), Hempty in Hr. discriminate.
      * unfold run, concordance_index_censored in Hr. rewrite Hcheck in Hr.
        replace (length event_time <? 2) with false in Hr
          by (symmetry; apply Nat.ltb_ge; lia).
        discriminate.
Qed.

Lemma inadequate_data_errors_witness :
  ((forall et, sorts et (stable_argsort et)) /\
   length [false; true] = length [1; 2]%Q /\
   length [0.9; 0.5]%Q = length [1; 2]%Q /\
   1 <= length [1; 2]%Q) /\
  concordance_index_censored stable_argsort [false; true] [1; 2]%Q
    [0.9; 0.5]%Q tol_1e_08
  = inl (NoComparablePairException msg_no_comparable).
Proof.
  split; [split; [exact stable_argsort_sorts|simpl; repeat split; lia]|].
  apply (inadequate_data_errors stable_argsort [false; true] [1; 2]%Q
           [0.9; 0.5]%Q tol_1e_08 stable_argsort_sorts);
    simpl; try lia; reflexivity.
Defined.

(** * Negated estimates *)



Lemma filter_filter_and {A : Type} (f g : A -> bool) (l : list A) :
  filter f (filter g l) = filter (fun x => g x && f x) l.
Proof.
  induction l as [|x l IH]; simpl; [reflexivity|].
  destruct (g x); simpl; [destruct (f x)|]; rewrite IH; reflexivity.
Qed.


Section Negation.

Variable event_indicator : list bool.
Variable event_time : list Q.
Variable estimate : list Q.
Variable weights : list Q.
Variable tied_tol : Q.
Variable order : list nat.




Lemma ties_positions (est : list Q) (j : nat) :
  ties_of event_indicator event_time est tied_tol order j
  = Z.of_nat
      (length
         (filter (fun k => is_tie tied_tol (est_at est order j) (est_at est order k))
                 (comparable_positions event_indicator event_time order j))).
Proof.
  unfold ties_of, comparable_estimates.
  rewrite filter_map_swap, length_map. reflexivity.
Qed.

Lemma con_positions (est : list Q) (j : nat) :
  con_of event_indicator event_time est tied_tol order j
  = Z.of_nat
      (length
         (filter (fun k =>
                    negb (is_tie tied_tol (est_at est order j) (est_at est order k))
                    && is_con (est_at est order j) (est_at est order k))
                 (comparable_positions event_indicator event_time order j))).
Proof.
  unfold con_of, comparable_estimates.
  rewrite filter_filter_and, filter_map_swap, length_map. reflexivity.
Qed.






End Negation.


Section NegatedRun.

Variable argsort : list Q -> list nat.
Hypothesis argsort_sorts : forall et, sorts et (argsort et).

Variable event_indicator : list bool.
Variable event_time : list Q.
Variable estimate : list Q.
Variable weights : list Q.
Variable tied_tol : Q.

Let order := argsort event_time.

(** The run of [_estimate_counters] once the comparable mapping is known. *)
Lemma estimate_counters_at (est : list Q) (i' : nat) :
  _get_comparable event_indicator event_time order
  = (spec_entries event_indicator event_time order 0 i',
     spec_tied event_indicator event_time order 0 i') ->
  _estimate_counters argsort event_indicator event_time est weights tied_tol
  = if length (spec_entries event_indicator event_time order 0 i') =? 0
    then raise (NoComparablePairException msg_no_comparable)
    else ret (fold_left
                (spec_step event_indicator event_time est weights tied_tol
                           order)
                (seq 0 i') counters0,
              spec_tied event_indicator event_time order 0 i').
Proof.
  intros Hget. unfold _estimate_counters. fold order. rewrite Hget.
  destruct (length (spec_entries event_indicator event_time order 0 i') =? 0);
    [reflexivity|].
  rewrite accumulate_spec_entries; [reflexivity|].
  apply sorts_length, argsort_sorts.
Qed.







End NegatedRun.




(** * The adapter *)

Section Cumulative.

Variable op : Q -> Q -> Q.
Variable e : Q.

Hypothesis op_proper : forall a a' b b', (a == a')%Q -> (b == b')%Q ->
                                         (op a b == op a' b')%Q.
Hypothesis op_assoc : forall a b c, (op (op a b) c == op a (op b c))%Q.
Hypothesis op_unit_l : forall a, (op e a == a)%Q.

Lemma big_ext (f g : nat -> Q) (n : nat) :
  (forall k, k < n -> (f k == g k)%Q) -> (big op e f n == big op e g n)%Q.
Proof.
  induction n as [|n IH]; intros H; simpl; [reflexivity|].
  apply op_proper; [apply IH; intros k Hk; apply H; lia|apply H; lia].
Qed.

Hypothesis op_unit_r : forall a, (op a e == a)%Q.

(** Peeling the first entry off a row. *)
Lemma big_shift (x : Q) (l : list Q) (n : nat) :
  (big op e (fun j => nth j (x :: l) 0%Q) (S n)
   == op x (big op e (fun j => nth j l 0%Q) n))%Q.
Proof.
  induction n as [|n IH].
  - simpl. rewrite op_unit_l, op_unit_r. reflexivity.
  - change (big op e (fun j => nth j (x :: l) 0%Q) (S (S n)))
      with (op (big op e (fun j => nth j (x :: l) 0%Q) (S n)) (nth n l 0%Q)).
    change (big op e (fun j => nth j l 0%Q) (S n))
      with (op (big op e (fun j => nth j l 0%Q) n) (nth n l 0%Q)).
    rewrite <- op_assoc. apply op_proper; [exact IH|reflexivity].
Qed.

(** The running accumulation holds the prefix folds. *)
Lemma cumulate_nth (l : list Q) (acc : Q) (k : nat) :
  k < length l ->
  (nth k (cumulate op acc l) 0
   == op acc (big op e (fun j => nth j l 0%Q) (S k)))%Q.
Proof.
  revert acc k. induction l as [|x l IH]; intros acc k Hk; simpl in Hk; [lia|].
  destruct k as [|k].
  - simpl. apply op_proper; [reflexivity|]. symmetry. apply op_unit_l.
  - cbn [cumulate nth]. rewrite IH by lia.
    rewrite op_assoc. apply op_proper; [reflexivity|].
    symmetry. apply big_shift.
Qed.

Lemma cumulate_length (l : list Q) (acc : Q) :
  length (cumulate op acc l) = length l.
Proof.
  revert acc. induction l as [|x l IH]; intros acc; simpl;
    [reflexivity|rewrite IH; reflexivity].
Qed.

Lemma fold_left_big (l : list Q) (acc : Q) :
  (fold_left op l acc == op acc (big op e (fun j => nth j l 0%Q) (length l)))%Q.
Proof.
  revert acc. induction l as [|x l IH]; intros acc.
  - simpl. symmetry. apply op_unit_r.
  - cbn [fold_left length]. rewrite IH. rewrite op_assoc.
    apply op_proper; [reflexivity|]. symmetry. apply big_shift.
Qed.

End Cumulative.

Lemma cumsum_nth (row : list Q) (k : nat) :
  k < length row ->
  (nth k (cumsum row) 0 == big Qplus 0 (fun j => nth j row 0) (S k))%Q.
Proof.
  destruct row as [|x l]; intros Hk; simpl in Hk; [lia|].
  destruct k as [|k].
  - simpl. ring.
  - cbn [cumsum nth].
    rewrite (cumulate_nth Qplus 0) by
      (try lia; intros; try ring; try (apply Qplus_comp; assumption)).
    symmetry. apply (big_shift Qplus 0); intros; try ring.
    apply Qplus_comp; assumption.
Qed.

Lemma cumprod_nth (row : list Q) (k : nat) :
  k < length row ->
  (nth k (cumprod row) 0 == big Qmult 1 (fun j => nth j row 0) (S k))%Q.
Proof.
  destruct row as [|x l]; intros Hk; simpl in Hk; [lia|].
  destruct k as [|k].
  - simpl. ring.
  - cbn [cumprod nth].
    rewrite (cumulate_nth Qmult 1) by
      (try lia; intros; try ring; try (apply Qmult_comp; assumption)).
    symmetry. apply (big_shift Qmult 1); intros; try ring.
    apply Qmult_comp; assumption.
Qed.

Lemma cumsum_length (row : list Q) : length (cumsum row) = length row.
Proof.
  destruct row; simpl; [reflexivity|]. rewrite cumulate_length. reflexivity.
Qed.

Lemma cumprod_length (row : list Q) : length (cumprod row) = length row.
Proof.
  destruct row; simpl; [reflexivity|]. rewrite cumulate_length. reflexivity.
Qed.

Lemma row_sum_big (l : list Q) :
  (row_sum l == big Qplus 0 (fun j => nth j l 0) (length l))%Q.
Proof.
  unfold row_sum. rewrite (fold_left_big Qplus 0); intros; try ring.
  apply Qplus_comp; assumption.
Qed.

Lemma big_sum_ext (f g : nat -> Q) (n : nat) :
  (forall k, k < n -> (f k == g k)%Q) ->
  (big Qplus 0 f n == big Qplus 0 g n)%Q.
Proof.
  apply big_ext. intros. apply Qplus_comp; assumption.
Qed.

Lemma big_prod_ext (f g : nat -> Q) (n : nat) :
  (forall k, k < n -> (f k == g k)%Q) ->
  (big Qmult 1 f n == big Qmult 1 g n)%Q.
Proof.
  apply big_ext. intros. apply Qmult_comp; assumption.
Qed.

(** The risk of a row under the incidence reading. *)
Lemma incidence_row (row : list Q) :
  (row_sum (map (fun c => 1 - c) (cumsum row)) == incidence_risk row)%Q.
Proof.
  rewrite row_sum_big, length_map, cumsum_length. unfold incidence_risk.
  apply big_sum_ext. intros k Hk.
  rewrite (nth_indep _ 0%Q ((fun c => 1 - c) 0))%Q
    by (rewrite length_map, cumsum_length; exact Hk).
  rewrite (map_nth (fun c => 1 - c)%Q).
  rewrite cumsum_nth by exact Hk. reflexivity.
Qed.

(** The risk of a row under the survival-product reading. *)
Lemma survival_row (row : list Q) :
  (row_sum (cumprod (map (fun p => 1 - p) row)) == survival_product_risk row)%Q.
Proof.
  rewrite row_sum_big, cumprod_length, length_map.
  unfold survival_product_risk.
  apply big_sum_ext. intros k Hk.
  rewrite cumprod_nth by (rewrite length_map; exact Hk).
  apply big_prod_ext. intros j Hj.
  rewrite (nth_indep _ 0%Q ((fun p => 1 - p) 0))%Q by (rewrite length_map; lia).
  rewrite (map_nth (fun p => 1 - p)%Q). reflexivity.
Qed.

Section Adapter.

Variable argsort : list Q -> list nat.

(** The vector-per-sample path. *)
Lemma vector_path (y_true : ndarray) (T : nat) (rows : list (list Q))
  (kws : list (string * string)) :
  T <> 1 ->
  concordance_index argsort y_true (Array2 T rows) kws
  = core_on_scores argsort y_true
      (map row_sum (survival_rows (wants_incidence kws) rows)).
Proof.
  intros HT. unfold concordance_index, core_on_scores. cbn [shape1 bind ret].
  destruct (Nat.eqb_spec T 1) as [|_]; [contradiction|].
  reflexivity.
Qed.

(** The scalar-per-sample path. *)
Lemma column_path (c : nat) (trows : list (list Q)) (rows : list (list Q))
  (kws : list (string * string)) :
  c <> 1 -> length trows <> 1 -> length rows <> 1 ->
  kws_get "type_pred" kws = None \/
  kws_get "type_pred" kws = Some "hazard_ratio"%string ->
  concordance_index argsort (Array2 c trows) (Array2 1 rows) kws
  = core_on_scores argsort (Array2 c trows) (map (hd 0%Q) rows).
Proof.
  intros Hc Htrows Hrows Hkws.
  unfold concordance_index, core_on_scores. cbn [shape1 bind ret Nat.eqb].
  assert (Hassert :
    match kws_get "type_pred" kws with
    | Some v => if String.eqb v "hazard_ratio" then ret tt
                else raise (AssertionError msg_none None)
    | None => ret tt
    end = @ret unit tt).
  { destruct Hkws as [-> | ->]; reflexivity. }
  rewrite Hassert. cbn [bind ret].
  assert (Hst : squeeze (Array2 c trows) = Array2 c trows).
  { unfold squeeze. destruct (Nat.eqb_spec c 1) as [|_]; [contradiction|].
    destruct trows as [|r [|r' trows']]; try reflexivity.
    simpl in Htrows. contradiction. }
  assert (Hsp : squeeze (Array2 1 rows) = Array1 (map (hd 0%Q) rows)).
  { unfold squeeze. cbn [Nat.eqb].
    destruct rows as [|r [|r' rows']]; try reflexivity.
    simpl in Hrows. contradiction. }
  rewrite Hst, Hsp. reflexivity.
Qed.

Lemma flat_rejected (y_true : ndarray) (scores : list Q)
  (kws : list (string * string)) :
  concordance_index argsort y_true (Array1 scores) kws
  = inl (IndexError msg_tuple_index).
Proof. reflexivity. Qed.

Lemma risk_rows (incidence : bool) (rows : list (list Q)) :
  Forall2 Qeq
    (map row_sum (survival_rows incidence rows))
    (map (if incidence then incidence_risk else survival_product_risk) rows).
Proof.
  unfold survival_rows. destruct incidence; rewrite map_map;
    induction rows as [|row rows IH]; simpl; constructor;
    try exact IH; [apply incidence_row|apply survival_row].
Qed.

End Adapter.

(** C8 (as amended).  For predictions of shape [n x T] with [T] other than
    one, each row is collapsed to the sum over the time bins of one minus
    the cumulative sum (when [type_pred] is ['incidence']) or of the
    cumulative product of one minus the entries (otherwise); for shape
    [n x 1] with [n] other than one and [type_pred] absent or
    ['hazard_ratio'] the column itself is the score.  In both cases the
    negated scores go to [concordance_index_censored] together with the
    two columns of [y_true], and the first component of its result, or its
    error, is what the caller gets. *)
Theorem rows_collapsed_then_negated (argsort : list Q -> list nat)
  (c : nat) (trows : list (list Q)) (T : nat) (rows : list (list Q))
  (kws : list (string * string)) :
  (T <> 1 ->
   concordance_index argsort (Array2 c trows) (Array2 T rows) kws
   = core_on_scores argsort (Array2 c trows)
       (map row_sum (survival_rows (wants_incidence kws) rows)) /\
   Forall2 Qeq
     (map row_sum (survival_rows (wants_incidence kws) rows))
     (map (if wants_incidence kws then incidence_risk
           else survival_product_risk) rows)) /\
  (T = 1 -> c <> 1 -> length trows <> 1 -> length rows <> 1 ->
   kws_get "type_pred" kws = None \/
   kws_get "type_pred" kws = Some "hazard_ratio"%string ->
   concordance_index argsort (Array2 c trows) (Array2 T rows) kws
   = core_on_scores argsort (Array2 c trows) (map (hd 0%Q) rows)).
Proof.
  split.
  - intros HT. split; [apply vector_path; exact HT|apply risk_rows].
  - intros -> Hc Htrows Hrows Hkws. apply column_path; assumption.
Qed.

Lemma rows_collapsed_then_negated_witness :
  2 <> 1 /\
  concordance_index stable_argsort
    (Array2 2 [[1; 1]; [2; 1]; [2; 0]; [3; 1]]%Q)
    (Array2 2 [[0.1; 0.2]; [0.3; 0.1]; [0.2; 0.2]; [0.5; 0.1]]%Q)
    [("type_pred", "incidence")]%string
  = core_on_scores stable_argsort
      (Array2 2 [[1; 1]; [2; 1]; [2; 0]; [3; 1]]%Q)
      (map row_sum
         (survival_rows true
            [[0.1; 0.2]; [0.3; 0.1]; [0.2; 0.2]; [0.5; 0.1]]%Q)).
Proof.
  split; [discriminate|].
  apply (rows_collapsed_then_negated stable_argsort 2
           [[1; 1]; [2; 1]; [2; 0]; [3; 1]]%Q 2
           [[0.1; 0.2]; [0.3; 0.1]; [0.2; 0.2]; [0.5; 0.1]]%Q
           [("type_pred", "incidence")]%string).
  discriminate.
Defined.

(** C8 as stated fails on its [n x 1] clause: with [type_pred] set to
    ['incidence'] the assertion of the scalar branch fires and nothing is
    passed on. *)
Lemma column_scores_passed_counterexample :
  ~ column_scores_passed stable_argsort (Array2 2 [[1; 1]; [2; 1]]%Q)
      [[0.9]; [0.5]]%Q [("type_pred", "incidence")]%string.
Proof.
  unfold column_scores_passed. vm_compute. discriminate.
Qed.

(** The [n x 1] clause also fails for a single sample: [numpy.squeeze]
    turns the [1 x 2] outcome array into a flat one, and reading its first
    column raises an [IndexError] before the core is reached. *)
Lemma single_sample_column_not_passed :
  ~ column_scores_passed stable_argsort (Array2 2 [[1; 1]]%Q) [[0.9]]%Q [].
Proof.
  unfold column_scores_passed. vm_compute. discriminate.
Qed.

(** C10 (as amended).  Scores given one per sample as an [n x 1] array,
    [n] other than one, with [type_pred] absent or ['hazard_ratio'], are
    negated and handed to [concordance_index_censored], whose index or
    error is returned; a flat array of [n] scores is rejected with an
    [IndexError] when [y_pred.shape[1]] is read. *)
Theorem scalar_scores_need_a_column (argsort : list Q -> list nat)
  (c : nat) (trows : list (list Q)) (rows : list (list Q)) (scores : list Q)
  (kws : list (string * string)) :
  concordance_index argsort (Array2 c trows) (Array1 scores) kws
  = inl (IndexError msg_tuple_index) /\
  (c <> 1 -> length trows <> 1 -> length rows <> 1 ->
   kws_get "type_pred" kws = None \/
   kws_get "type_pred" kws = Some "hazard_ratio"%string ->
   concordance_index argsort (Array2 c trows) (Array2 1 rows) kws
   = core_on_scores argsort (Array2 c trows) (map (hd 0%Q) rows)).
Proof.
  split; [apply flat_rejected|]. intros. apply column_path; assumption.
Qed.

Lemma scalar_scores_need_a_column_witness :
  (2 <> 1 /\ length [[1; 1]; [2; 1]; [2; 0]; [3; 1]]%Q <> 1 /\
   length [[-0.9]; [-0.5]; [-0.5]; [-0.1]]%Q <> 1) /\
  concordance_index stable_argsort
    (Array2 2 [[1; 1]; [2; 1]; [2; 0]; [3; 1]]%Q)
    (Array2 1 [[-0.9]; [-0.5]; [-0.5]; [-0.1]]%Q) []
  = core_on_scores stable_argsort
      (Array2 2 [[1; 1]; [2; 1]; [2; 0]; [3; 1]]%Q)
      (map (hd 0%Q) [[-0.9]; [-0.5]; [-0.5]; [-0.1]]%Q).
Proof.
  split; [simpl; repeat split; discriminate|].
  apply (scalar_scores_need_a_column stable_argsort 2
           [[1; 1]; [2; 1]; [2; 0]; [3; 1]]%Q
           [[-0.9]; [-0.5]; [-0.5]; [-0.1]]%Q [] []);
    simpl; try discriminate.
  left. reflexivity.
Defined.

(** C10 as stated fails: a flat array of scores has no second axis. *)
Lemma flat_scores_accepted_counterexample :
  ~ flat_scores_accepted stable_argsort (Array2 2 [[1; 1]; [2; 1]]%Q)
      [-0.9; -0.5]%Q [].
Proof.
  unfold flat_scores_accepted. vm_compute. discriminate.
Qed.

(** * The index as a count over pairs of samples *)

Lemma count_pairs_ext (P P' : nat -> nat -> bool) (n : nat) :
  (forall a b, a < n -> b < n -> P a b = P' a b) ->
  count_pairs P n = count_pairs P' n.
Proof.
  intros H. unfold count_pairs. f_equal. f_equal.
  apply filter_ext_in. intros [a b] Hin. apply in_prod_iff in Hin.
  destruct Hin as [Ha Hb]. apply in_seq in Ha, Hb. simpl. apply H; lia.
Qed.

Lemma count_pairs_le (P P' : nat -> nat -> bool) (n : nat) :
  (forall a b, a < n -> b < n -> P a b = true -> P' a b = true) ->
  (count_pairs P n <= count_pairs P' n)%Z.
Proof.
  intros H. unfold count_pairs. apply inj_le.
  assert (Hin : forall ab, In ab (list_prod (seq 0 n) (seq 0 n)) ->
                           P (fst ab) (snd ab) = true ->
                           P' (fst ab) (snd ab) = true).
  { intros [a b] Hab. apply in_prod_iff in Hab. destruct Hab as [Ha Hb].
    apply in_seq in Ha, Hb. simpl. apply H; lia. }
  induction (list_prod (seq 0 n) (seq 0 n)) as [|x l IH]; simpl; [lia|].
  specialize (IH (fun ab Hab => Hin ab (or_intror Hab))).
  pose proof (Hin x (or_introl eq_refl)) as Hx.
  destruct (P (fst x) (snd x)); simpl.
  - rewrite (Hx eq_refl). simpl. lia.
  - destruct (P' (fst x) (snd x)); simpl; lia.
Qed.

Lemma count_pairs_none (P : nat -> nat -> bool) (n : nat) :
  (forall a b, a < n -> b < n -> P a b = false) -> count_pairs P n = 0%Z.
Proof.
  intros H. unfold count_pairs. rewrite filter_none; [reflexivity|].
  intros [a b] Hin. apply in_prod_iff in Hin. destruct Hin as [Ha Hb].
  apply in_seq in Ha, Hb. simpl. apply H; lia.
Qed.

Lemma count_pairs_nonneg (P : nat -> nat -> bool) (n : nat) :
  (0 <= count_pairs P n)%Z.
Proof. unfold count_pairs. lia. Qed.

Lemma count_pairs_split (P Q1 Q2 : nat -> nat -> bool) (n : nat) :
  (forall a b, P a b = Q1 a b || Q2 a b) ->
  (forall a b, Q1 a b && Q2 a b = false) ->
  count_pairs P n = (count_pairs Q1 n + count_pairs Q2 n)%Z.
Proof.
  intros Hp Hd. unfold count_pairs. rewrite <- Nat2Z.inj_add. f_equal.
  apply filter_length_split; intros [a b]; simpl; [apply Hp|apply Hd].
Qed.

(** The comparable pairs are split into the three classes. *)
Lemma comparable_pairs_classes (event_indicator : list bool)
  (event_time estimate : list Q) (tied_tol : Q) (n : nat) :
  count_pairs (comparable_pair event_indicator event_time) n
  = (count_pairs (concordant_pair event_indicator event_time estimate tied_tol) n
     + count_pairs (discordant_pair event_indicator event_time estimate tied_tol) n
     + count_pairs (tied_risk_pair event_indicator event_time estimate tied_tol) n)%Z.
Proof.
  set (nt := fun a b =>
         comparable_pair event_indicator event_time a b
         && negb (is_tie tied_tol (np.item 0%Q estimate a)
                         (np.item 0%Q estimate b))).
  rewrite (count_pairs_split _ nt
             (tied_risk_pair event_indicator event_time estimate tied_tol)).
  - rewrite (count_pairs_split nt
               (concordant_pair event_indicator event_time estimate tied_tol)
               (discordant_pair event_indicator event_time estimate tied_tol)).
    + reflexivity.
    + intros a b. unfold nt, concordant_pair, discordant_pair.
      destruct (comparable_pair event_indicator event_time a b),
        (is_tie tied_tol (np.item 0%Q estimate a) (np.item 0%Q estimate b)),
        (is_con (np.item 0%Q estimate a) (np.item 0%Q estimate b));
        reflexivity.
    + intros a b. unfold concordant_pair, discordant_pair.
      destruct (comparable_pair event_indicator event_time a b),
        (is_tie tied_tol (np.item 0%Q estimate a) (np.item 0%Q estimate b)),
        (is_con (np.item 0%Q estimate a) (np.item 0%Q estimate b));
        reflexivity.
  - intros a b. unfold nt, tied_risk_pair.
    destruct (comparable_pair event_indicator event_time a b),
      (is_tie tied_tol (np.item 0%Q estimate a) (np.item 0%Q estimate b));
      reflexivity.
  - intros a b. unfold nt, tied_risk_pair.
    destruct (comparable_pair event_indicator event_time a b),
      (is_tie tied_tol (np.item 0%Q estimate a) (np.item 0%Q estimate b));
      reflexivity.
Qed.

Section PairwiseFacts.

Variable argsort : list Q -> list nat.
Hypothesis argsort_sorts : forall et, sorts et (argsort et).

Variable event_indicator : list bool.
Variable event_time : list Q.
Variable estimate : list Q.
Variable weights : list Q.
Variable tied_tol : Q.

Let order := argsort event_time.
Let n := length event_time.
Let E := event_at event_indicator order.
Let step := spec_step event_indicator event_time estimate weights tied_tol order.

Lemma fold_counts (l : list nat) (acc : counters) :
  concordant (fold_left step l acc)
  = (concordant acc
     + fold_right Z.add 0%Z
         (map (fun j => if E j
                        then con_of event_indicator event_time estimate
                                    tied_tol order j
                        else 0%Z) l))%Z /\
  tied_risk (fold_left step l acc)
  = (tied_risk acc
     + fold_right Z.add 0%Z
         (map (fun j => if E j
                        then ties_of event_indicator event_time estimate
                                     tied_tol order j
                        else 0%Z) l))%Z.
Proof.
  revert acc. induction l as [|j l IH]; intros acc; simpl; [split; lia|].
  destruct (IH (step acc j)) as [H1 H2]. rewrite H1, H2.
  unfold step, spec_step. fold E. destruct (E j); simpl; split; lia.
Qed.

(** A count over the positions comparable to each event position is a
    count over the comparable pairs of samples. *)
Lemma comparable_sum_pairs (G : nat -> nat -> bool) (i' : nat) :
  stopped_at event_time order i' ->
  fold_right Z.add 0%Z
    (map (fun j =>
            if E j
            then Z.of_nat
                   (length
                      (filter (fun k => G (np.item 0 order j) (np.item 0 order k))
                         (comparable_positions event_indicator event_time
                                               order j)))
            else 0%Z)
         (seq 0 i'))
  = count_pairs
      (fun a b => comparable_pair event_indicator event_time a b && G a b) n.
Proof.
  intros Hstop.
  rewrite (sum_to_end argsort event_time _ i' Hstop).
  - unfold n.
    rewrite <- (positions_to_pairs _ _ order (argsort_sorts _)).
    f_equal. apply map_ext. intros j.
    unfold comparable_positions. rewrite filter_filter_and.
    destruct (E j) eqn:HE.
    + f_equal. f_equal. apply filter_ext. intros k.
      unfold comparable_to, tied_censored, comparable_pair.
      unfold E, event_at in HE. rewrite HE. reflexivity.
    + rewrite filter_none; [reflexivity|].
      intros k _. unfold comparable_pair.
      unfold E, event_at in HE. rewrite HE. reflexivity.
  - intros j Hij Hj. destruct (E j) eqn:HE; [|reflexivity].
    unfold comparable_positions. rewrite filter_filter_and.
    rewrite filter_none; [reflexivity|].
    intros k Hk. apply in_seq in Hk. cbv beta.
    pose proof (left_out_position argsort event_indicator event_time i' j
                  Hstop Hij Hj HE k ltac:(lia)) as Hout.
    fold order in Hout. rewrite Hout. reflexivity.
Qed.

Lemma fold_concordant_pairs (i' : nat) :
  stopped_at event_time order i' ->
  concordant (fold_left step (seq 0 i') counters0)
  = count_pairs (concordant_pair event_indicator event_time estimate tied_tol)
                n.
Proof.
  intros Hstop. rewrite (proj1 (fold_counts _ _)). simpl concordant.
  rewrite Z.add_0_l.
  etransitivity;
    [|exact (comparable_sum_pairs
               (fun a b =>
                  negb (is_tie tied_tol (np.item 0%Q estimate a)
                               (np.item 0%Q estimate b))
                  && is_con (np.item 0%Q estimate a) (np.item 0%Q estimate b))
               i' Hstop)].
  f_equal. apply map_ext. intros j. rewrite con_positions. reflexivity.
Qed.

Lemma fold_tied_risk_pairs (i' : nat) :
  stopped_at event_time order i' ->
  tied_risk (fold_left step (seq 0 i') counters0)
  = count_pairs (tied_risk_pair event_indicator event_time estimate tied_tol)
                n.
Proof.
  intros Hstop. rewrite (proj2 (fold_counts _ _)). simpl tied_risk.
  rewrite Z.add_0_l.
  etransitivity;
    [|exact (comparable_sum_pairs
               (fun a b =>
                  is_tie tied_tol (np.item 0%Q estimate a)
                         (np.item 0%Q estimate b))
               i' Hstop)].
  f_equal. apply map_ext. intros j. rewrite ties_positions. reflexivity.
Qed.

Lemma fold_discordant_pairs (i' : nat) :
  stopped_at event_time order i' ->
  discordant (fold_left step (seq 0 i') counters0)
  = count_pairs (discordant_pair event_indicator event_time estimate tied_tol)
                n.
Proof.
  intros Hstop.
  pose proof (fold_classified event_indicator event_time estimate weights
                tied_tol order (seq 0 i') counters0) as Hc.
  pose proof (size_pairs argsort argsort_sorts event_indicator event_time i'
                         Hstop) as Hsize.
  fold order in Hsize. rewrite Hsize in Hc. clear Hsize.
  unfold classified in Hc. cbn [counters0 concordant discordant tied_risk] in Hc.
  fold step in Hc. fold n in Hc.
  rewrite (fold_concordant_pairs i' Hstop) in Hc.
  rewrite (fold_tied_risk_pairs i' Hstop) in Hc.
  rewrite (comparable_pairs_classes event_indicator event_time estimate
             tied_tol n) in Hc.
  lia.
Qed.

End PairwiseFacts.

Lemma sorts_surjective (event_time : list Q) (order : list nat) (a : nat) :
  sorts event_time order -> a < length event_time ->
  exists j, j < length event_time /\ np.item 0 order j = a.
Proof.
  intros Hs Ha. pose proof (sorts_length _ _ Hs) as Hlen.
  destruct Hs as [Hperm _].
  assert (Hin : In a order).
  { apply (Permutation_in _ (Permutation_sym Hperm)). apply in_seq. lia. }
  destruct (In_nth order a 0 Hin) as (j & Hj & Hnth).
  exists j. split; [lia|exact Hnth].
Qed.

Lemma has_comparable_event_spec (event_indicator : list bool)
  (event_time : list Q) :
  has_comparable_event event_indicator event_time = true <->
  exists a b, a < length event_time /\ b < length event_time /\ a <> b /\
              np.item false event_indicator a = true /\
              (np.item 0%Q event_time a <= np.item 0%Q event_time b)%Q.
Proof.
  unfold has_comparable_event. rewrite existsb_exists. split.
  - intros (a & Ha & Hcond). apply in_seq in Ha.
    apply andb_true_iff in Hcond. destruct Hcond as [HE Hex].
    apply existsb_exists in Hex. destruct Hex as (b & Hb & Hcond).
    apply in_seq in Hb. apply andb_true_iff in Hcond.
    destruct Hcond as [Hne Hle].
    apply negb_true_iff, Nat.eqb_neq in Hne.
    apply negb_true_iff, Qltb_ge in Hle.
    exists a, b. repeat split; try lia; assumption.
  - intros (a & b & Ha & Hb & Hne & HE & Hle).
    exists a. split; [apply in_seq; lia|].
    rewrite HE. simpl. apply existsb_exists.
    exists b. split; [apply in_seq; lia|].
    apply andb_true_iff. split.
    + apply negb_true_iff, Nat.eqb_neq. exact Hne.
    + apply negb_true_iff, Qltb_ge. exact Hle.
Qed.

Section NonEmptyMapping.

Variable event_indicator : list bool.
Variable event_time : list Q.
Variable order : list nat.

Hypothesis Hsorts : sorts event_time order.

Lemma spec_entries_nil (lo len : nat) :
  spec_entries event_indicator event_time order lo len = [] <->
  forall j, lo <= j < lo + len -> event_at event_indicator order j = false.
Proof.
  split.
  - intros Hnil j Hj.
    destruct (event_at event_indicator order j) eqn:HE; [|reflexivity].
    assert (Hin : In (j, spec_mask event_indicator event_time order j)
                     (spec_entries event_indicator event_time order lo len))
      by (apply spec_entries_In; auto).
    rewrite Hnil in Hin. destruct Hin.
  - intros Hall.
    destruct (spec_entries event_indicator event_time order lo len)
      as [|[k m] d] eqn:Hd; [reflexivity|].
    assert (Hin : In (k, m)
                     (spec_entries event_indicator event_time order lo len))
      by (rewrite Hd; left; reflexivity).
    apply spec_entries_In in Hin. destruct Hin as (Hk & HE & _).
    rewrite (Hall k Hk) in HE. discriminate.
Qed.

(** The mapping is empty exactly when no uncensored sample has another
    sample observed at the same time or later. *)
Lemma entries_empty_iff (i' : nat) :
  2 <= length event_time ->
  stopped_at event_time order i' ->
  (length (spec_entries event_indicator event_time order 0 i') =? 0)
  = negb (has_comparable_event event_indicator event_time).
Proof.
  intros Hn Hstop.
  pose proof (sorts_length _ _ Hsorts) as Hlen.
  apply eq_true_iff_eq.
  rewrite Nat.eqb_eq, length_zero_iff_nil, spec_entries_nil, negb_true_iff.
  rewrite <- not_true_iff_false, has_comparable_event_spec.
  destruct Hstop as (Hi1 & Hi2 & Hb & HJ). split.
  - intros Hall (a & b & Ha & Hb' & Hne & HE & Hle).
    destruct (sorts_surjective _ _ a Hsorts Ha) as (j & Hj & Hja).
    destruct (sorts_surjective _ _ b Hsorts Hb') as (k & Hk & Hkb).
    assert (HEj : event_at event_indicator order j = true)
      by (unfold event_at; rewrite Hja; exact HE).
    destruct (Nat.lt_ge_cases j i') as [Hlt|Hge].
    + rewrite (Hall j) in HEj by lia. discriminate.
    + assert (Hjk : j <> k) by (intros ->; apply Hne; congruence).
      assert (Hlt : (time_at event_time order k < time_at event_time order j)%Q)
        by (apply Hb; lia).
      unfold time_at in Hlt. rewrite Hja, Hkb in Hlt.
      apply (Qlt_not_le _ _ Hlt Hle).
  - intros Hnone j Hj.
    destruct (event_at event_indicator order j) eqn:HE; [|reflexivity].
    exfalso. apply Hnone.
    assert (Hjn : j < length event_time) by lia.
    destruct (Nat.lt_ge_cases (j + 1) (length event_time)) as [Hnext|Hlast].
    + exists (np.item 0 order j), (np.item 0 order (j + 1)).
      repeat split.
      * apply sorts_in_range; assumption.
      * apply sorts_in_range; assumption.
      * intros Heq. apply (sorts_injective _ _ _ _ Hsorts Hjn Hnext) in Heq.
        lia.
      * exact HE.
      * apply (proj2 Hsorts j (j + 1)); lia.
    + assert (Hi' : i' = length event_time) by lia.
      exists (np.item 0 order j), (np.item 0 order (j - 1)).
      repeat split.
      * apply sorts_in_range; assumption.
      * apply sorts_in_range; [assumption|lia].
      * intros Heq.
        assert (Hprev : j - 1 < length event_time) by lia.
        apply (sorts_injective _ _ j (j - 1) Hsorts Hjn Hprev) in Heq. lia.
      * exact HE.
      * specialize (HJ Hi' Hn).
        replace (length event_time - 2) with (j - 1) in HJ by lia.
        replace (length event_time - 1) with j in HJ by lia.
        unfold time_at in HJ. rewrite HJ. apply Qle_refl.
Qed.

End NonEmptyMapping.

Section CensoredPairwise.

Variable argsort : list Q -> list nat.
Hypothesis argsort_sorts : forall et, sorts et (argsort et).

(** Sorting and grouping compute what the pair-by-pair definition says. *)
Lemma censored_pairwise (event_indicator : list bool)
  (event_time estimate : list Q) (tied_tol : Q) :
  concordance_index_censored argsort event_indicator event_time estimate
                             tied_tol
  = pairwise_index event_indicator event_time estimate tied_tol.
Proof.
  unfold concordance_index_censored, pairwise_index.
  destruct (_check_inputs event_indicator event_time estimate)
    as [e|checked] eqn:Hc; [reflexivity|].
  apply check_inputs_inv in Hc. destruct Hc as [-> Hv].
  cbn [bind].
  destruct (get_comparable_sorted argsort argsort_sorts event_indicator
              event_time) as (i' & Hget & Hstop).
  unfold _estimate_concordance_index.
  rewrite (estimate_counters_at argsort argsort_sorts event_indicator
             event_time (ones_like estimate) tied_tol estimate i' Hget).
  rewrite (entries_empty_iff event_indicator event_time (argsort event_time)
             (argsort_sorts event_time) i'
             ltac:(destruct Hv as (_ & _ & Hn & _); exact Hn) Hstop).
  destruct (has_comparable_event event_indicator event_time);
    [|reflexivity].
  cbn [negb bind ret].
  set (acc := fold_left _ (seq 0 i') counters0).
  assert (Hbal : balanced acc).
  { apply fold_balanced.
    - intros j Hj _. apply in_seq in Hj.
      apply (unit_weight_at argsort argsort_sorts);
        [exact (proj1 (proj2 Hv))|].
      destruct Hstop as (Hi & _). lia.
    - unfold balanced, counters0. simpl. repeat split; try lia; reflexivity. }
  assert (Hcon : concordant acc
                 = count_pairs (concordant_pair event_indicator event_time
                                                estimate tied_tol)
                               (length event_time))
    by (apply (fold_concordant_pairs argsort argsort_sorts); exact Hstop).
  assert (Hdis : discordant acc
                 = count_pairs (discordant_pair event_indicator event_time
                                                estimate tied_tol)
                               (length event_time))
    by (apply (fold_discordant_pairs argsort argsort_sorts); exact Hstop).
  assert (Htr : tied_risk acc
                = count_pairs (tied_risk_pair event_indicator event_time
                                              estimate tied_tol)
                              (length event_time))
    by (apply (fold_tied_risk_pairs argsort argsort_sorts); exact Hstop).
  destruct Hbal as (Hden & Hnum & _).
  rewrite (np_divide_proper _ _ _ _ Hnum Hden).
  rewrite Hcon, Hdis, Htr.
  rewrite (spec_tied_pairs argsort argsort_sorts event_indicator event_time
             i' Hstop).
  reflexivity.
Qed.

End CensoredPairwise.

Lemma pairwise_validated (event_indicator : list bool)
  (event_time estimate : list Q) (tied_tol : Q) :
  validated event_indicator event_time estimate ->
  pairwise_index event_indicator event_time estimate tied_tol
  = if has_comparable_event event_indicator event_time then
      ret (np_divide
             (inject_Z (count_pairs (concordant_pair event_indicator event_time
                                       estimate tied_tol) (length event_time))
              + (1 # 2)
                * inject_Z (count_pairs (tied_risk_pair event_indicator
                                           event_time estimate tied_tol)
                                        (length event_time)))
             (inject_Z
                (count_pairs (concordant_pair event_indicator event_time
                                estimate tied_tol) (length event_time)
                 + count_pairs (discordant_pair event_indicator event_time
                                  estimate tied_tol) (length event_time)
                 + count_pairs (tied_risk_pair event_indicator event_time
                                  estimate tied_tol) (length event_time))),
           count_pairs (concordant_pair event_indicator event_time estimate
                          tied_tol) (length event_time),
           count_pairs (discordant_pair event_indicator event_time estimate
                          tied_tol) (length event_time),
           count_pairs (tied_risk_pair event_indicator event_time estimate
                          tied_tol) (length event_time),
           count_pairs (tied_time_pair event_indicator event_time)
                       (length event_time))
    else raise (NoComparablePairException msg_no_comparable).
Proof.
  intros Hv. unfold pairwise_index.
  rewrite (check_inputs_validated _ _ _ Hv). reflexivity.
Qed.

Lemma pairwise_inv (event_indicator : list bool)
  (event_time estimate : list Q) (tied_tol : Q)
  (cindex : float64) (con dis tr tied_time : Z) :
  pairwise_index event_indicator event_time estimate tied_tol
  = inr (cindex, con, dis, tr, tied_time) ->
  validated event_indicator event_time estimate /\
  has_comparable_event event_indicator event_time = true /\
  con = count_pairs (concordant_pair event_indicator event_time estimate
                       tied_tol) (length event_time) /\
  dis = count_pairs (discordant_pair event_indicator event_time estimate
                       tied_tol) (length event_time) /\
  tr = count_pairs (tied_risk_pair event_indicator event_time estimate
                      tied_tol) (length event_time) /\
  tied_time = count_pairs (tied_time_pair event_indicator event_time)
                          (length event_time) /\
  cindex = np_divide (inject_Z con + (1 # 2) * inject_Z tr)
                     (inject_Z (con + dis + tr)).
Proof.
  intros Hrun.
  assert (Hv : validated event_indicator event_time estimate).
  { unfold pairwise_index in Hrun.
    destruct (_check_inputs event_indicator event_time estimate)
      as [e|checked] eqn:Hc; [discriminate|].
    apply check_inputs_inv in Hc. apply Hc. }
  rewrite (pairwise_validated _ _ _ _ Hv) in Hrun.
  destruct (has_comparable_event event_indicator event_time);
    [|discriminate].
  inversion Hrun; subst.
  split; [exact Hv|]. repeat split; reflexivity.
Qed.

Lemma np_divide_ratio (num den q : Q) :
  ~ (den == 0)%Q -> (num == q * den)%Q -> np_divide num den = binary64 q.
Proof.
  intros Hden Hnum. unfold np_divide.
  destruct (Qeq_bool den 0) eqn:Hd;
    [apply Qeq_bool_eq in Hd; contradiction|].
  apply binary64_proper. rewrite Hnum. field. exact Hden.
Qed.

Lemma inject_Z_pos_nonzero (z : Z) : (0 < z)%Z -> ~ (inject_Z z == 0)%Q.
Proof.
  intros Hz Heq.
  apply (proj1 (inject_Z_injective z 0%Z)) in Heq. lia.
Qed.

Lemma existsb_ext_seq (f g : nat -> bool) (n : nat) :
  (forall a, a < n -> f a = g a) ->
  existsb f (seq 0 n) = existsb g (seq 0 n).
Proof.
  intros H.
  assert (Hin : forall a, In a (seq 0 n) -> f a = g a)
    by (intros a Ha; apply in_seq in Ha; apply H; lia).
  induction (seq 0 n) as [|x l IH]; simpl; [reflexivity|].
  rewrite (Hin x (or_introl eq_refl)).
  rewrite IH by (intros a Ha; apply Hin; right; exact Ha). reflexivity.
Qed.

Lemma check_inputs_lengths (event_indicator : list bool)
  (event_time event_time' estimate estimate' : list Q) :
  length event_time = length event_time' ->
  length estimate = length estimate' ->
  match _check_inputs event_indicator event_time estimate,
        _check_inputs event_indicator event_time' estimate' with
  | inl e, inl e' => e = e'
  | inr _, inr _ => True
  | _, _ => False
  end.
Proof.
  intros Ht He.
  unfold _check_inputs, _check_estimate_1d, check_consistent_length,
    check_array.
  simpl forallb. rewrite <- Ht, <- He.
  repeat (match goal with
          | |- context [if ?c then _ else _] => destruct c
          end; cbn [bind ret raise]; rewrite <- ?Ht, <- ?He);
    try reflexivity; exact I.
Qed.

(** Two inputs of the same shape whose pairs are classified alike give
    the same result. *)
Lemma pairwise_congr (event_indicator : list bool)
  (event_time event_time' estimate estimate' : list Q) (tied_tol tied_tol' : Q) :
  length event_time = length event_time' ->
  length estimate = length estimate' ->
  has_comparable_event event_indicator event_time
  = has_comparable_event event_indicator event_time' ->
  (validated event_indicator event_time estimate ->
   forall a b, a < length event_time -> b < length event_time ->
     concordant_pair event_indicator event_time estimate tied_tol a b
     = concordant_pair event_indicator event_time' estimate' tied_tol' a b /\
     discordant_pair event_indicator event_time estimate tied_tol a b
     = discordant_pair event_indicator event_time' estimate' tied_tol' a b /\
     tied_risk_pair event_indicator event_time estimate tied_tol a b
     = tied_risk_pair event_indicator event_time' estimate' tied_tol' a b /\
     tied_time_pair event_indicator event_time a b
     = tied_time_pair event_indicator event_time' a b) ->
  pairwise_index event_indicator event_time estimate tied_tol
  = pairwise_index event_indicator event_time' estimate' tied_tol'.
Proof.
  intros Ht He Hhas Hpairs.
  pose proof (check_inputs_lengths event_indicator event_time event_time'
                estimate estimate' Ht He) as Hchk.
  unfold pairwise_index.
  destruct (_check_inputs event_indicator event_time estimate)
    as [e|r] eqn:Hc;
    destruct (_check_inputs event_indicator event_time' estimate')
      as [e'|r'] eqn:Hc'; try contradiction.
  - subst e'. reflexivity.
  - cbn [bind]. apply check_inputs_inv in Hc. destruct Hc as [_ Hv].
    specialize (Hpairs Hv). rewrite <- Hhas, <- Ht.
    destruct (has_comparable_event event_indicator event_time);
      [|reflexivity].
    rewrite (count_pairs_ext _ _ _
               (fun a b Ha Hb => proj1 (Hpairs a b Ha Hb))).
    rewrite (count_pairs_ext _ _ _
               (fun a b Ha Hb => proj1 (proj2 (Hpairs a b Ha Hb)))).
    rewrite (count_pairs_ext _ _ _
               (fun a b Ha Hb => proj1 (proj2 (proj2 (Hpairs a b Ha Hb))))).
    rewrite (count_pairs_ext _ _ _
               (fun a b Ha Hb => proj2 (proj2 (proj2 (Hpairs a b Ha Hb))))).
    reflexivity.
Qed.

Lemma item_map (f : Q -> Q) (l : list Q) (a : nat) :
  a < length l -> np.item 0%Q (map f l) a = f (np.item 0%Q l a).
Proof.
  intros Ha. unfold np.item.
  rewrite (nth_indep (map f l) 0%Q (f 0%Q)) by (rewrite length_map; exact Ha).
  apply map_nth.
Qed.

Lemma is_tie_shift (tied_tol c x y : Q) :
  is_tie tied_tol (c + x) (c + y) = is_tie tied_tol x y.
Proof.
  unfold is_tie. apply eq_true_iff_eq. rewrite !Qle_bool_iff.
  assert (H : (Qabs (c + y - (c + x)) == Qabs (y - x))%Q)
    by (apply Qabs_wd; ring).
  rewrite H. reflexivity.
Qed.

Lemma is_con_shift (c x y : Q) : is_con (c + x) (c + y) = is_con x y.
Proof.
  unfold is_con. apply eq_true_iff_eq. rewrite !Qltb_lt. split; intros H; lra.
Qed.

Lemma is_tie_mono (tied_tol tied_tol' x y : Q) :
  (tied_tol <= tied_tol')%Q ->
  is_tie tied_tol x y = true -> is_tie tied_tol' x y = true.
Proof.
  unfold is_tie. rewrite !Qle_bool_iff. intros Hle H.
  exact (Qle_trans _ _ _ H Hle).
Qed.


Lemma order_preserving_ltb (f : Q -> Q) (x y : Q) :
  order_preserving f -> Qltb (f x) (f y) = Qltb x y.
Proof.
  intros Hf. apply eq_true_iff_eq. rewrite !Qltb_lt. apply Hf.
Qed.

Lemma order_preserving_eqb (f : Q -> Q) (x y : Q) :
  order_preserving f -> Qeq_bool (f x) (f y) = Qeq_bool x y.
Proof.
  intros Hf. apply eq_true_iff_eq. rewrite !Qeq_bool_iff.
  pose proof (Hf x y) as Hxy. pose proof (Hf y x) as Hyx.
  split; intros H.
  - destruct (Q_dec x y) as [[Hlt|Hgt]|Heq]; [| |exact Heq].
    + apply Hxy in Hlt. lra.
    + apply Hyx in Hgt. lra.
  - destruct (Q_dec (f x) (f y)) as [[Hlt|Hgt]|Heq]; [| |exact Heq].
    + apply Hxy in Hlt. lra.
    + apply Hyx in Hgt. lra.
Qed.

Lemma has_comparable_event_map (f : Q -> Q) (event_indicator : list bool)
  (event_time : list Q) :
  order_preserving f ->
  has_comparable_event event_indicator event_time
  = has_comparable_event event_indicator (map f event_time).
Proof.
  intros Hf. unfold has_comparable_event. rewrite length_map.
  apply existsb_ext_seq. intros a Ha. f_equal.
  apply existsb_ext_seq. intros b Hb. f_equal. f_equal.
  rewrite !item_map by assumption.
  symmetry. apply order_preserving_ltb. exact Hf.
Qed.

(** * What users of [concordance_index_censored] can rely on *)

(** X1.  For every admissible [numpy.argsort], whatever order it gives to
    samples with equal times, [concordance_index_censored] returns what the
    pair-by-pair definition gives: the same error, or the counts of
    concordant, discordant and risk-tied comparable pairs of samples, the
    number of (event, censored) pairs with equal times, and the quotient
    [(concordant + tied_risk / 2) / (concordant + discordant + tied_risk)]. *)
Theorem sorting_computes_pairwise_index (argsort : list Q -> list nat)
  (event_indicator : list bool) (event_time estimate : list Q) (tied_tol : Q) :
  (forall et, sorts et (argsort et)) ->
  concordance_index_censored argsort event_indicator event_time estimate
                             tied_tol
  = pairwise_index event_indicator event_time estimate tied_tol.
Proof.
  intros Hs. apply censored_pairwise. exact Hs.
Qed.

Lemma sorting_computes_pairwise_index_witness :
  (forall et, sorts et (stable_argsort et)) /\
  concordance_index_censored stable_argsort [true; true; false; true]
    [1; 2; 2; 3]%Q [0.9; 0.5; 0.5; 0.1]%Q tol_1e_08
  = pairwise_index [true; true; false; true] [1; 2; 2; 3]%Q
      [0.9; 0.5; 0.5; 0.1]%Q tol_1e_08.
Proof.
  split; [exact stable_argsort_sorts|].
  apply (sorting_computes_pairwise_index stable_argsort
           [true; true; false; true] [1; 2; 2; 3]%Q [0.9; 0.5; 0.5; 0.1]%Q
           tol_1e_08 stable_argsort_sorts).
Defined.

(** X2.  On validated input [NoComparablePairException] is raised exactly
    when every uncensored sample is observed strictly after all the other
    samples (so there is a single event, and it comes last). *)
Theorem no_comparable_pair_iff_event_strictly_last
  (argsort : list Q -> list nat) (event_indicator : list bool)
  (event_time estimate : list Q) (tied_tol : Q) :
  (forall et, sorts et (argsort et)) ->
  validated event_indicator event_time estimate ->
  (concordance_index_censored argsort event_indicator event_time estimate
                              tied_tol
   = inl (NoComparablePairException msg_no_comparable)
   <->
   forall a b, a < length event_time -> b < length event_time -> a <> b ->
     np.item false event_indicator a = true ->
     (np.item 0%Q event_time b < np.item 0%Q event_time a)%Q).
Proof.
  intros Hs Hv. rewrite (censored_pairwise argsort Hs).
  rewrite (pairwise_validated _ _ _ _ Hv).
  destruct (has_comparable_event event_indicator event_time) eqn:Hhas.
  - split; [discriminate|]. intros Hall. exfalso.
    apply has_comparable_event_spec in Hhas.
    destruct Hhas as (a & b & Ha & Hb & Hne & HE & Hle).
    apply (Qlt_not_le _ _ (Hall a b Ha Hb Hne HE) Hle).
  - split; [|reflexivity]. intros _ a b Ha Hb Hne HE.
    apply Qnot_le_lt. intros Hle.
    assert (Htrue : has_comparable_event event_indicator event_time = true).
    { apply has_comparable_event_spec. exists a, b.
      repeat split; assumption. }
    congruence.
Qed.

Lemma no_comparable_pair_iff_event_strictly_last_witness :
  ((forall et, sorts et (stable_argsort et)) /\
   validated [false; true] [1; 2]%Q [0.9; 0.5]%Q) /\
  (concordance_index_censored stable_argsort [false; true] [1; 2]%Q
     [0.9; 0.5]%Q tol_1e_08
   = inl (NoComparablePairException msg_no_comparable)
   <->
   forall a b, a < length [1; 2]%Q -> b < length [1; 2]%Q -> a <> b ->
     np.item false [false; true] a = true ->
     (np.item 0%Q [1; 2]%Q b < np.item 0%Q [1; 2]%Q a)%Q).
Proof.
  assert (Hv : validated [false; true] [1; 2]%Q [0.9; 0.5]%Q)
    by (unfold validated; simpl; repeat split; lia).
  split; [split; [exact stable_argsort_sorts|exact Hv]|].
  apply (no_comparable_pair_iff_event_strictly_last stable_argsort
           [false; true] [1; 2]%Q [0.9; 0.5]%Q tol_1e_08
           stable_argsort_sorts Hv).
Defined.

(** X3.  Whenever [concordance_index_censored] returns, the four counts
    are non-negative, [tied_time] is at most the number of classified
    pairs, and the index is NaN when no pair was classified and lies
    between 0 and 1 otherwise. *)
Theorem returned_index_nan_or_in_unit_interval (argsort : list Q -> list nat)
  (event_indicator : list bool) (event_time estimate : list Q) (tied_tol : Q)
  (cindex : float64) (con dis tr tied_time : Z) :
  (forall et, sorts et (argsort et)) ->
  concordance_index_censored argsort event_indicator event_time estimate
                             tied_tol
  = inr (cindex, con, dis, tr, tied_time) ->
  (0 <= con)%Z /\ (0 <= dis)%Z /\ (0 <= tr)%Z /\
  (0 <= tied_time <= con + dis + tr)%Z /\
  (((con + dis + tr)%Z = 0%Z /\ cindex = NaN) \/
   ((0 < con + dis + tr)%Z /\ in_unit_interval cindex = true)).
Proof.
  intros Hs Hrun. rewrite (censored_pairwise argsort Hs) in Hrun.
  apply pairwise_inv in Hrun.
  destruct Hrun as (_ & _ & Hcon & Hdis & Htr & Htt & Hc).
  assert (H1 : (0 <= con)%Z) by (rewrite Hcon; apply count_pairs_nonneg).
  assert (H2 : (0 <= dis)%Z) by (rewrite Hdis; apply count_pairs_nonneg).
  assert (H3 : (0 <= tr)%Z) by (rewrite Htr; apply count_pairs_nonneg).
  assert (H4 : (0 <= tied_time)%Z) by (rewrite Htt; apply count_pairs_nonneg).
  assert (H5 : (tied_time <= con + dis + tr)%Z).
  { rewrite Hcon, Hdis, Htr, Htt, <- comparable_pairs_classes.
    apply count_pairs_le. intros a b _ _.
    unfold tied_time_pair, comparable_pair. intros H.
    apply andb_true_iff in H. destruct H as [H Heq].
    apply andb_true_iff in H. destruct H as [HE Hcens].
    rewrite HE, Heq, Hcens. simpl. apply orb_true_r. }
  split; [exact H1|]. split; [exact H2|]. split; [exact H3|].
  split; [split; assumption|].
  assert (Hrange :
    (0 <= inject_Z con + (1 # 2) * inject_Z tr
     <= inject_Z (con + dis + tr))%Q).
  { rewrite !inject_Z_plus. rewrite Zle_Qle in H1, H2, H3.
    change (inject_Z 0) with 0%Q in *. lra. }
  rewrite Hc.
  destruct (np_divide_range _ _ Hrange) as [[Hzero Hnan]|[Hpos Hin]].
  - left. split; [|exact Hnan].
    exact (proj1 (inject_Z_injective _ 0%Z) Hzero).
  - right. split; [|exact Hin].
    change 0%Q with (inject_Z 0) in Hpos. rewrite <- Zlt_Qlt in Hpos.
    exact Hpos.
Qed.

Lemma returned_index_nan_or_in_unit_interval_witness :
  ((forall et, sorts et (stable_argsort et)) /\
   concordance_index_censored stable_argsort [true; true; false; true]
     [1; 2; 2; 3]%Q [0.9; 0.5; 0.5; 0.1]%Q tol_1e_08
   = inr (Finite (8106479329266893 # 9007199254740992), 4%Z, 0%Z, 1%Z, 1%Z)) /\
  in_unit_interval (Finite (8106479329266893 # 9007199254740992)) = true.
Proof.
  assert (Hrun :
    concordance_index_censored stable_argsort [true; true; false; true]
      [1; 2; 2; 3]%Q [0.9; 0.5; 0.5; 0.1]%Q tol_1e_08
    = inr (Finite (8106479329266893 # 9007199254740992), 4%Z, 0%Z, 1%Z, 1%Z))
    by (vm_compute; reflexivity).
  split; [split; [exact stable_argsort_sorts|exact Hrun]|].
  destruct (returned_index_nan_or_in_unit_interval stable_argsort
              [true; true; false; true] [1; 2; 2; 3]%Q
              [0.9; 0.5; 0.5; 0.1]%Q tol_1e_08 (Finite (8106479329266893 # 9007199254740992)) 4%Z 0%Z 1%Z
              1%Z stable_argsort_sorts Hrun)
    as (_ & _ & _ & _ & [[_ Hnan]|[_ Hin]]).
  - discriminate Hnan.
  - exact Hin.
Defined.

(** X4.  If the estimates of all samples are within [tied_tol] of each
    other, no pair is concordant or discordant, and the index is 1/2
    whenever a pair was classified (NaN otherwise). *)
Theorem all_estimates_tied_gives_half (argsort : list Q -> list nat)
  (event_indicator : list bool) (event_time estimate : list Q) (tied_tol : Q)
  (cindex : float64) (con dis tr tied_time : Z) :
  (forall et, sorts et (argsort et)) ->
  (forall a b, a < length estimate -> b < length estimate ->
     is_tie tied_tol (np.item 0%Q estimate a) (np.item 0%Q estimate b)
     = true) ->
  concordance_index_censored argsort event_indicator event_time estimate
                             tied_tol
  = inr (cindex, con, dis, tr, tied_time) ->
  con = 0%Z /\ dis = 0%Z /\
  ((tr = 0%Z /\ cindex = NaN) \/
   ((0 < tr)%Z /\ cindex = Finite (1 # 2))).
Proof.
  intros Hs Htied Hrun. rewrite (censored_pairwise argsort Hs) in Hrun.
  apply pairwise_inv in Hrun.
  destruct Hrun as (Hv & _ & Hcon & Hdis & Htr & _ & Hc).
  destruct Hv as (_ & Hlen & _ & _).
  assert (Hcon0 : con = 0%Z).
  { rewrite Hcon. apply count_pairs_none. intros a b Ha Hb.
    unfold concordant_pair. rewrite Htied by lia. simpl.
    apply andb_false_r. }
  assert (Hdis0 : dis = 0%Z).
  { rewrite Hdis. apply count_pairs_none. intros a b Ha Hb.
    unfold discordant_pair. rewrite Htied by lia. simpl.
    apply andb_false_r. }
  split; [exact Hcon0|]. split; [exact Hdis0|].
  assert (Htr0 : (0 <= tr)%Z) by (rewrite Htr; apply count_pairs_nonneg).
  rewrite Hc, Hcon0, Hdis0. simpl Z.add.
  destruct (Z.eq_dec tr 0) as [Hz|Hnz].
  - left. split; [exact Hz|]. rewrite Hz. reflexivity.
  - right. split; [lia|].
    change (Finite (1 # 2)) with (binary64 (1 # 2)).
    apply np_divide_ratio.
    + apply inject_Z_pos_nonzero. lia.
    + change (inject_Z 0) with 0%Q. ring.
Qed.

Lemma all_estimates_tied_gives_half_witness :
  ((forall et, sorts et (stable_argsort et)) /\
   (forall a b, a < length [0.5; 0.5; 0.5]%Q -> b < length [0.5; 0.5; 0.5]%Q ->
      is_tie tol_1e_08 (np.item 0%Q [0.5; 0.5; 0.5]%Q a)
             (np.item 0%Q [0.5; 0.5; 0.5]%Q b) = true) /\
   concordance_index_censored stable_argsort [true; true; false]
     [1; 2; 3]%Q [0.5; 0.5; 0.5]%Q tol_1e_08
   = inr (Finite (1 # 2), 0%Z, 0%Z, 3%Z, 0%Z)) /\
  (0 < 3)%Z.
Proof.
  assert (Htied : forall a b, a < length [0.5; 0.5; 0.5]%Q ->
            b < length [0.5; 0.5; 0.5]%Q ->
            is_tie tol_1e_08 (np.item 0%Q [0.5; 0.5; 0.5]%Q a)
                   (np.item 0%Q [0.5; 0.5; 0.5]%Q b) = true).
  { intros a b Ha Hb. simpl in Ha, Hb.
    destruct a as [|[|[|a]]]; [| | |lia];
      (destruct b as [|[|[|b]]]; [| | |lia]); vm_compute; reflexivity. }
  assert (Hrun :
    concordance_index_censored stable_argsort [true; true; false]
      [1; 2; 3]%Q [0.5; 0.5; 0.5]%Q tol_1e_08
    = inr (Finite (1 # 2), 0%Z, 0%Z, 3%Z, 0%Z))
    by (vm_compute; reflexivity).
  split; [split; [exact stable_argsort_sorts|split; [exact Htied|exact Hrun]]|].
  destruct (all_estimates_tied_gives_half stable_argsort [true; true; false]
              [1; 2; 3]%Q [0.5; 0.5; 0.5]%Q tol_1e_08 (Finite (1 # 2))
              0%Z 0%Z 3%Z 0%Z stable_argsort_sorts Htied Hrun)
    as (_ & _ & [[Hz _]|[Hpos _]]).
  - discriminate Hz.
  - exact Hpos.
Defined.





(** X7.  Adding the same constant to every estimate changes nothing: the
    same error, or the same index and counts. *)
Theorem shifting_estimates_changes_nothing (argsort : list Q -> list nat)
  (event_indicator : list bool) (event_time estimate : list Q)
  (tied_tol c : Q) :
  (forall et, sorts et (argsort et)) ->
  concordance_index_censored argsort event_indicator event_time
                             (map (Qplus c) estimate) tied_tol
  = concordance_index_censored argsort event_indicator event_time estimate
                               tied_tol.
Proof.
  intros Hs. rewrite !(censored_pairwise argsort Hs). symmetry.
  apply pairwise_congr; try reflexivity.
  - rewrite length_map. reflexivity.
  - intros (_ & Hlen & _ & _) a b Ha Hb.
    unfold concordant_pair, discordant_pair, tied_risk_pair.
    rewrite !item_map by lia.
    rewrite is_tie_shift, is_con_shift. repeat split; reflexivity.
Qed.

Lemma shifting_estimates_changes_nothing_witness :
  (forall et, sorts et (stable_argsort et)) /\
  concordance_index_censored stable_argsort [true; true; false; true]
    [1; 2; 2; 3]%Q (map (Qplus 7) [0.9; 0.5; 0.5; 0.1]%Q) tol_1e_08
  = concordance_index_censored stable_argsort [true; true; false; true]
      [1; 2; 2; 3]%Q [0.9; 0.5; 0.5; 0.1]%Q tol_1e_08.
Proof.
  split; [exact stable_argsort_sorts|].
  apply (shifting_estimates_changes_nothing stable_argsort
           [true; true; false; true] [1; 2; 2; 3]%Q [0.9; 0.5; 0.5; 0.1]%Q
           tol_1e_08 7 stable_argsort_sorts).
Defined.

(** X8.  The result depends on the observed times only through their
    order: applying a strictly increasing function to every time changes
    nothing. *)
Theorem only_the_order_of_times_matters (argsort : list Q -> list nat)
  (event_indicator : list bool) (event_time estimate : list Q) (tied_tol : Q)
  (f : Q -> Q) :
  (forall et, sorts et (argsort et)) ->
  order_preserving f ->
  concordance_index_censored argsort event_indicator (map f event_time)
                             estimate tied_tol
  = concordance_index_censored argsort event_indicator event_time estimate
                               tied_tol.
Proof.
  intros Hs Hf. rewrite !(censored_pairwise argsort Hs). symmetry.
  apply pairwise_congr; try reflexivity.
  - rewrite length_map. reflexivity.
  - apply has_comparable_event_map. exact Hf.
  - intros _ a b Ha Hb.
    unfold concordant_pair, discordant_pair, tied_risk_pair, comparable_pair,
      tied_time_pair.
    rewrite !item_map by assumption.
    rewrite (order_preserving_ltb f _ _ Hf), (order_preserving_eqb f _ _ Hf).
    repeat split; reflexivity.
Qed.

Lemma only_the_order_of_times_matters_witness :
  ((forall et, sorts et (stable_argsort et)) /\
   order_preserving (fun x => 2 * x + 1)%Q) /\
  concordance_index_censored stable_argsort [true; true; false; true]
    (map (fun x => 2 * x + 1)%Q [1; 2; 2; 3]%Q) [0.9; 0.5; 0.5; 0.1]%Q
    tol_1e_08
  = concordance_index_censored stable_argsort [true; true; false; true]
      [1; 2; 2; 3]%Q [0.9; 0.5; 0.5; 0.1]%Q tol_1e_08.
Proof.
  assert (Hf : order_preserving (fun x => 2 * x + 1)%Q)
    by (intros x y; cbv beta; split; intros H; lra).
  split; [split; [exact stable_argsort_sorts|exact Hf]|].
  apply (only_the_order_of_times_matters stable_argsort
           [true; true; false; true] [1; 2; 2; 3]%Q [0.9; 0.5; 0.5; 0.1]%Q
           tol_1e_08 (fun x => 2 * x + 1)%Q stable_argsort_sorts Hf).
Defined.

(** X9.  Raising [tied_tol] can only move pairs from the concordant and
    discordant classes into the risk-tied class: the call still returns,
    with the same number of classified pairs and the same [tied_time]. *)
Theorem larger_tolerance_only_adds_ties (argsort : list Q -> list nat)
  (event_indicator : list bool) (event_time estimate : list Q)
  (tied_tol tied_tol' : Q)
  (cindex : float64) (con dis tr tied_time : Z) :
  (forall et, sorts et (argsort et)) ->
  (tied_tol <= tied_tol')%Q ->
  concordance_index_censored argsort event_indicator event_time estimate
                             tied_tol
  = inr (cindex, con, dis, tr, tied_time) ->
  exists cindex' con' dis' tr',
    concordance_index_censored argsort event_indicator event_time estimate
                               tied_tol'
    = inr (cindex', con', dis', tr', tied_time) /\
    (con' <= con)%Z /\ (dis' <= dis)%Z /\ (tr <= tr')%Z /\
    (con' + dis' + tr' = con + dis + tr)%Z.
Proof.
  intros Hs Hle Hrun. rewrite (censored_pairwise argsort Hs) in Hrun.
  rewrite (censored_pairwise argsort Hs).
  apply pairwise_inv in Hrun.
  destruct Hrun as (Hv & Hhas & Hcon & Hdis & Htr & Htt & _).
  rewrite (pairwise_validated _ _ _ _ Hv), Hhas.
  do 4 eexists. split; [rewrite Htt; reflexivity|].
  rewrite Hcon, Hdis, Htr.
  assert (Hmono : forall a b,
            is_tie tied_tol (np.item 0%Q estimate a) (np.item 0%Q estimate b)
            = true ->
            is_tie tied_tol' (np.item 0%Q estimate a) (np.item 0%Q estimate b)
            = true)
    by (intros a b; apply is_tie_mono; exact Hle).
  split; [|split; [|split]].
  - apply count_pairs_le. intros a b _ _. unfold concordant_pair.
    destruct (comparable_pair event_indicator event_time a b);
      [|discriminate].
    specialize (Hmono a b).
    destruct (is_tie tied_tol _ _); [rewrite Hmono by reflexivity|];
      simpl; [discriminate|].
    intros H. apply andb_true_iff in H. destruct H as [_ H].
    rewrite H. reflexivity.
  - apply count_pairs_le. intros a b _ _. unfold discordant_pair.
    destruct (comparable_pair event_indicator event_time a b);
      [|discriminate].
    specialize (Hmono a b).
    destruct (is_tie tied_tol _ _); [rewrite Hmono by reflexivity|];
      simpl; [discriminate|].
    intros H. apply andb_true_iff in H. destruct H as [_ H].
    rewrite H. reflexivity.
  - apply count_pairs_le. intros a b _ _. unfold tied_risk_pair.
    destruct (comparable_pair event_indicator event_time a b);
      [|discriminate].
    simpl. apply Hmono.
  - rewrite <- !comparable_pairs_classes. reflexivity.
Qed.

Lemma larger_tolerance_only_adds_ties_witness :
  ((forall et, sorts et (stable_argsort et)) /\
   (tol_1e_08 <= 1 # 2)%Q /\
   concordance_index_censored stable_argsort [true; true; false; true]
     [1; 2; 2; 3]%Q [0.9; 0.5; 0.5; 0.1]%Q tol_1e_08
   = inr (Finite (8106479329266893 # 9007199254740992), 4%Z, 0%Z, 1%Z, 1%Z)) /\
  exists cindex' con' dis' tr',
    concordance_index_censored stable_argsort [true; true; false; true]
      [1; 2; 2; 3]%Q [0.9; 0.5; 0.5; 0.1]%Q (1 # 2)
    = inr (cindex', con', dis', tr', 1%Z) /\
    (con' <= 4)%Z /\ (dis' <= 0)%Z /\ (1 <= tr')%Z /\
    (con' + dis' + tr' = 4 + 0 + 1)%Z.
Proof.
  assert (Hle : (tol_1e_08 <= 1 # 2)%Q) by (vm_compute; discriminate).
  assert (Hrun :
    concordance_index_censored stable_argsort [true; true; false; true]
      [1; 2; 2; 3]%Q [0.9; 0.5; 0.5; 0.1]%Q tol_1e_08
    = inr (Finite (8106479329266893 # 9007199254740992), 4%Z, 0%Z, 1%Z, 1%Z))
    by (vm_compute; reflexivity).
  split; [split; [exact stable_argsort_sorts|split; [exact Hle|exact Hrun]]|].
  exact (larger_tolerance_only_adds_ties stable_argsort
           [true; true; false; true] [1; 2; 2; 3]%Q [0.9; 0.5; 0.5; 0.1]%Q
           tol_1e_08 (1 # 2) (Finite (8106479329266893 # 9007199254740992)) 4%Z 0%Z 1%Z 1%Z
           stable_argsort_sorts Hle Hrun).
Defined.

(** ** Weights *)

Lemma fold_counts_any_weights (event_indicator : list bool)
  (event_time estimate weights weights' : list Q) (tied_tol : Q)
  (order : list nat) (l : list nat) (acc acc' : counters) :
  concordant acc = concordant acc' /\
  discordant acc = discordant acc' /\
  tied_risk acc = tied_risk acc' ->
  concordant
    (fold_left (spec_step event_indicator event_time estimate weights
                          tied_tol order) l acc)
  = concordant
      (fold_left (spec_step event_indicator event_time estimate weights'
                            tied_tol order) l acc') /\
  discordant
    (fold_left (spec_step event_indicator event_time estimate weights
                          tied_tol order) l acc)
  = discordant
      (fold_left (spec_step event_indicator event_time estimate weights'
                            tied_tol order) l acc') /\
  tied_risk
    (fold_left (spec_step event_indicator event_time estimate weights
                          tied_tol order) l acc)
  = tied_risk
      (fold_left (spec_step event_indicator event_time estimate weights'
                            tied_tol order) l acc').
Proof.
  revert acc acc'. induction l as [|j l IH]; intros acc acc' H; simpl;
    [exact H|].
  apply IH. unfold spec_step.
  destruct (event_at event_indicator order j); [|exact H].
  destruct H as (H1 & H2 & H3).
  cbn [concordant discordant tied_risk]. rewrite H1, H2, H3.
  repeat split; reflexivity.
Qed.

(** X10.  The weights enter the index only: two runs of
    [_estimate_concordance_index] on the same samples that differ in
    their weights raise the same error, or return the same concordant,
    discordant and risk-tied counts and the same [tied_time]. *)
Theorem weights_only_affect_the_index (argsort : list Q -> list nat)
  (event_indicator : list bool) (event_time estimate weights weights' : list Q)
  (tied_tol : Q) :
  (forall et, sorts et (argsort et)) ->
  length event_indicator = length event_time ->
  length estimate = length event_time ->
  length weights = length event_time ->
  length weights' = length event_time ->
  match _estimate_concordance_index argsort event_indicator event_time
          estimate weights tied_tol,
        _estimate_concordance_index argsort event_indicator event_time
          estimate weights' tied_tol with
  | inl e, inl e' => e = e'
  | inr (_, con, dis, tr, tied_time), inr (_, con', dis', tr', tied_time') =>
      con = con' /\ dis = dis' /\ tr = tr' /\ tied_time = tied_time'
  | _, _ => False
  end.
Proof.
  intros Hs _ _ _ _.
  destruct (get_comparable_sorted argsort Hs event_indicator event_time)
    as (i' & Hget & _).
  unfold _estimate_concordance_index, _estimate_counters. rewrite Hget.
  destruct (length (spec_entries event_indicator event_time
                                 (argsort event_time) 0 i') =? 0);
    [reflexivity|].
  rewrite !accumulate_spec_entries by (apply sorts_length, Hs).
  cbn [bind ret].
  destruct (fold_counts_any_weights event_indicator event_time estimate
              weights weights' tied_tol (argsort event_time) (seq 0 i')
              counters0 counters0
              (conj eq_refl (conj eq_refl eq_refl)))
    as (H1 & H2 & H3).
  repeat split; assumption.
Qed.

Lemma weights_only_affect_the_index_witness :
  ((forall et, sorts et (stable_argsort et)) /\
   length [true; true; false; true] = length [1; 2; 2; 3]%Q /\
   length [0.9; 0.5; 0.5; 0.1]%Q = length [1; 2; 2; 3]%Q /\
   length [1; 1; 1; 1]%Q = length [1; 2; 2; 3]%Q /\
   length [0.1; 0.7; 2; 5]%Q = length [1; 2; 2; 3]%Q) /\
  match _estimate_concordance_index stable_argsort [true; true; false; true]
          [1; 2; 2; 3]%Q [0.9; 0.5; 0.5; 0.1]%Q [1; 1; 1; 1]%Q tol_1e_08,
        _estimate_concordance_index stable_argsort [true; true; false; true]
          [1; 2; 2; 3]%Q [0.9; 0.5; 0.5; 0.1]%Q [0.1; 0.7; 2; 5]%Q tol_1e_08
  with
  | inl e, inl e' => e = e'
  | inr (_, con, dis, tr, tied_time), inr (_, con', dis', tr', tied_time') =>
      con = con' /\ dis = dis' /\ tr = tr' /\ tied_time = tied_time'
  | _, _ => False
  end.
Proof.
  split;
    [split; [exact stable_argsort_sorts|repeat split; reflexivity]|].
  apply (weights_only_affect_the_index stable_argsort
           [true; true; false; true] [1; 2; 2; 3]%Q [0.9; 0.5; 0.5; 0.1]%Q
           [1; 1; 1; 1]%Q [0.1; 0.7; 2; 5]%Q tol_1e_08 stable_argsort_sorts
           eq_refl eq_refl eq_refl eq_refl).
Defined.

(** ** Validation and the comparable mapping *)

Lemma check_inputs_cases (event_indicator : list bool)
  (event_time estimate : list Q) :
  _check_inputs event_indicator event_time estimate
  = if negb ((length event_indicator =? length event_time)
             && (length event_indicator =? length estimate))
    then raise (ValueError msg_inconsistent)
    else if length event_indicator <? 1 then raise (ValueError msg_empty)
    else if length event_indicator <? 2
         then raise (ValueError msg_two_samples)
         else if negb (np.any event_indicator)
              then raise (ValueError msg_all_censored)
              else ret (event_indicator, event_time, estimate).
Proof.
  unfold _check_inputs, _check_estimate_1d, check_consistent_length,
    check_array.
  simpl forallb.
  destruct (Nat.eqb_spec (length event_indicator) (length event_time))
    as [H1|H1]; cbn [andb negb bind ret raise]; [|reflexivity].
  destruct (Nat.eqb_spec (length event_indicator) (length estimate))
    as [H2|H2]; cbn [andb negb bind ret raise]; [|reflexivity].
  destruct (length event_indicator <? 1) eqn:H3; cbn [bind ret raise];
    [reflexivity|].
  rewrite <- H1, H3. cbn [bind ret raise].
  rewrite <- H2, H3. cbn [bind ret raise].
  rewrite <- H1, <- H2, Nat.eqb_refl. cbn [andb bind ret raise].
  reflexivity.
Qed.

(** X11.  [_check_inputs] returns exactly on validated input, and then
    returns its three arguments unchanged; it reports inconsistent lengths
    exactly when the three lengths are not all equal, whatever else is
    wrong, and an empty array exactly when all three arrays are empty. *)
Theorem check_inputs_verdicts (event_indicator : list bool)
  (event_time estimate : list Q) :
  (forall r, _check_inputs event_indicator event_time estimate = inr r <->
             validated event_indicator event_time estimate /\
             r = (event_indicator, event_time, estimate)) /\
  (_check_inputs event_indicator event_time estimate
   = inl (ValueError msg_inconsistent) <->
   ~ (length event_indicator = length event_time /\
      length estimate = length event_time)) /\
  (_check_inputs event_indicator event_time estimate
   = inl (ValueError msg_empty) <->
   length event_indicator = 0 /\ length event_time = 0 /\
   length estimate = 0).
Proof.
  split; [|split].
  - intros r. split.
    + intros H. apply check_inputs_inv in H. destruct H as [-> Hv].
      split; [exact Hv|reflexivity].
    + intros [Hv ->]. apply check_inputs_validated. exact Hv.
  - rewrite check_inputs_cases.
    destruct (Nat.eqb_spec (length event_indicator) (length event_time))
      as [H1|H1];
      destruct (Nat.eqb_spec (length event_indicator) (length estimate))
        as [H2|H2]; cbn [andb negb];
      try (split; [intros _ [Ha Hb]; congruence|reflexivity]).
    split; [|intros H; exfalso; apply H; split; congruence].
    destruct (length event_indicator <? 1);
      [|destruct (length event_indicator <? 2);
        [|destruct (negb (np.any event_indicator))]];
      intros H; inversion H.
  - rewrite check_inputs_cases.
    destruct (Nat.eqb_spec (length event_indicator) (length event_time))
      as [H1|H1];
      destruct (Nat.eqb_spec (length event_indicator) (length estimate))
        as [H2|H2]; cbn [andb negb];
      try (split; [intros H; inversion H
                  |intros (Ha & Hb & Hc); congruence]).
    destruct (Nat.ltb_spec (length event_indicator) 1) as [H3|H3].
    + split; [intros _; repeat split; lia|reflexivity].
    + split; [|intros (Ha & _); lia].
      destruct (length event_indicator <? 2);
        [|destruct (negb (np.any event_indicator))];
        intros H; inversion H.
Qed.

Lemma spec_entries_sorted (event_indicator : list bool) (event_time : list Q)
  (order : list nat) (lo len : nat) :
  StronglySorted lt
    (map fst (spec_entries event_indicator event_time order lo len)).
Proof.
  revert lo. induction len as [|len IH]; intros lo; [constructor|].
  unfold spec_entries. cbn [seq flat_map].
  fold (spec_entries event_indicator event_time order (S lo) len).
  unfold spec_entry at 1.
  destruct (event_at event_indicator order lo); cbn [app map fst];
    [|apply IH].
  constructor; [apply IH|].
  apply Forall_forall. intros k Hk. apply in_map_iff in Hk.
  destruct Hk as ([k' mask] & <- & Hin). apply spec_entries_In in Hin.
  simpl. lia.
Qed.

(** X12.  For a sorted [order], the mapping built by [_get_comparable] has
    strictly increasing keys, all of them positions of the array; every
    mask has one entry per sample and never marks the key's own position:
    no sample is compared with itself. *)
Theorem comparable_mapping_shape (event_indicator : list bool)
  (event_time : list Q) (order : list nat) :
  sorts event_time order ->
  StronglySorted lt
    (map fst (fst (_get_comparable event_indicator event_time order))) /\
  Forall (fun kv => fst kv < length event_time /\
                    length (snd kv) = length event_time /\
                    np.item false (snd kv) (fst kv) = false)
         (fst (_get_comparable event_indicator event_time order)).
Proof.
  intros Hs.
  destruct (get_comparable_spec event_indicator event_time order
              (sorts_length _ _ Hs) (proj2 Hs)) as (i' & Hget & Hstop).
  rewrite Hget. cbn [fst]. split; [apply spec_entries_sorted|].
  apply Forall_forall. intros [j mask] Hin. apply spec_entries_In in Hin.
  destruct Hin as (Hj & HE & ->). destruct Hstop as (Hi' & _).
  cbn [fst snd].
  assert (Hjn : j < length event_time) by lia.
  split; [exact Hjn|]. split.
  - unfold spec_mask. rewrite length_map, length_seq. reflexivity.
  - unfold np.item, spec_mask.
    rewrite (nth_indep _ false
               (comparable_to event_indicator event_time order j 0))
      by (rewrite length_map, length_seq; exact Hjn).
    rewrite map_nth, seq_nth by exact Hjn. simpl.
    unfold comparable_to, tied_censored. rewrite HE.
    rewrite andb_false_r, orb_false_r. apply Qltb_ge, Qle_refl.
Qed.

Lemma comparable_mapping_shape_witness :
  sorts [3; 1; 2; 2]%Q (stable_argsort [3; 1; 2; 2]%Q) /\
  StronglySorted lt
    (map fst (fst (_get_comparable [true; true; false; true] [3; 1; 2; 2]%Q
                     (stable_argsort [3; 1; 2; 2]%Q)))).
Proof.
  split; [apply stable_argsort_sorts|].
  apply (comparable_mapping_shape [true; true; false; true] [3; 1; 2; 2]%Q
           (stable_argsort [3; 1; 2; 2]%Q) (stable_argsort_sorts _)).
Defined.

(** ** The adapter *)

Lemma censored_on_array_range (argsort : list Q -> list nat)
  (e : list bool) (t : list Q) (a : ndarray) (r : float64 * Z * Z * Z * Z) :
  (forall et, sorts et (argsort et)) ->
  censored_on_array argsort e t a = inr r ->
  first r = NaN \/ in_unit_interval (first r) = true.
Proof.
  intros Hs Hrun. destruct a as [x|xs|c rows]; try discriminate.
  cbn [censored_on_array] in Hrun.
  destruct r as [[[[cindex con] dis] tr] tied_time]. cbn [first].
  destruct (censored_range argsort Hs e t xs tol_1e_08 cindex con dis tr
              tied_time Hrun) as [[Hnan _]|Hin];
    [left; exact Hnan|right; exact Hin].
Qed.

Lemma concordance_index_inv (argsort : list Q -> list nat)
  (y_true y_pred : ndarray) (kws : list (string * string)) (v : float64) :
  concordance_index argsort y_true y_pred kws = inr v ->
  exists e t a r, censored_on_array argsort e t a = inr r /\ v = first r.
Proof.
  unfold concordance_index. intros H.
  repeat (match type of H with
          | context [bind ?m _] => destruct m eqn:?
          end; cbn [bind] in H; try discriminate);
    repeat (match type of H with
            | context [if ?b then _ else _] => destruct b
            end;
            repeat (match type of H with
                    | context [bind ?m _] => destruct m eqn:?
                    end; cbn [bind] in H; try discriminate));
    try discriminate;
    match goal with
    | Hr : censored_on_array _ ?e ?t ?a = inr ?r |- _ =>
        exists e, t, a, r; split; [exact Hr|]; inversion H; reflexivity
    end.
Qed.

(** X13.  Whatever the adapter [concordance_index] returns is NaN or a
    number between 0 and 1, on both of its paths and for every value of
    [type_pred]. *)
Theorem adapter_returns_nan_or_unit_interval (argsort : list Q -> list nat)
  (y_true y_pred : ndarray) (kws : list (string * string)) (v : float64) :
  (forall et, sorts et (argsort et)) ->
  concordance_index argsort y_true y_pred kws = inr v ->
  v = NaN \/ in_unit_interval v = true.
Proof.
  intros Hs H. apply concordance_index_inv in H.
  destruct H as (e & t & a & r & Hr & ->).
  exact (censored_on_array_range argsort e t a r Hs Hr).
Qed.

Lemma adapter_returns_nan_or_unit_interval_witness :
  ((forall et, sorts et (stable_argsort et)) /\
   concordance_index stable_argsort
     (Array2 2 [[1; 1]; [2; 1]; [3; 0]]%Q)
     (Array2 2 [[0.5; 0.2]; [0.3; 0.1]; [0.1; 0.1]]%Q) []
   = inr (Finite 1)) /\
  (Finite 1 = NaN \/ in_unit_interval (Finite 1) = true).
Proof.
  assert (Hrun :
    concordance_index stable_argsort
      (Array2 2 [[1; 1]; [2; 1]; [3; 0]]%Q)
      (Array2 2 [[0.5; 0.2]; [0.3; 0.1]; [0.1; 0.1]]%Q) []
    = inr (Finite 1)) by (vm_compute; reflexivity).
  split; [split; [exact stable_argsort_sorts|exact Hrun]|].
  exact (adapter_returns_nan_or_unit_interval stable_argsort _ _ _ _
           stable_argsort_sorts Hrun).
Defined.





(** ** Relabelling the samples *)

(** A permutation of the positions sorts a constant array, so the facts
    about admissible orders apply to it. *)
Lemma permutation_sorts_constant (perm : list nat) (n : nat) :
  Permutation perm (seq 0 n) -> sorts (repeat 0%Q n) perm.
Proof.
  intros Hp. unfold sorts. rewrite repeat_length. split; [exact Hp|].
  intros a b _ _. unfold time_at, np.item.
  assert (Hconst : forall k, nth k (repeat 0%Q n) 0%Q = 0%Q).
  { intros k. destruct (Nat.lt_ge_cases k n) as [Hk|Hk].
    - apply nth_repeat_lt. exact Hk.
    - apply nth_overflow. rewrite repeat_length. exact Hk. }
  rewrite !Hconst. apply Qle_refl.
Qed.

Lemma count_pairs_relabel (P : nat -> nat -> bool) (perm : list nat) (n : nat) :
  Permutation perm (seq 0 n) ->
  count_pairs (fun a b => P (np.item 0 perm a) (np.item 0 perm b)) n
  = count_pairs P n.
Proof.
  intros Hp.
  pose proof (positions_to_pairs P (repeat 0%Q n) perm
                (permutation_sorts_constant perm n Hp)) as H.
  rewrite repeat_length in H. rewrite <- H.
  unfold count_pairs.
  pose proof (list_prod_count
                (fun a b => P (np.item 0 perm a) (np.item 0 perm b))
                (seq 0 n) (seq 0 n)) as Hc.
  cbv beta in Hc. rewrite Hc, <- Zsum_of_nat. reflexivity.
Qed.

Lemma item_take {A : Type} (d : A) (l : list A) (perm : list nat) (a : nat) :
  a < length perm ->
  np.item d (np.take d l perm) a = np.item d l (np.item 0 perm a).
Proof.
  intros Ha. unfold np.take, np.item.
  rewrite (nth_indep (map (fun i => nth i l d) perm) d (nth 0 l d))
    by (rewrite length_map; exact Ha).
  apply (map_nth (fun i => nth i l d)).
Qed.

Lemma existsb_Permutation {A : Type} (f : A -> bool) (l l' : list A) :
  Permutation l l' -> existsb f l = existsb f l'.
Proof.
  intros Hp. apply eq_true_iff_eq. rewrite !existsb_exists.
  split; intros (x & Hin & Hx); exists x; split; try exact Hx.
  - exact (Permutation_in _ Hp Hin).
  - exact (Permutation_in _ (Permutation_sym Hp) Hin).
Qed.

Lemma existsb_map_comp {A B : Type} (f : B -> bool) (g : A -> B)
  (l : list A) :
  existsb f (map g l) = existsb (fun x => f (g x)) l.
Proof.
  induction l as [|x l IH]; simpl; [reflexivity|]. rewrite IH. reflexivity.
Qed.

Lemma any_take (event_indicator : list bool) (perm : list nat) :
  Permutation perm (seq 0 (length event_indicator)) ->
  np.any (np.take false event_indicator perm) = np.any event_indicator.
Proof.
  intros Hp. unfold np.any, np.take, np.item.
  rewrite existsb_map_comp. rewrite (existsb_Permutation _ _ _ Hp).
  rewrite <- (map_nth_seq_all false event_indicator) at 2.
  rewrite existsb_map_comp. reflexivity.
Qed.

Lemma has_comparable_event_take (event_indicator : list bool)
  (event_time : list Q) (perm : list nat) :
  Permutation perm (seq 0 (length event_time)) ->
  has_comparable_event (np.take false event_indicator perm)
                       (np.take 0%Q event_time perm)
  = has_comparable_event event_indicator event_time.
Proof.
  intros Hp.
  pose proof (permutation_sorts_constant perm _ Hp) as Hs.
  assert (Hlen : length perm = length event_time).
  { apply Permutation_length in Hp. rewrite length_seq in Hp. exact Hp. }
  assert (Hrange : forall k, k < length event_time ->
                             np.item 0 perm k < length event_time).
  { intros k Hk.
    pose proof (sorts_in_range _ perm k Hs) as H.
    rewrite repeat_length in H. exact (H Hk). }
  assert (Hinj : forall j k, j < length event_time -> k < length event_time ->
                             np.item 0 perm j = np.item 0 perm k -> j = k).
  { intros j k Hj Hk.
    pose proof (sorts_injective _ perm j k Hs) as H.
    rewrite repeat_length in H. exact (H Hj Hk). }
  assert (Hsurj : forall a, a < length event_time ->
                            exists j, j < length event_time /\
                                      np.item 0 perm j = a).
  { intros a Ha.
    pose proof (sorts_surjective _ perm a Hs) as H.
    rewrite repeat_length in H. exact (H Ha). }
  assert (Hlt : length (np.take 0%Q event_time perm) = length event_time)
    by (unfold np.take; rewrite length_map; exact Hlen).
  apply eq_true_iff_eq. rewrite !has_comparable_event_spec. rewrite Hlt.
  split.
  - intros (a & b & Ha & Hb & Hne & HE & Hle).
    rewrite item_take in HE by lia. rewrite !item_take in Hle by lia.
    exists (np.item 0 perm a), (np.item 0 perm b).
    split; [apply Hrange; exact Ha|]. split; [apply Hrange; exact Hb|].
    split; [intros Heq; apply Hne; apply Hinj; assumption|].
    split; assumption.
  - intros (a & b & Ha & Hb & Hne & HE & Hle).
    destruct (Hsurj a Ha) as (j & Hj & <-).
    destruct (Hsurj b Hb) as (k & Hk & <-).
    exists j, k. split; [exact Hj|]. split; [exact Hk|].
    split; [intros ->; apply Hne; reflexivity|].
    rewrite !item_take by lia. split; assumption.
Qed.

(** X16.  The result does not depend on the order in which the samples
    are listed: permuting the three arrays in the same way gives the same
    error, or the same index and counts. *)
Theorem sample_order_is_irrelevant (argsort : list Q -> list nat)
  (event_indicator : list bool) (event_time estimate : list Q) (tied_tol : Q)
  (perm : list nat) :
  (forall et, sorts et (argsort et)) ->
  length event_indicator = length event_time ->
  length estimate = length event_time ->
  Permutation perm (seq 0 (length event_time)) ->
  concordance_index_censored argsort
    (np.take false event_indicator perm) (np.take 0%Q event_time perm)
    (np.take 0%Q estimate perm) tied_tol
  = concordance_index_censored argsort event_indicator event_time estimate
                               tied_tol.
Proof.
  intros Hs Hei Hest Hp. rewrite !(censored_pairwise argsort Hs).
  assert (Hlen : length perm = length event_time).
  { apply Permutation_length in Hp. rewrite length_seq in Hp. exact Hp. }
  assert (Hl1 : length (np.take false event_indicator perm)
                = length event_time)
    by (unfold np.take; rewrite length_map; exact Hlen).
  assert (Hl2 : length (np.take 0%Q event_time perm) = length event_time)
    by (unfold np.take; rewrite length_map; exact Hlen).
  assert (Hl3 : length (np.take 0%Q estimate perm) = length event_time)
    by (unfold np.take; rewrite length_map; exact Hlen).
  unfold pairwise_index. rewrite !check_inputs_cases.
  rewrite Hl1, Hl2, Hl3, Hei, Hest.
  rewrite Nat.eqb_refl. cbn [andb negb].
  destruct (length event_time <? 1); [reflexivity|].
  destruct (length event_time <? 2); [reflexivity|].
  rewrite any_take by (rewrite Hei; exact Hp).
  destruct (negb (np.any event_indicator)); [reflexivity|].
  cbn [bind ret]. rewrite (has_comparable_event_take _ _ _ Hp).
  destruct (has_comparable_event event_indicator event_time);
    [|reflexivity].
  assert (Hcon :
    count_pairs (concordant_pair (np.take false event_indicator perm)
                   (np.take 0%Q event_time perm) (np.take 0%Q estimate perm)
                   tied_tol) (length event_time)
    = count_pairs (concordant_pair event_indicator event_time estimate
                     tied_tol) (length event_time)).
  { rewrite <- (count_pairs_relabel
                  (concordant_pair event_indicator event_time estimate
                     tied_tol) perm _ Hp).
    apply count_pairs_ext. intros a b Ha Hb.
    unfold concordant_pair, comparable_pair.
    rewrite !item_take by lia. reflexivity. }
  assert (Hdis :
    count_pairs (discordant_pair (np.take false event_indicator perm)
                   (np.take 0%Q event_time perm) (np.take 0%Q estimate perm)
                   tied_tol) (length event_time)
    = count_pairs (discordant_pair event_indicator event_time estimate
                     tied_tol) (length event_time)).
  { rewrite <- (count_pairs_relabel
                  (discordant_pair event_indicator event_time estimate
                     tied_tol) perm _ Hp).
    apply count_pairs_ext. intros a b Ha Hb.
    unfold discordant_pair, comparable_pair.
    rewrite !item_take by lia. reflexivity. }
  assert (Htr :
    count_pairs (tied_risk_pair (np.take false event_indicator perm)
                   (np.take 0%Q event_time perm) (np.take 0%Q estimate perm)
                   tied_tol) (length event_time)
    = count_pairs (tied_risk_pair event_indicator event_time estimate
                     tied_tol) (length event_time)).
  { rewrite <- (count_pairs_relabel
                  (tied_risk_pair event_indicator event_time estimate
                     tied_tol) perm _ Hp).
    apply count_pairs_ext. intros a b Ha Hb.
    unfold tied_risk_pair, comparable_pair.
    rewrite !item_take by lia. reflexivity. }
  assert (Htt :
    count_pairs (tied_time_pair (np.take false event_indicator perm)
                   (np.take 0%Q event_time perm)) (length event_time)
    = count_pairs (tied_time_pair event_indicator event_time)
                  (length event_time)).
  { rewrite <- (count_pairs_relabel
                  (tied_time_pair event_indicator event_time) perm _ Hp).
    apply count_pairs_ext. intros a b Ha Hb.
    unfold tied_time_pair.
    rewrite !item_take by lia. reflexivity. }
  rewrite Hcon, Hdis, Htr, Htt. reflexivity.
Qed.

Lemma sample_order_is_irrelevant_witness :
  ((forall et, sorts et (stable_argsort et)) /\
   length [true; true; false; true] = length [1; 2; 2; 3]%Q /\
   length [0.9; 0.5; 0.5; 0.1]%Q = length [1; 2; 2; 3]%Q /\
   Permutation [1; 0; 2; 3] (seq 0 (length [1; 2; 2; 3]%Q))) /\
  concordance_index_censored stable_argsort
    (np.take false [true; true; false; true] [1; 0; 2; 3])
    (np.take 0%Q [1; 2; 2; 3]%Q [1; 0; 2; 3])
    (np.take 0%Q [0.9; 0.5; 0.5; 0.1]%Q [1; 0; 2; 3]) tol_1e_08
  = concordance_index_censored stable_argsort [true; true; false; true]
      [1; 2; 2; 3]%Q [0.9; 0.5; 0.5; 0.1]%Q tol_1e_08.
Proof.
  assert (Hp : Permutation [1; 0; 2; 3] (seq 0 (length [1; 2; 2; 3]%Q)))
    by (simpl; apply perm_swap).
  split;
    [split; [exact stable_argsort_sorts|
             split; [reflexivity|split; [reflexivity|exact Hp]]]|].
  apply (sample_order_is_irrelevant stable_argsort [true; true; false; true]
           [1; 2; 2; 3]%Q [0.9; 0.5; 0.5; 0.1]%Q tol_1e_08 [1; 0; 2; 3]
           stable_argsort_sorts eq_refl eq_refl Hp).
Defined.
